(** * Doll-Collection: the collection view engine, the image normalisation
      step, the create-item handler and the AI analysis wrappers

    A shallow embedding of the TypeScript sources
    - [types.ts]                    (records [Doll], [NewDollForm], [SortOption]),
    - [components/DollCard.tsx]     ([isNew]),
    - [views/HomeView.tsx]          ([processedDolls], [handleSubmit]),
    - [services/utils.ts]           ([compressImage]),
    - [services/geminiService.ts]   ([identifyDoll], [suggestCategory]),
    followed by the properties of the specification that concern them.

    Conventions.  A JavaScript string is a [string] (a sequence of code
    units); [null] in a field of type [string | null] is [None]; an ECMAScript
    time value (milliseconds since the epoch) is a [Z], and [NaN] where a
    time value is expected is [None].  A thrown exception or a rejected
    promise is the [Throw] completion of the monad [completion]. *)

From Stdlib Require Import ZArith List String Ascii Bool Lia.
From Stdlib Require Import QArith Qround Qcanon Lqa DecimalString.
From Stdlib Require Import PrimFloat FloatOps SpecFloat.
From Stdlib Require Import Sorting.Sorted Sorting.Permutation OrderedTypeEx.
Import ListNotations.

Local Open Scope string_scope.
Local Open Scope Z_scope.

(** ** Completions: values or thrown exceptions *)

Module Js.

Inductive exn : Type :=
| TypeError                  (* property access or method call on null *)
| SyntaxError                (* JSON.parse on malformed text *)
| Rejected (reason : string) (* a rejected promise, a thrown Error *).

Inductive completion (A : Type) : Type :=
| Normal (a : A)
| Throw (e : exn).
Arguments Normal {A} a.
Arguments Throw {A} e.

Definition bind {A B} (c : completion A) (k : A -> completion B)
  : completion B :=
  match c with
  | Normal a => k a
  | Throw e => Throw e
  end.

(** ToBoolean on a value of type [string | null]: [null] and the empty
    string are falsy. *)
Definition truthy (v : option string) : bool :=
  match v with
  | None => false
  | Some s => negb (String.eqb s "")
  end.

(** [s.includes(sub)]: [sub] occurs in [s] as a contiguous substring. *)
Fixpoint includes (s sub : string) : bool :=
  prefix sub s ||
  match s with
  | EmptyString => false
  | String _ s' => includes s' sub
  end.

(** [s.startsWith(p)]. *)
Definition startsWith (s p : string) : bool := prefix p s.

(** [Array.prototype.filter] with a callback that may throw: the first
    exception aborts the traversal. *)
Fixpoint Array_filter {A} (callback : A -> completion bool) (l : list A)
  : completion (list A) :=
  match l with
  | [] => Normal []
  | x :: l' =>
      bind (callback x) (fun keep =>
      bind (Array_filter callback l') (fun rest =>
      Normal (if keep then x :: rest else rest)))
  end.

(** SortCompare of [Array.prototype.sort]: the comparator's result, with
    [NaN] read as [+0]. *)
Definition SortCompare {A} (comparefn : A -> A -> option Z) (x y : A) : Z :=
  match comparefn x y with
  | Some v => v
  | None => 0
  end.

(** [Array.prototype.sort(comparefn)].  ECMAScript requires the sort to be
    stable; the model is the stable insertion sort: every element is
    inserted before the first element of the already sorted suffix that it
    does not compare greater than.  For a comparator that is consistent on
    the list this is the result of every conforming engine
    ([sort_is_the_stable_sort] below).  For any other comparator, such as
    one that returns [NaN] on some pairs only, ECMAScript leaves the order
    to the engine, and the model stands for one possible engine: what is
    proved of the order is proved under consistency. *)
Fixpoint insert {A} (comparefn : A -> A -> option Z) (x : A) (l : list A)
  : list A :=
  match l with
  | [] => [x]
  | y :: l' =>
      if SortCompare comparefn x y <=? 0 then x :: y :: l'
      else y :: insert comparefn x l'
  end.

Fixpoint sort {A} (comparefn : A -> A -> option Z) (l : list A) : list A :=
  match l with
  | [] => []
  | x :: l' => insert comparefn x (sort comparefn l')
  end.

(** A comparator is consistent on the elements of [l] when, on them, it
    orders like a total preorder: this is the condition under which
    ECMAScript fixes the result of [sort]. *)
Definition consistentOn {A} (comparefn : A -> A -> option Z) (l : list A)
  : Prop :=
  (forall x y, In x l -> In y l ->
     0 < SortCompare comparefn x y -> SortCompare comparefn y x < 0)
  /\ (forall x y, In x l -> In y l ->
        SortCompare comparefn x y < 0 -> 0 < SortCompare comparefn y x)
  /\ (forall x y z, In x l -> In y l -> In z l ->
        SortCompare comparefn x y <= 0 -> SortCompare comparefn y z <= 0 ->
        SortCompare comparefn x z <= 0).

(** Subtraction of two time values, either of which may be [NaN]. *)
Definition num_sub (a b : option Z) : option Z :=
  match a, b with
  | Some x, Some y => Some (x - y)
  | _, _ => None
  end.

End Js.

Import Js.

Declare Scope js_scope.
Notation "x <- c ;; k" := (bind c (fun x => k))
  (at level 61, c at next level, right associativity) : js_scope.
Local Open Scope js_scope.

(** ** The host: built-ins whose result depends on the JavaScript engine *)

Class Host : Type := {
  (** [String.prototype.toLowerCase] *)
  toLowerCase : string -> string;
  (** [String.prototype.localeCompare]: negative, zero or positive *)
  localeCompare : string -> string -> Z;
  (** [new Date(s).getTime()]; [None] is [NaN] (an invalid date) *)
  Date_getTime : string -> option Z
}.

(** ECMAScript requires [localeCompare] to be a consistent comparison
    function: it induces a total preorder on strings. *)
Record ConsistentCollation (H : Host) : Prop := {
  collation_gt_lt :
    forall a b, 0 < localeCompare a b -> localeCompare b a < 0;
  collation_lt_gt :
    forall a b, localeCompare a b < 0 -> 0 < localeCompare b a;
  collation_trans :
    forall a b c,
      localeCompare a b <= 0 -> localeCompare b c <= 0 ->
      localeCompare a c <= 0
}.

(** ** types.ts *)

Module Doll.
Record t : Type := {
  id : string;
  name : string;
  description : option string;
  size : string;
  category_id : option string;
  topic_id : string;
  catch_date : option string;
  image_url : string;
  created_at : string
}.
End Doll.

Inductive SortOption : Type := DATE_DESC | DATE_ASC | NAME_ASC | NAME_DESC.

(** A browser [File]: its name, its MIME type and its content. *)
Module File.
Record t : Type := {
  name : string;
  type : string;
  content : string
}.
End File.

Module NewDollForm.
Record t : Type := {
  name : string;
  description : string;
  size : list string;
  category_id : string;
  catch_date : string;
  imageFile : option File.t
}.
End NewDollForm.

(** ** Event handlers: component state, calls to the outside, exceptions

    A handler is a function of the component state that returns a
    completion, the new state and the calls it made, in order. *)

Module Effect.
Section WithStateAndEvents.
Context {S E : Type}.

Definition M (A : Type) : Type := S -> completion A * S * list E.

Definition ret {A} (a : A) : M A := fun s => (Normal a, s, []).

Definition bind {A B} (m : M A) (k : A -> M B) : M B :=
  fun s =>
    match m s with
    | (Normal a, s1, t1) =>
        let '(r, s2, t2) := k a s1 in (r, s2, (t1 ++ t2)%list)
    | (Throw e, s1, t1) => (Throw e, s1, t1)
    end.

Definition throw {A} (e : exn) : M A := fun s => (Throw e, s, []).

(** A call to the outside, recorded in the trace. *)
Definition call (e : E) : M unit := fun s => (Normal tt, s, [e]).

(** A state setter. *)
Definition modify (f : S -> S) : M unit := fun s => (Normal tt, f s, []).

Definition get : M S := fun s => (Normal s, s, []).

(** [await p] for a promise that settles with the completion [c]. *)
Definition await {A} (c : completion A) : M A := fun s => (c, s, []).

(** [try { body } catch (err) { handler err } finally { finalizer }] *)
Definition try_catch_finally {A} (body : M A) (handler : exn -> M A)
    (finalizer : M unit) : M A :=
  fun s =>
    let '(r1, s1, t1) := body s in
    let '(r2, s2, t2) :=
      match r1 with
      | Normal a => (Normal a, s1, [])
      | Throw e => handler e s1
      end in
    let '(r3, s3, t3) := finalizer s2 in
    (match r3 with Normal _ => r2 | Throw e => Throw e end,
     s3, (t1 ++ t2 ++ t3)%list).

(** [try { body } catch (err) { handler err }] *)
Definition try_catch {A} (body : M A) (handler : exn -> M A) : M A :=
  fun s =>
    match body s with
    | (Normal a, s1, t1) => (Normal a, s1, t1)
    | (Throw e, s1, t1) =>
        let '(r2, s2, t2) := handler e s1 in (r2, s2, (t1 ++ t2)%list)
    end.

End WithStateAndEvents.
End Effect.

Declare Scope eff_scope.
Delimit Scope eff_scope with eff.
Notation "x <- c ;; k" := (Effect.bind c (fun x => k))
  (at level 61, c at next level, right associativity) : eff_scope.
Notation "c ;; k" := (Effect.bind c (fun _ => k))
  (at level 61, right associativity) : eff_scope.

(** ** Handlers that may stay suspended

    An [async] handler that awaits a promise which never settles does not
    return: it stays suspended at that [await], and neither the rest of
    its body nor its [catch] and [finally] blocks run.  Such a handler is
    a function of the component state that returns how far it got (a
    completion, or [Pending]), the state and the calls made up to there. *)

Module Async.
Section WithStateAndEvents.
Context {S E : Type}.

Inductive outcome (A : Type) : Type :=
| Settled (c : completion A)
| Pending.
Arguments Settled {A} c.
Arguments Pending {A}.

Definition M (A : Type) : Type := S -> outcome A * S * list E.

Definition ret {A} (a : A) : M A := fun s => (Settled (Normal a), s, []).

Definition bind {A B} (m : M A) (k : A -> M B) : M B :=
  fun s =>
    match m s with
    | (Settled (Normal a), s1, t1) =>
        let '(r, s2, t2) := k a s1 in (r, s2, (t1 ++ t2)%list)
    | (Settled (Throw e), s1, t1) => (Settled (Throw e), s1, t1)
    | (Pending, s1, t1) => (Pending, s1, t1)
    end.

Definition throw {A} (e : exn) : M A := fun s => (Settled (Throw e), s, []).

Definition call (e : E) : M unit := fun s => (Settled (Normal tt), s, [e]).

Definition modify (f : S -> S) : M unit :=
  fun s => (Settled (Normal tt), f s, []).

Definition get : M S := fun s => (Settled (Normal s), s, []).

(** [await p] for a promise that settles with the completion [c]. *)
Definition await {A} (c : completion A) : M A := fun s => (Settled c, s, []).

(** [await p] for a promise that settles with [c] ([Some c]) or never
    settles ([None]). *)
Definition await_promise {A} (p : option (completion A)) : M A :=
  fun s =>
    match p with
    | Some c => (Settled c, s, [])
    | None => (Pending, s, [])
    end.

(** [try { body } catch (err) { handler err } finally { finalizer }] *)
Definition try_catch_finally {A} (body : M A) (handler : exn -> M A)
    (finalizer : M unit) : M A :=
  fun s =>
    match body s with
    | (Pending, s1, t1) => (Pending, s1, t1)
    | (Settled r1, s1, t1) =>
        match
          match r1 with
          | Normal a => (Settled (Normal a), s1, [])
          | Throw e => handler e s1
          end
        with
        | (Pending, s2, t2) => (Pending, s2, (t1 ++ t2)%list)
        | (Settled r2, s2, t2) =>
            match finalizer s2 with
            | (Pending, s3, t3) => (Pending, s3, (t1 ++ t2 ++ t3)%list)
            | (Settled r3, s3, t3) =>
                (Settled (match r3 with Normal _ => r2 | Throw e => Throw e end),
                 s3, (t1 ++ t2 ++ t3)%list)
            end
        end
    end.

End WithStateAndEvents.
Arguments Settled {A} c.
Arguments Pending {A}.
End Async.

Declare Scope async_scope.
Delimit Scope async_scope with async.
Notation "x <- c ;; k" := (Async.bind c (fun x => k))
  (at level 61, c at next level, right associativity) : async_scope.
Notation "c ;; k" := (Async.bind c (fun _ => k))
  (at level 61, right associativity) : async_scope.

(** ** components/DollCard.tsx *)

Module DollCard.
Section WithHost.
Context {H : Host}.

(** The body of the [isNew] memo; [now] is the reading of [new Date()].
    Time values are integers; the quotient by the length of a day is taken
    in the rationals and rounded up by [Math.ceil].  (The engine divides in
    binary64; rounding is monotone and both 30 and thirty days of
    milliseconds are represented exactly, so the comparison with 30 has the
    same outcome.)  When [created_at] does not parse, the day count is
    [NaN] and the comparison [diffDays <= 30] fails. *)
Definition isNew (now : Z) (doll : Doll.t) : bool :=
  match Date_getTime (Doll.created_at doll) with
  | Some created =>
      let diffTime := Z.abs (now - created) in
      let diffDays :=
        Qceiling (inject_Z diffTime / inject_Z (1000 * 60 * 60 * 24)) in
      diffDays <=? 30
  | None => false
  end.

End WithHost.
End DollCard.

(** ** views/HomeView.tsx: the [processedDolls] memo *)

Module HomeView.
Section WithHost.
Context {H : Host}.

(** A method call [receiver.toLowerCase()] whose receiver has type
    [string | null]: calling a method on [null] throws a [TypeError]. *)
Definition call_toLowerCase (receiver : option string) : completion string :=
  match receiver with
  | Some s => Normal (toLowerCase s)
  | None => Throw TypeError
  end.

(** [receiver.startsWith(p)] on a receiver of type [string | null]. *)
Definition call_startsWith (receiver : option string) (p : string)
  : completion bool :=
  match receiver with
  | Some s => Normal (startsWith s p)
  | None => Throw TypeError
  end.

(** The callback of the search filter:
    [d.name.toLowerCase().includes(q.toLowerCase()) ||
     (d.description && d.description.toLowerCase().includes(q.toLowerCase()))],
    coerced to a boolean by [filter]. *)
Definition searchPredicate (searchQuery : string) (d : Doll.t)
  : completion bool :=
  if includes (toLowerCase (Doll.name d)) (toLowerCase searchQuery)
  then Normal true
  else if truthy (Doll.description d) then
    lowered <- call_toLowerCase (Doll.description d) ;;
    Normal (includes lowered (toLowerCase searchQuery))
  else Normal false.

(** [if (searchQuery) { result = result.filter(...) }] *)
Definition searchStage (searchQuery : string) (result : list Doll.t)
  : completion (list Doll.t) :=
  if truthy (Some searchQuery)
  then Array_filter (searchPredicate searchQuery) result
  else Normal result.

(** The callback of the NEW filter; [now] is its own reading of
    [new Date()]. *)
Definition newPredicate (now : Z) (d : Doll.t) : bool :=
  match Date_getTime (Doll.created_at d) with
  | Some created =>
      let diffDays :=
        Qceiling (inject_Z (Z.abs (now - created))
                  / inject_Z (1000 * 60 * 60 * 24)) in
      diffDays <=? 30
  | None => false
  end.

(** The NEW filter reads the clock once per item: [clock k] is the [k]-th
    reading of [new Date()] taken while the memo is evaluated. *)
Fixpoint filterNew (clock : nat -> Z) (k : nat) (l : list Doll.t)
  : list Doll.t :=
  match l with
  | [] => []
  | d :: l' =>
      if newPredicate (clock k) d then d :: filterNew clock (S k) l'
      else filterNew clock (S k) l'
  end.

(** [d => d.catch_date && d.catch_date.startsWith(dateFilterValue)] *)
Definition datePredicate (dateFilterValue : string) (d : Doll.t)
  : completion bool :=
  if truthy (Doll.catch_date d)
  then call_startsWith (Doll.catch_date d) dateFilterValue
  else Normal false.

(** [d => d.category_id === activeFilter] *)
Definition categoryPredicate (activeFilter : string) (d : Doll.t) : bool :=
  match Doll.category_id d with
  | Some c => String.eqb c activeFilter
  | None => false
  end.

(** The category/date filter.  [activeFilter] has the type
    ['ALL' | 'NEW' | 'DATE_FILTER' | string]. *)
Definition filterStage (activeFilter dateFilterValue : string)
    (clock : nat -> Z) (result : list Doll.t) : completion (list Doll.t) :=
  if String.eqb activeFilter "NEW" then
    Normal (filterNew clock 0 result)
  else if String.eqb activeFilter "DATE_FILTER" then
    if truthy (Some dateFilterValue)
    then Array_filter (datePredicate dateFilterValue) result
    else Normal result
  else if negb (String.eqb activeFilter "ALL") then
    Normal (filter (categoryPredicate activeFilter) result)
  else Normal result.

(** The comparator passed to [result.sort]. *)
Definition compareFn (sortOption : SortOption) (a b : Doll.t) : option Z :=
  match sortOption with
  | DATE_DESC =>
      num_sub (Date_getTime (Doll.created_at b))
              (Date_getTime (Doll.created_at a))
  | DATE_ASC =>
      num_sub (Date_getTime (Doll.created_at a))
              (Date_getTime (Doll.created_at b))
  | NAME_ASC => Some (localeCompare (Doll.name a) (Doll.name b))
  | NAME_DESC => Some (localeCompare (Doll.name b) (Doll.name a))
  end.

Definition sortStep (sortOption : SortOption) (result : list Doll.t)
  : list Doll.t :=
  sort (compareFn sortOption) result.

Definition processedDolls (dolls : list Doll.t)
    (activeFilter dateFilterValue : string) (sortOption : SortOption)
    (searchQuery : string) (clock : nat -> Z) : completion (list Doll.t) :=
  let result := dolls in
  result <- searchStage searchQuery result ;;
  result <- filterStage activeFilter dateFilterValue clock result ;;
  Normal (sortStep sortOption result).

End WithHost.

(** *** [handleSubmit] *)

(** The component state that [handleSubmit] reads or writes. *)
Record State : Type := {
  loading : bool;
  isAddModalOpen : bool;
  formData : NewDollForm.t
}.

Definition setLoading (b : bool) (s : State) : State :=
  {| loading := b; isAddModalOpen := isAddModalOpen s;
     formData := formData s |}.

Definition setIsAddModalOpen (b : bool) (s : State) : State :=
  {| loading := loading s; isAddModalOpen := b; formData := formData s |}.

Definition setFormData (f : NewDollForm.t) (s : State) : State :=
  {| loading := loading s; isAddModalOpen := isAddModalOpen s;
     formData := f |}.

(** The row passed to [supabase.from('dolls').insert]. *)
Record DollRow : Type := {
  row_name : string;
  row_description : string;
  row_size : string;
  row_category_id : option string;
  row_topic_id : string;
  row_catch_date : string;
  row_image_url : string
}.

(** The calls [handleSubmit] makes to the browser and to its
    collaborators. *)
Inductive Call : Type :=
| preventDefault
| alert (message : string)
| console_error (err : exn)
| compressImage (file : File.t)
| storage_upload (bucket fileName : string) (file : File.t)
| storage_getPublicUrl (bucket fileName : string)
| dolls_insert (row : DollRow)
| fetchData.

(** The calls that reach a collaborator: image compression, blob storage,
    the database.  The others stay in the browser. *)
Definition isCollaboratorCall (c : Call) : bool :=
  match c with
  | compressImage _ | storage_upload _ _ _ | storage_getPublicUrl _ _
  | dolls_insert _ | fetchData => true
  | preventDefault | alert _ | console_error _ => false
  end.

(** What the collaborators answer.  [upload] and [insert] resolve to an
    object whose [error] field is [null] on success. *)
Record Collaborators : Type := {
  compressImage_result : File.t -> completion File.t;
  Date_now : Z;
  upload_result : string -> File.t -> completion (option exn);
  publicUrl_of : string -> string;
  insert_result : DollRow -> completion (option exn);
  (** [new Date().toISOString().split('T')[0]] *)
  today : string
}.

(** [name.split('.').pop()]: the part of [name] after its last dot, all of
    [name] when it has none. *)
Fixpoint split_pop (name : string) : string :=
  match name with
  | EmptyString => EmptyString
  | String c rest =>
      if includes rest "." then split_pop rest
      else if Ascii.eqb c "."%char then rest
      else String c rest
  end.

(** The decimal rendering of an integer Number in a template literal. *)
Definition Number_toString (n : Z) : string :=
  DecimalString.NilZero.string_of_int (Z.to_int n).

Local Open Scope eff_scope.

Definition handleSubmit (collab : Collaborators) (currentTopic_id : string)
  : @Effect.M State Call unit :=
  Effect.call preventDefault ;;
  st <- Effect.get ;;
  let formData := formData st in
  match NewDollForm.imageFile formData with
  | None => Effect.call (alert "Image is required.")
  | Some imageFile =>
      if (List.length (NewDollForm.size formData) =? 0)%nat
      then Effect.call (alert "Please select at least one size.")
      else
        Effect.modify (setLoading true) ;;
        Effect.try_catch_finally
          ((* Compress Image *)
           Effect.call (compressImage imageFile) ;;
           compressedFile <- Effect.await (compressImage_result collab imageFile) ;;
           let fileExt := split_pop (File.name compressedFile) in
           let fileName :=
             (Number_toString (Date_now collab) ++ "." ++ fileExt)%string in
           Effect.call (storage_upload "images" fileName compressedFile) ;;
           uploadError <-
             Effect.await (upload_result collab fileName compressedFile) ;;
           match uploadError with
           | Some err => Effect.throw err
           | None =>
               Effect.call (storage_getPublicUrl "images" fileName) ;;
               let publicUrl := publicUrl_of collab fileName in
               let row :=
                 {| row_name := NewDollForm.name formData;
                    row_description := NewDollForm.description formData;
                    row_size := String.concat ", " (NewDollForm.size formData);
                    row_category_id :=
                      (if truthy (Some (NewDollForm.category_id formData))
                       then Some (NewDollForm.category_id formData)
                       else None);
                    row_topic_id := currentTopic_id;
                    row_catch_date := NewDollForm.catch_date formData;
                    row_image_url := publicUrl |} in
               Effect.call (dolls_insert row) ;;
               insertError <- Effect.await (insert_result collab row) ;;
               match insertError with
               | Some err => Effect.throw err
               | None =>
                   Effect.modify (setIsAddModalOpen false) ;;
                   Effect.modify (setFormData
                     {| NewDollForm.name := "";
                        NewDollForm.description := "";
                        NewDollForm.size := ["Normal"];
                        NewDollForm.category_id := "";
                        NewDollForm.catch_date := today collab;
                        NewDollForm.imageFile := None |}) ;;
                   Effect.call fetchData
               end
           end)
          (fun err =>
             Effect.call (console_error err) ;;
             Effect.call (alert "Failed to add doll. See console."))
          (Effect.modify (setLoading false))
  end.

Local Close Scope eff_scope.

End HomeView.

(** ** services/utils.ts: the dimension logic of [compressImage] *)

Module ImageUtils.

(** The arithmetic of JavaScript Numbers that the dimension logic uses.
    Three instances are given below: exact rationals, in which the rule of
    the specification is read; the binary64 numbers of the machine, on
    which the logic is evaluated at given sizes; and binary64 as rounded
    rational arithmetic, in which the logic is analysed for every size. *)
Class Number (N : Type) : Type := {
  of_Z : Z -> N;
  mul : N -> N -> N;
  div : N -> N -> N;
  gtb : N -> N -> bool;
  geb : N -> N -> bool
}.

Section MaxDimension.
Context {N : Type} {number : Number N}.

Definition MAX_SIZE : N := of_Z 1080.

(** The block under [// Max dimension logic] in [img.onload]: from the
    natural size of the decoded image to the [width] and [height] assigned
    to the canvas. *)
Definition maxDimension (img_width img_height : N) : N * N :=
  let width := img_width in
  let height := img_height in
  if gtb width height then
    if gtb width MAX_SIZE
    then (MAX_SIZE, mul height (div MAX_SIZE width))
    else (width, height)
  else
    if gtb height MAX_SIZE
    then (mul width (div MAX_SIZE height), MAX_SIZE)
    else (width, height).

(** The rule in the words of the specification: when the width is the
    longer side (ties included) and exceeds the cap, both sides are scaled
    by [1080/width]; otherwise, when the height exceeds the cap, both are
    scaled by [1080/height]; otherwise nothing changes. *)
Definition scaleBoth (factor : N) (width height : N) : N * N :=
  (mul width factor, mul height factor).

Definition specDimensions (width height : N) : N * N :=
  if geb width height && gtb width MAX_SIZE
  then scaleBoth (div MAX_SIZE width) width height
  else if gtb height MAX_SIZE
  then scaleBoth (div MAX_SIZE height) width height
  else (width, height).

End MaxDimension.

(** Exact rational arithmetic. *)
#[global] Instance Number_Qc : Number Qc := {
  of_Z := fun z => Q2Qc (inject_Z z);
  mul := Qcmult;
  div := Qcdiv;
  gtb := fun a b => match Qccompare a b with Gt => true | _ => false end;
  geb := fun a b => match Qccompare a b with Lt => false | _ => true end
}.

(** Binary64 arithmetic.  Integers below [2^53] are converted exactly. *)
Fixpoint float_of_positive (p : positive) : float :=
  match p with
  | xH => 1%float
  | xO q => PrimFloat.mul 2%float (float_of_positive q)
  | xI q => PrimFloat.add (PrimFloat.mul 2%float (float_of_positive q)) 1%float
  end.

Definition float_of_Z (z : Z) : float :=
  match z with
  | Z0 => 0%float
  | Zpos p => float_of_positive p
  | Zneg p => PrimFloat.opp (float_of_positive p)
  end.

#[global] Instance Number_float : Number float := {
  of_Z := float_of_Z;
  mul := PrimFloat.mul;
  div := PrimFloat.div;
  gtb := fun a b => PrimFloat.ltb b a;
  geb := fun a b => PrimFloat.leb b a
}.

(** *** Binary64 as rounded rational arithmetic

    IEEE 754 defines each binary64 operation as the exact result rounded
    to the nearest number with a significand of 53 bits, ties going to the
    even significand.  [round53] is that rounding on the rationals, and the
    instance [Number_binary64] computes with it; this is the arithmetic in
    which the dimension logic is analysed for every input.  The model
    leaves out what the logic cannot reach from natural sizes below
    [2^32]: overflow, subnormal numbers, and a division by zero (the
    logic divides by a side above 1080 only). *)

(** [n/d] rounded to the nearest integer, ties to even, for [d > 0]. *)
Definition half_even (n d : Z) : Z :=
  let q := n / d in
  let r := n mod d in
  if 2 * r <? d then q
  else if d <? 2 * r then q + 1
  else if Z.even q then q else q + 1.

(** Numerator and denominator of [n/d * 2^t]. *)
Definition scale (n d t : Z) : Z * Z :=
  (n * 2 ^ Z.max t 0, d * 2 ^ Z.max (- t) 0).

(** Rounding of [n/d], for [n, d > 0]: the exponent [t] brings the
    quotient into [[2^52, 2^53)], where it is rounded to an integer. *)
Definition round53_pos (n d : Z) : Q :=
  let k := Z.log2 n - Z.log2 d in
  let t0 := 52 - k in
  let '(n0, d0) := scale n d t0 in
  let t := if 2 ^ 52 * d0 <=? n0 then t0 else t0 + 1 in
  let '(n1, d1) := scale n d t in
  let m := half_even n1 d1 in
  Qmake (m * 2 ^ Z.max (- t) 0) (Z.to_pos (2 ^ Z.max t 0)).

Definition round53 (x : Q) : Q :=
  match Qnum x with
  | Z0 => 0%Q
  | Zpos n => round53_pos (Zpos n) (Zpos (Qden x))
  | Zneg n => Qopp (round53_pos (Zpos n) (Zpos (Qden x)))
  end.

(** The unit roundoff [2^-53]. *)
Definition u53 : Q := 1 # 9007199254740992.

(** Whole numbers below [2^53] in absolute value are binary64 numbers as
    they are. *)
#[global] Instance Number_binary64 : Number Q := {
  of_Z := inject_Z;
  mul := fun a b => round53 (a * b);
  div := fun a b => round53 (a / b);
  gtb := fun a b => negb (Qle_bool a b);
  geb := fun a b => Qle_bool b a
}.

(** The value of a finite binary64 number of the machine. *)
Definition Q_of_float (x : float) : option Q :=
  match Prim2SF x with
  | S754_zero _ => Some 0%Q
  | S754_finite s m e =>
      let v := if 0 <=? e then Qmake (Zpos m * 2 ^ e) 1
               else Qmake (Zpos m) (Z.to_pos (2 ^ (- e))) in
      Some (if s then Qopp v else v)
  | _ => None
  end.

(** The two binary64 instances give the same dimensions. *)
Definition sameDimensions (w h : Z) : bool :=
  let '(a, b) := maxDimension (N := Q) (of_Z w) (of_Z h) in
  let '(x, y) := maxDimension (N := float) (of_Z w) (of_Z h) in
  match Q_of_float x, Q_of_float y with
  | Some x', Some y' => Qeq_bool a x' && Qeq_bool b y'
  | _, _ => false
  end.

(** [p] is what two roundings in a row can make of the exact value
    [e >= 0]: a rounding changes a number by at most the fraction [2^-53]
    of itself. *)
Definition twiceRounded (e p : Q) : Prop :=
  (e * (1 - u53) * (1 - u53) <= p /\ p <= e * (1 + u53) * (1 + u53))%Q.

(** [canvas.width = x]: the conversion of a Number to [unsigned long],
    which drops the fraction and reduces modulo [2^32]. *)
Definition ToUint32 (x : Q) : Z :=
  (if Qle_bool 0 x then Qfloor x else Qceiling x) mod 2 ^ 32.

End ImageUtils.

(** ** services/geminiService.ts *)

Module GeminiService.

(** The values [JSON.parse] can return, and [undefined]. *)
#[local] Unset Elimination Schemes.
Inductive JsValue : Type :=
| undefined
| null
| JBoolean (b : bool)
| JNumber (x : float)
| JString (s : string)
| JArray (items : list JsValue)
| JObject (fields : list (string * JsValue)).
#[local] Set Elimination Schemes.

(** ToBoolean. *)
Definition ToBoolean (v : JsValue) : bool :=
  match v with
  | undefined | null => false
  | JBoolean b => b
  | JNumber x => negb (PrimFloat.eqb x 0%float || PrimFloat.is_nan x)
  | JString s => negb (String.eqb s "")
  | JArray _ | JObject _ => true
  end.

Fixpoint lookup (key : string) (fields : list (string * JsValue)) : JsValue :=
  match fields with
  | [] => undefined
  | (k, v) :: rest => if String.eqb k key then v else lookup key rest
  end.

(** [v.key]: reading a property of [null] or [undefined] throws; a
    primitive or an array has no such own property. *)
Definition getProperty (v : JsValue) (key : string) : completion JsValue :=
  match v with
  | undefined | null => Throw TypeError
  | JObject fields => Normal (lookup key fields)
  | _ => Normal undefined
  end.

(** [s.split(',')[1]]: the text between the first comma and the second,
    [undefined] when [s] has no comma. *)
Fixpoint until_comma (s : string) : string :=
  match s with
  | EmptyString => EmptyString
  | String c rest =>
      if Ascii.eqb c ","%char then EmptyString
      else String c (until_comma rest)
  end.

Fixpoint split_comma_1 (s : string) : option string :=
  match s with
  | EmptyString => None
  | String c rest =>
      if Ascii.eqb c ","%char then Some (until_comma rest)
      else split_comma_1 rest
  end.

(** [s.replace(/pat/g, '')] for a literal, non-empty [pat]: occurrences are
    removed from left to right; [skip] counts the characters of the
    occurrence being removed that are still to be dropped. *)
Fixpoint removeAll_from (pat : string) (skip : nat) (s : string) : string :=
  match s with
  | EmptyString => EmptyString
  | String c rest =>
      match skip with
      | S k => removeAll_from pat k rest
      | O =>
          if prefix pat s
          then removeAll_from pat (String.length pat - 1) rest
          else String c (removeAll_from pat 0 rest)
      end
  end.

Definition removeAll (pat s : string) : string := removeAll_from pat 0 s.

(** White space removed by [trim], among the code units below 256. *)
Definition isWhiteSpace (c : ascii) : bool :=
  let n := nat_of_ascii c in
  ((9 <=? n) && (n <=? 13) || (n =? 32) || (n =? 160))%nat.

Fixpoint trimStart (s : string) : string :=
  match s with
  | EmptyString => EmptyString
  | String c rest => if isWhiteSpace c then trimStart rest else s
  end.

Fixpoint trimEnd (s : string) : string :=
  match s with
  | EmptyString => EmptyString
  | String c rest =>
      match trimEnd rest with
      | EmptyString => if isWhiteSpace c then EmptyString else String c EmptyString
      | rest' => String c rest'
      end
  end.

Definition trim (s : string) : string := trimEnd (trimStart s).

(** Three backquotes, and three backquotes followed by [json]. *)
Definition fence : string := "```".
Definition fence_json : string := "```json".

Definition cleanJsonText (text : string) : string :=
  (* Remove Markdown code blocks if present *)
  let cleaned := trim (removeAll fence (removeAll fence_json text)) in
  cleaned.

(** The request sent to [ai.models.generateContent]; the prompt text, a
    constant of each function, is left out. *)
Record Request : Type := {
  model : string;
  mimeType : string;
  data : option string;
  required : list string
}.

Inductive Call : Type :=
| readAsDataURL (file : File.t)
| generateContent (request : Request)
| console_error (label : string) (error : exn).

(** What the browser and the AI service answer. *)
Record Service : Type := {
  (** the [result] of the [FileReader], or its [error] event *)
  readAsDataURL_result : File.t -> completion string;
  (** the [text] of the response, possibly [undefined], or a rejection *)
  generateContent_result : Request -> completion (option string);
  JSON_parse : string -> completion JsValue
}.

Local Open Scope eff_scope.

Definition fileToGenerativePart (svc : Service) (file : File.t)
  : @Effect.M unit Call (option string) :=
  Effect.call (readAsDataURL file) ;;
  base64String <- Effect.await (readAsDataURL_result svc file) ;;
  let base64Data := split_comma_1 base64String in
  Effect.ret base64Data.

(** [response.text || '{}'] *)
Definition text_or_default (response_text : option string) : string :=
  if truthy response_text
  then match response_text with Some t => t | None => "{}" end
  else "{}".

Definition identifyDoll_try (svc : Service) (file : File.t)
  : @Effect.M unit Call JsValue :=
  base64Data <- fileToGenerativePart svc file ;;
  let request :=
    {| model := "gemini-3-flash-preview";
       mimeType := File.type file;
       data := base64Data;
       required := ["name"; "description"; "size"] |} in
  Effect.call (generateContent request) ;;
  response_text <- Effect.await (generateContent_result svc request) ;;
  let text := text_or_default response_text in
  Effect.await (JSON_parse svc (cleanJsonText text)).

(** [{ name: '', description: '', size: 'Normal' }] *)
Definition identifyDoll_fallback : JsValue :=
  JObject [("name", JString ""); ("description", JString "");
           ("size", JString "Normal")].

Definition identifyDoll (svc : Service) (file : File.t)
  : @Effect.M unit Call JsValue :=
  Effect.try_catch
    (identifyDoll_try svc file)
    (fun error =>
       Effect.call (console_error "Gemini Error:" error) ;;
       (* Return a fallback object so the UI doesn't crash *)
       Effect.ret identifyDoll_fallback).

Definition suggestCategory_try (svc : Service) (file : File.t)
  : @Effect.M unit Call JsValue :=
  base64Data <- fileToGenerativePart svc file ;;
  let request :=
    {| model := "gemini-3-flash-preview";
       mimeType := File.type file;
       data := base64Data;
       required := ["category"] |} in
  Effect.call (generateContent request) ;;
  response_text <- Effect.await (generateContent_result svc request) ;;
  let text := text_or_default response_text in
  data <- Effect.await (JSON_parse svc (cleanJsonText text)) ;;
  category <- Effect.await (getProperty data "category") ;;
  Effect.ret (if ToBoolean category then category else JString "Misc").

Definition suggestCategory (svc : Service) (file : File.t)
  : @Effect.M unit Call JsValue :=
  Effect.try_catch
    (suggestCategory_try svc file)
    (fun error =>
       Effect.call (console_error "Gemini Error:" error) ;;
       Effect.ret (JString "Unknown")).

Local Close Scope eff_scope.

End GeminiService.

(** ** A reference host

    A host that lower-cases the ASCII letters, collates strings by code
    unit, and reads the UTC timestamps [YYYY-MM-DDTHH:MM:SSZ] and
    [YYYY-MM-DDTHH:MM:SS.mmmZ].  It serves to run the definitions above on
    concrete data. *)

Module SimpleHost.

Definition lower_ascii (c : ascii) : ascii :=
  let n := nat_of_ascii c in
  if ((65 <=? n) && (n <=? 90))%nat then ascii_of_nat (n + 32) else c.

Fixpoint lower (s : string) : string :=
  match s with
  | EmptyString => EmptyString
  | String c rest => String (lower_ascii c) (lower rest)
  end.

Definition compare_code_units (a b : string) : Z :=
  match String.compare a b with
  | Lt => -1
  | Eq => 0
  | Gt => 1
  end.

Definition digit (c : ascii) : option Z :=
  let n := nat_of_ascii c in
  if ((48 <=? n) && (n <=? 57))%nat then Some (Z.of_nat n - 48) else None.

(** Reads exactly [k] decimal digits. *)
Fixpoint digits (k : nat) (acc : Z) (s : string) : option (Z * string) :=
  match k with
  | O => Some (acc, s)
  | S k' =>
      match s with
      | EmptyString => None
      | String c rest =>
          match digit c with
          | Some d => digits k' (10 * acc + d) rest
          | None => None
          end
      end
  end.

Definition expect (c : ascii) (s : string) : option string :=
  match s with
  | String c' rest => if Ascii.eqb c c' then Some rest else None
  | EmptyString => None
  end.

(** Days from 1970-01-01 to the given day of the proleptic Gregorian
    calendar. *)
Definition days_from_civil (y m d : Z) : Z :=
  let y' := if m <=? 2 then y - 1 else y in
  let era := y' / 400 in
  let yoe := y' - era * 400 in
  let mp := (m + 9) mod 12 in
  let doy := (153 * mp + 2) / 5 + d - 1 in
  let doe := yoe * 365 + yoe / 4 - yoe / 100 + doy in
  era * 146097 + doe - 719468.

Definition opt_bind {A B} (o : option A) (k : A -> option B) : option B :=
  match o with
  | Some a => k a
  | None => None
  end.

Definition guard (b : bool) : option unit := if b then Some tt else None.

Definition parse_timestamp (s : string) : option Z :=
  opt_bind (digits 4 0 s) (fun '(y, s) =>
  opt_bind (expect "-" s) (fun s =>
  opt_bind (digits 2 0 s) (fun '(m, s) =>
  opt_bind (expect "-" s) (fun s =>
  opt_bind (digits 2 0 s) (fun '(d, s) =>
  opt_bind (expect "T" s) (fun s =>
  opt_bind (digits 2 0 s) (fun '(hh, s) =>
  opt_bind (expect ":" s) (fun s =>
  opt_bind (digits 2 0 s) (fun '(mm, s) =>
  opt_bind (expect ":" s) (fun s =>
  opt_bind (digits 2 0 s) (fun '(ss, s) =>
  opt_bind
    (match expect "." s with
     | Some s' => digits 3 0 s'
     | None => Some (0, s)
     end) (fun '(ms, s) =>
  opt_bind (guard (String.eqb s "Z")) (fun _ =>
  opt_bind (guard ((1 <=? m) && (m <=? 12) && (1 <=? d) && (d <=? 31)
                   && (hh <? 24) && (mm <? 60) && (ss <? 60))) (fun _ =>
  Some ((((days_from_civil y m d * 24 + hh) * 60 + mm) * 60 + ss) * 1000
        + ms))))))))))))))).

Definition host : Host := {|
  toLowerCase := lower;
  localeCompare := compare_code_units;
  Date_getTime := parse_timestamp
|}.

End SimpleHost.

(** ** The view engine in the words of the specification *)

Module ViewSpec.
Section WithHost.
Context {H : Host}.

(** The search callback as a boolean function. *)
Definition searchMatches (searchQuery : string) (d : Doll.t) : bool :=
  includes (toLowerCase (Doll.name d)) (toLowerCase searchQuery)
  || (truthy (Doll.description d)
      && match Doll.description d with
         | Some s => includes (toLowerCase s) (toLowerCase searchQuery)
         | None => false
         end).

(** The date callback as a boolean function: the catch date is present
    and starts with the value. *)
Definition dateMatches (dateFilterValue : string) (d : Doll.t) : bool :=
  match Doll.catch_date d with
  | Some s => prefix dateFilterValue s
  | None => false
  end.

(** The creation timestamp of an item, when [created_at] parses. *)
Definition createdTime (d : Doll.t) : option Z :=
  Date_getTime (Doll.created_at d).

Definition hasCreatedTime (d : Doll.t) : Prop := createdTime d <> None.

Definition sortsByDate (sortOption : SortOption) : bool :=
  match sortOption with
  | DATE_DESC | DATE_ASC => true
  | NAME_ASC | NAME_DESC => false
  end.

(** [inSortOrder o a b]: [a] may come before [b] in a list ordered by
    [o]: more recent first, older first, name ascending, name
    descending. *)
Definition inSortOrder (sortOption : SortOption) (a b : Doll.t) : Prop :=
  match sortOption with
  | DATE_DESC =>
      exists ta tb,
        createdTime a = Some ta /\ createdTime b = Some tb /\ tb <= ta
  | DATE_ASC =>
      exists ta tb,
        createdTime a = Some ta /\ createdTime b = Some tb /\ ta <= tb
  | NAME_ASC => localeCompare (Doll.name a) (Doll.name b) <= 0
  | NAME_DESC => localeCompare (Doll.name b) (Doll.name a) <= 0
  end.

(** Adjacent items are in the order of the comparator of [sortOption]. *)
Definition sortedUnder (sortOption : SortOption) (l : list Doll.t) : Prop :=
  Sorted (fun a b => SortCompare (HomeView.compareFn sortOption) a b <= 0) l.

Definition option_Z_eqb (a b : option Z) : bool :=
  match a, b with
  | Some x, Some y => x =? y
  | None, None => true
  | _, _ => false
  end.

(** [y] has the same sort key as [x]: the same creation time value, or a
    name that collates equal. *)
Definition sameSortKey (sortOption : SortOption) (x y : Doll.t) : bool :=
  match sortOption with
  | DATE_DESC | DATE_ASC => option_Z_eqb (createdTime x) (createdTime y)
  | NAME_ASC | NAME_DESC =>
      localeCompare (Doll.name x) (Doll.name y) =? 0
  end.

End WithHost.
End ViewSpec.

(** ** Sample data *)

Module Sample.

Definition doll (id name : string) (description catch_date : option string)
    (created_at : string) : Doll.t :=
  {| Doll.id := id; Doll.name := name; Doll.description := description;
     Doll.size := "Normal"; Doll.category_id := None;
     Doll.topic_id := "topic-1"; Doll.catch_date := catch_date;
     Doll.image_url := "https://example.org/doll.jpg";
     Doll.created_at := created_at |}.

Definition bella : Doll.t :=
  doll "1" "Bella" None (Some "2024-05-03") "2024-05-01T00:00:00Z".

Definition apollo : Doll.t :=
  doll "2" "Apollo" (Some "A sun bear") (Some "2024-06-01")
       "2024-05-02T00:00:00Z".

Definition undated : Doll.t :=
  doll "3" "Coco" (Some "") None "2024-05-02T00:00:00.000Z".

Definition clock (now : Z) : nat -> Z := fun _ => now.

Definition photo : File.t :=
  {| File.name := "photo.png"; File.type := "image/png";
     File.content := "" |}.

Definition form (size : list string) (imageFile : option File.t)
  : NewDollForm.t :=
  {| NewDollForm.name := "Bella"; NewDollForm.description := "";
     NewDollForm.size := size; NewDollForm.category_id := "";
     NewDollForm.catch_date := "2024-05-03";
     NewDollForm.imageFile := imageFile |}.

Definition state (f : NewDollForm.t) : HomeView.State :=
  {| HomeView.loading := false; HomeView.isAddModalOpen := true;
     HomeView.formData := f |}.

(** Collaborators that all succeed. *)
Definition collaborators : HomeView.Collaborators :=
  {| HomeView.compressImage_result := fun f =>
       Normal {| File.name := "photo.jpg"; File.type := "image/jpeg";
                 File.content := File.content f |};
     HomeView.Date_now := 1714521600000;
     HomeView.upload_result := fun _ _ => Normal None;
     HomeView.publicUrl_of := fun n => ("https://example.org/" ++ n)%string;
     HomeView.insert_result := fun _ => Normal None;
     HomeView.today := "2024-05-01" |}.

Definition request (required : list string) : GeminiService.Request :=
  {| GeminiService.model := "gemini-3-flash-preview";
     GeminiService.mimeType := "image/png";
     GeminiService.data := Some "AAAA";
     GeminiService.required := required |}.

(** An AI service whose every call fails. *)
Definition service_down : GeminiService.Service :=
  {| GeminiService.readAsDataURL_result := fun _ => Normal "data:image/png;base64,AAAA";
     GeminiService.generateContent_result := fun _ => Throw (Rejected "503");
     GeminiService.JSON_parse := fun _ => Throw SyntaxError |}.

(** An AI service that answers, with a [null] document. *)
Definition service_null : GeminiService.Service :=
  {| GeminiService.readAsDataURL_result := fun _ => Normal "data:image/png;base64,AAAA";
     GeminiService.generateContent_result := fun _ => Normal (Some "null");
     GeminiService.JSON_parse := fun _ => Normal GeminiService.null |}.

End Sample.

(** ** The view as one predicate per item *)

Module ViewRules.
Section WithHost.
Context {H : Host}.

(** The values of [activeFilter] that do not name a category. *)
Definition isReserved (activeFilter : string) : bool :=
  String.eqb activeFilter "NEW" || String.eqb activeFilter "DATE_FILTER"
  || String.eqb activeFilter "ALL".

(** An item passes the search: there is no query, or the query matches. *)
Definition passesSearch (searchQuery : string) (d : Doll.t) : bool :=
  String.eqb searchQuery "" || ViewSpec.searchMatches searchQuery d.

(** An item passes the active filter when the clock reads [now]. *)
Definition passesFilter (activeFilter dateFilterValue : string) (now : Z)
    (d : Doll.t) : bool :=
  if String.eqb activeFilter "NEW" then DollCard.isNew now d
  else if String.eqb activeFilter "DATE_FILTER" then
    String.eqb dateFilterValue "" || ViewSpec.dateMatches dateFilterValue d
  else if String.eqb activeFilter "ALL" then true
  else HomeView.categoryPredicate activeFilter d.

Definition shown (searchQuery activeFilter dateFilterValue : string)
    (now : Z) (d : Doll.t) : bool :=
  passesSearch searchQuery d
  && passesFilter activeFilter dateFilterValue now d.

(** The option that sorts by the same key in the other direction. *)
Definition reverseOption (sortOption : SortOption) : SortOption :=
  match sortOption with
  | DATE_DESC => DATE_ASC
  | DATE_ASC => DATE_DESC
  | NAME_ASC => NAME_DESC
  | NAME_DESC => NAME_ASC
  end.

(** No two items of the list compare equal under [sortOption]. *)
Definition distinctKeys (sortOption : SortOption) (l : list Doll.t) : Prop :=
  ForallOrdPairs
    (fun a b => SortCompare (HomeView.compareFn sortOption) a b <> 0) l.

End WithHost.
End ViewRules.

(** ** Text made of white space only *)

Module Text.

Fixpoint allWhiteSpace (s : string) : bool :=
  match s with
  | EmptyString => true
  | String c rest => GeminiService.isWhiteSpace c && allWhiteSpace rest
  end.

(** The backquote character. *)
Definition backquote : ascii := "`"%char.

Fixpoint noBackquote (s : string) : bool :=
  match s with
  | EmptyString => true
  | String c rest => negb (Ascii.eqb c backquote) && noBackquote rest
  end.

End Text.

(** ** Text without commas *)

Module TextComma.

Fixpoint noComma (s : string) : bool :=
  match s with
  | EmptyString => true
  | String c rest => negb (Ascii.eqb c ","%char) && noComma rest
  end.

(** A size tag as the form produces it: not empty, no comma, no white
    space at its ends. *)
Definition isTag (s : string) : Prop :=
  s <> "" /\ noComma s = true /\ GeminiService.trim s = s.

End TextComma.

(** ** views/HomeView.tsx: the size check boxes and the size string *)

Module EditDollData.
(** [Partial<Doll> & { sizeArray?: string[] }]: every field may be
    absent. *)
Record t : Type := {
  id : option string;
  name : option string;
  description : option (option string);
  size : option string;
  category_id : option (option string);
  topic_id : option string;
  catch_date : option (option string);
  image_url : option string;
  created_at : option string;
  sizeArray : option (list string)
}.
End EditDollData.

Module HomeViewSizes.

(** [array.includes(x)] on an array of strings. *)
Definition Array_includes (array : list string) (x : string) : bool :=
  existsb (String.eqb x) array.

Definition with_size (prev : NewDollForm.t) (size : list string)
  : NewDollForm.t :=
  {| NewDollForm.name := NewDollForm.name prev;
     NewDollForm.description := NewDollForm.description prev;
     NewDollForm.size := size;
     NewDollForm.category_id := NewDollForm.category_id prev;
     NewDollForm.catch_date := NewDollForm.catch_date prev;
     NewDollForm.imageFile := NewDollForm.imageFile prev |}.

(** The updater that [handleSizeChange(size)] passes to [setFormData]. *)
Definition handleSizeChange (size : string) (prev : NewDollForm.t)
  : NewDollForm.t :=
  let current := NewDollForm.size prev in
  if Array_includes current size
  then with_size prev (filter (fun s => negb (String.eqb s size)) current)
  else with_size prev (current ++ [size]).

Definition with_sizeArray (prev : EditDollData.t) (sizeArray : list string)
  : EditDollData.t :=
  {| EditDollData.id := EditDollData.id prev;
     EditDollData.name := EditDollData.name prev;
     EditDollData.description := EditDollData.description prev;
     EditDollData.size := EditDollData.size prev;
     EditDollData.category_id := EditDollData.category_id prev;
     EditDollData.topic_id := EditDollData.topic_id prev;
     EditDollData.catch_date := EditDollData.catch_date prev;
     EditDollData.image_url := EditDollData.image_url prev;
     EditDollData.created_at := EditDollData.created_at prev;
     EditDollData.sizeArray := Some sizeArray |}.

(** The updater that [handleEditSizeChange(size)] passes to
    [setEditDollData]; [prev.sizeArray || []]. *)
Definition handleEditSizeChange (size : string) (prev : EditDollData.t)
  : EditDollData.t :=
  let current :=
    match EditDollData.sizeArray prev with
    | Some a => a
    | None => []
    end in
  if Array_includes current size
  then with_sizeArray prev
         (filter (fun s => negb (String.eqb s size)) current)
  else with_sizeArray prev (current ++ [size]).

(** The array computed by either toggle. *)
Definition toggled (s : string) (current : list string) : list string :=
  if Array_includes current s
  then filter (fun y => negb (String.eqb y s)) current
  else (current ++ [s])%list.

(** [s.split(',')] *)
Fixpoint split_comma (s : string) : list string :=
  match s with
  | EmptyString => [EmptyString]
  | String c rest =>
      if Ascii.eqb c ","%char then EmptyString :: split_comma rest
      else
        match split_comma rest with
        | first :: others => String c first :: others
        | [] => [String c EmptyString]
        end
  end.

(** [doll.size ? doll.size.split(',').map(s => s.trim()) : []], the
    [sizeArray] that [openDetailModal] puts into [editDollData]. *)
Definition sizeArray_of (size : string) : list string :=
  if truthy (Some size)
  then map GeminiService.trim (split_comma size)
  else [].

(** [openDetailModal(doll)]: the new values of [selectedDoll],
    [editDollData] and [isEditingDoll]. *)
Definition openDetailModal (doll : Doll.t)
  : option Doll.t * EditDollData.t * bool :=
  (Some doll,
   {| EditDollData.id := Some (Doll.id doll);
      EditDollData.name := Some (Doll.name doll);
      EditDollData.description := Some (Doll.description doll);
      EditDollData.size := Some (Doll.size doll);
      EditDollData.category_id := Some (Doll.category_id doll);
      EditDollData.topic_id := Some (Doll.topic_id doll);
      EditDollData.catch_date := Some (Doll.catch_date doll);
      EditDollData.image_url := Some (Doll.image_url doll);
      EditDollData.created_at := Some (Doll.created_at doll);
      EditDollData.sizeArray := Some (sizeArray_of (Doll.size doll)) |},
   false).

(** [editDollData.sizeArray?.join(', ') || ''], the [sizeString] of
    [handleUpdateDoll]. *)
Definition sizeString (editDollData : EditDollData.t) : string :=
  match EditDollData.sizeArray editDollData with
  | Some a => String.concat ", " a
  | None => ""
  end.

(** [value.includes(x)] on a value of any type: substring test on a
    string, membership test on an array; any other truthy value parsed from
    JSON has no callable [includes]. *)
Definition call_includes (value : GeminiService.JsValue) (x : string)
  : completion bool :=
  match value with
  | GeminiService.JString s => Normal (includes s x)
  | GeminiService.JArray items =>
      Normal (existsb (fun item =>
                         match item with
                         | GeminiService.JString s => String.eqb s x
                         | _ => false
                         end) items)
  | _ => Throw TypeError
  end.

(** The [newSizes] block of [handleAiAutofill]: from the sizes of the form
    and the answer [aiData] of [identifyDoll] to the sizes written back. *)
Definition newSizes (formData_size : list string)
    (aiData : GeminiService.JsValue) : completion (list string) :=
  let newSizes := formData_size in
  bind (GeminiService.getProperty aiData "size") (fun aiData_size =>
  if GeminiService.ToBoolean aiData_size then
    let newSizes := [] in
    bind (call_includes aiData_size "Normal") (fun hasNormal =>
    let newSizes := if hasNormal then (newSizes ++ ["Normal"])%list
                    else newSizes in
    bind (call_includes aiData_size "Small") (fun hasSmall =>
    let newSizes := if hasSmall then (newSizes ++ ["Small"])%list
                    else newSizes in
    let newSizes := if (List.length newSizes =? 0)%nat
                    then (newSizes ++ ["Normal"])%list else newSizes in
    Normal newSizes))
  else Normal newSizes).

End HomeViewSizes.

(** ** components/DollCard.tsx: the size bar *)

Module DollCardSizes.

(** [doll.size && doll.size.includes('Normal')], as the condition of the
    class of the Normal bar. *)
Definition hasNormal (doll : Doll.t) : bool :=
  truthy (Some (Doll.size doll)) && includes (Doll.size doll) "Normal".

Definition hasSmall (doll : Doll.t) : bool :=
  truthy (Some (Doll.size doll)) && includes (Doll.size doll) "Small".

(** The two sizes offered by the check boxes. *)
Definition isSizeName (s : string) : Prop := s = "Normal" \/ s = "Small".

End DollCardSizes.

(** ** views/HomeView.tsx: [handleDeleteDoll] *)

Module HomeViewDelete.

Record State : Type := {
  dolls : list Doll.t;
  selectedDoll : option Doll.t
}.

Definition setDolls (f : list Doll.t -> list Doll.t) (s : State) : State :=
  {| dolls := f (dolls s); selectedDoll := selectedDoll s |}.

Definition setSelectedDoll (d : option Doll.t) (s : State) : State :=
  {| dolls := dolls s; selectedDoll := d |}.

Inductive Call : Type :=
| stopPropagation
| dolls_delete (id : string)
| console_error (err : exn)
| alert (message : string).

(** [selectedDoll?.id === dollId] *)
Definition isSelected (selected : option Doll.t) (dollId : string) : bool :=
  match selected with
  | Some d => String.eqb (Doll.id d) dollId
  | None => false
  end.

Local Open Scope eff_scope.

(** [delete_result id] is what
    [supabase.from('dolls').delete().eq('id', id)] resolves to: an object
    whose [error] is [null] on success. *)
Definition handleDeleteDoll (delete_result : string -> completion (option exn))
    (dollId : string) : @Effect.M State Call unit :=
  Effect.call stopPropagation ;;
  Effect.try_catch
    (Effect.call (dolls_delete dollId) ;;
     error <- Effect.await (delete_result dollId) ;;
     match error with
     | Some err => Effect.throw err
     | None =>
         st <- Effect.get ;;
         Effect.modify
           (setDolls (filter (fun d => negb (String.eqb (Doll.id d) dollId)))) ;;
         if isSelected (selectedDoll st) dollId
         then Effect.modify (setSelectedDoll None)
         else Effect.ret tt
     end)
    (fun err =>
       Effect.call (console_error err) ;;
       Effect.call (alert "Could not delete item.")).

Local Close Scope eff_scope.

End HomeViewDelete.

(** ** services/utils.ts: the file produced by [compressImage] *)

Module ImageFile.

(** The characters a file extension may consist of: all but [/] and [.]. *)
Definition isExtensionChar (c : ascii) : bool :=
  negb (Ascii.eqb c "/"%char) && negb (Ascii.eqb c "."%char).

Fixpoint allExtensionChars (s : string) : bool :=
  match s with
  | EmptyString => true
  | String c rest => isExtensionChar c && allExtensionChars rest
  end.

(** [rest] matches [[^/.]+$]. *)
Definition isExtension (rest : string) : bool :=
  negb (String.eqb rest "") && allExtensionChars rest.

(** [name.replace(/\.[^/.]+$/, "")]: the first dot that is followed, up to
    the end of the name, by one or more characters other than [/] and [.]
    is removed together with what follows it. *)
Fixpoint stripExtension (name : string) : string :=
  match name with
  | EmptyString => EmptyString
  | String c rest =>
      if Ascii.eqb c "."%char && isExtension rest then EmptyString
      else String c (stripExtension rest)
  end.

(** What [img.onload] draws: the size given to the canvas, in whole
    pixels, and the size at which [drawImage] draws the image on it. *)
Record Drawing : Type := {
  canvas_width : Z;
  canvas_height : Z;
  drawn_width : Q;
  drawn_height : Q
}.

(** What the browser answers inside [img.onload]. *)
Record Canvas : Type := {
  (** [canvas.getContext('2d')] is not [null] *)
  hasContext : bool;
  (** the blob passed to the callback of [canvas.toBlob] for the given
      drawing, [null] being [None] *)
  toBlob : Drawing -> option string
}.

(** The part of [img.onload] from [// Max dimension logic] to
    [ctx.drawImage]: the natural size [img.width], [img.height] (values of
    type [unsigned long]) goes through the dimension logic in binary64;
    the two results are assigned to [canvas.width] and [canvas.height],
    which keep whole pixels, and passed to [drawImage] as they are. *)
Definition drawing (img_width img_height : Z) : Drawing :=
  let '(width, height) :=
    ImageUtils.maxDimension (N := Q)
      (ImageUtils.of_Z img_width) (ImageUtils.of_Z img_height) in
  {| canvas_width := ImageUtils.ToUint32 width;
     canvas_height := ImageUtils.ToUint32 height;
     drawn_width := width;
     drawn_height := height |}.

(** The body of [img.onload] for an image of the given natural size: the
    promise is rejected, or resolved with the compressed file (its
    [lastModified] stamp is left out). *)
Definition onload (canvas : Canvas) (file : File.t) (img_width img_height : Z)
  : completion File.t :=
  if negb (hasContext canvas)
  then Throw (Rejected "Canvas context not available")
  else
    match toBlob canvas (drawing img_width img_height) with
    | None => Throw (Rejected "Compression failed")
    | Some blob =>
        Normal {| File.name := (stripExtension (File.name file) ++ ".jpg")%string;
                  File.type := "image/jpeg";
                  File.content := blob |}
    end.

End ImageFile.

Module ImageSample.

(** A canvas whose blob is a label of the size it was given. *)
Definition canvas : ImageFile.Canvas :=
  {| ImageFile.hasContext := true;
     ImageFile.toBlob := fun d =>
       Some (HomeView.Number_toString (ImageFile.canvas_width d) ++ "x"
             ++ HomeView.Number_toString (ImageFile.canvas_height d))%string |}.

(** Natural sizes on both sides of the cap and of the diagonal. *)
Definition sizes : list (Z * Z) :=
  ([(2000, 1000); (800, 600); (2140, 1070); (2140, 2140); (2128, 2128);
    (1080, 1080); (1081, 1081); (1, 4000); (4000, 1); (0, 0);
    (4294967295, 4294967295); (4294967295, 1); (3, 4294967295);
    (65535, 40000); (100000, 3); (1081, 1080); (1080, 1081)]
   ++ list_prod (map (fun i => 700 + 97 * Z.of_nat i) (seq 0 40))
                (map (fun j => 650 + 101 * Z.of_nat j) (seq 0 40)))%list.

End ImageSample.

(** ** The serverless proxy to the Perplexity API (default export
       [handler]) *)

Module PerplexityProxy.

Record Request : Type := {
  method : string;
  body : GeminiService.JsValue
}.

(** The answer of the upstream API: its status, and what
    [response.json()] settles to. *)
Record Upstream : Type := {
  status : Z;
  json : completion GeminiService.JsValue
}.

Inductive ResponseBody : Type :=
| ErrorBody (error : string)
| Data (data : GeminiService.JsValue).

Inductive Call : Type :=
| fetch (url authorization : string) (body : GeminiService.JsValue)
| respond (status : Z) (body : ResponseBody).

Record Env : Type := {
  (** [process.env.PERPLEXITY_API_KEY], possibly [undefined] *)
  PERPLEXITY_API_KEY : option string;
  (** what [fetch] settles to, given the authorization header and the
      body *)
  fetch_result : string -> GeminiService.JsValue -> completion Upstream;
  (** [err.message] *)
  message : exn -> string
}.

Definition url : string := "https://api.perplexity.ai/v1/chat/completions".

Local Open Scope eff_scope.

Definition handler (env : Env) (req : Request) : @Effect.M unit Call unit :=
  if negb (String.eqb (method req) "POST") then
    Effect.call (respond 405 (ErrorBody "Method not allowed"))
  else
    let apiKey := PERPLEXITY_API_KEY env in
    if negb (truthy apiKey) then
      Effect.call (respond 500 (ErrorBody "Missing Perplexity API key"))
    else
      let authorization :=
        ("Bearer " ++ match apiKey with Some k => k | None => "" end)%string in
      Effect.try_catch
        (Effect.call (fetch url authorization (body req)) ;;
         response <- Effect.await (fetch_result env authorization (body req)) ;;
         data <- Effect.await (json response) ;;
         Effect.call (respond (status response) (Data data)))
        (fun err => Effect.call (respond 500 (ErrorBody (message env err)))).

Local Close Scope eff_scope.


End PerplexityProxy.

(** ** components/DollCard.tsx: the two-step delete control *)

Module DollCardDelete.

(** [isDeleting], and the number of timeouts set and not yet fired. *)
Record State : Type := {
  isDeleting : bool;
  pendingTimeouts : nat
}.

Definition initial : State := {| isDeleting := false; pendingTimeouts := 0 |}.

Inductive Call : Type :=
| stopPropagation
| onDelete_call (dollId : string)
| setTimeout (delay : Z).

(** [handleDeleteClick]; [onDelete] tells whether the optional prop is
    given. *)
Definition handleDeleteClick (onDelete : bool) (dollId : string) (s : State)
  : State * list Call :=
  if isDeleting s then
    (s, stopPropagation :: (if onDelete then [onDelete_call dollId] else []))
  else
    ({| isDeleting := true; pendingTimeouts := S (pendingTimeouts s) |},
     [stopPropagation; setTimeout 3000]).

(** The callback of the timeout: [() => setIsDeleting(false)]. *)
Definition timeoutFires (s : State) : State :=
  {| isDeleting := false; pendingTimeouts := Nat.pred (pendingTimeouts s) |}.

Inductive Event : Type := Click | TimeoutFires.

(** A timeout can fire only when one is pending. *)
Definition enabled (ev : Event) (s : State) : bool :=
  match ev with
  | Click => true
  | TimeoutFires => (0 <? pendingTimeouts s)%nat
  end.

Definition step (onDelete : bool) (dollId : string) (ev : Event) (s : State)
  : State * list Call :=
  match ev with
  | Click => handleDeleteClick onDelete dollId s
  | TimeoutFires => (timeoutFires s, [])
  end.

(** The events that can happen from [s], in order, with the state reached
    and the calls made; [None] when an event is not enabled. *)
Fixpoint run (onDelete : bool) (dollId : string) (events : list Event)
    (s : State) : option (State * list Call) :=
  match events with
  | [] => Some (s, [])
  | ev :: rest =>
      if enabled ev s then
        let '(s1, calls1) := step onDelete dollId ev s in
        match run onDelete dollId rest s1 with
        | Some (s2, calls2) => Some (s2, (calls1 ++ calls2)%list)
        | None => None
        end
      else None
  end.

Definition isDeleteCall (c : Call) : bool :=
  match c with
  | onDelete_call _ => true
  | _ => false
  end.

(** The card is armed exactly while one timeout is pending. *)
Definition armedWithOneTimeout (s : State) : Prop :=
  pendingTimeouts s = (if isDeleting s then 1 else 0)%nat.

(** The number of clicks that directly follow another click. *)
Fixpoint clicksAfterClick (previous : option Event) (events : list Event)
  : nat :=
  match events with
  | [] => 0
  | ev :: rest =>
      match previous, ev with
      | Some Click, Click => S (clicksAfterClick (Some ev) rest)
      | _, _ => clicksAfterClick (Some ev) rest
      end
  end.

End DollCardDelete.

(** ** views/CategoryView.tsx *)

Module Category.
Record t : Type := {
  id : string;
  name : string;
  topic_id : string;
  image_url : option string;
  created_at : string
}.
End Category.

Module CategoryView.

(** An entry of [categories]: a category and the number of its dolls. *)
Record Entry : Type := {
  category : Category.t;
  count : Z
}.

(** A [Record<string, boolean>]: the own properties, the latest
    assignment first.  A key without own property is looked up in
    [Object.prototype]. *)
Definition Flags : Type := list (string * bool).

Fixpoint own (flags : Flags) (key : string) : option bool :=
  match flags with
  | [] => None
  | (k, v) :: rest => if String.eqb k key then Some v else own rest key
  end.

(** [flags[key]] as a condition; [inherited key] tells whether [key] names
    a property of [Object.prototype], whose value is truthy. *)
Definition isSet (inherited : string -> bool) (flags : Flags) (key : string)
  : bool :=
  match own flags key with
  | Some v => v
  | None => inherited key
  end.

(** [{ ...prev, [key]: value }] *)
Definition assign (prev : Flags) (key : string) (value : bool) : Flags :=
  (key, value) :: prev.

Record State : Type := {
  categories : list Entry;
  deletingStates : Flags;
  newCategoryName : GeminiService.JsValue;
  imageFile : option File.t;
  isAiLoading : bool;
  isCreating : bool
}.

Definition setCategories (f : list Entry -> list Entry) (s : State) : State :=
  {| categories := f (categories s); deletingStates := deletingStates s;
     newCategoryName := newCategoryName s; imageFile := imageFile s;
     isAiLoading := isAiLoading s; isCreating := isCreating s |}.

Definition setDeletingStates (f : Flags -> Flags) (s : State) : State :=
  {| categories := categories s; deletingStates := f (deletingStates s);
     newCategoryName := newCategoryName s; imageFile := imageFile s;
     isAiLoading := isAiLoading s; isCreating := isCreating s |}.

Definition setNewCategoryName (v : GeminiService.JsValue) (s : State)
  : State :=
  {| categories := categories s; deletingStates := deletingStates s;
     newCategoryName := v; imageFile := imageFile s;
     isAiLoading := isAiLoading s; isCreating := isCreating s |}.

Definition setImageFile (f : option File.t) (s : State) : State :=
  {| categories := categories s; deletingStates := deletingStates s;
     newCategoryName := newCategoryName s; imageFile := f;
     isAiLoading := isAiLoading s; isCreating := isCreating s |}.

Definition setIsAiLoading (b : bool) (s : State) : State :=
  {| categories := categories s; deletingStates := deletingStates s;
     newCategoryName := newCategoryName s; imageFile := imageFile s;
     isAiLoading := b; isCreating := isCreating s |}.

Definition setIsCreating (b : bool) (s : State) : State :=
  {| categories := categories s; deletingStates := deletingStates s;
     newCategoryName := newCategoryName s; imageFile := imageFile s;
     isAiLoading := isAiLoading s; isCreating := b |}.

(** The row passed to [supabase.from('categories').insert]. *)
Record CategoryRow : Type := {
  row_name : GeminiService.JsValue;
  row_topic_id : string;
  row_image_url : string
}.

Inductive Call : Type :=
| stopPropagation
| alert (message : string)
| console_error (err : exn)
| setTimeout (delay : Z) (catId : string)
| categories_delete (catId : string)
| compressImage (file : File.t)
| storage_upload (bucket fileName : string) (file : File.t)
| storage_getPublicUrl (bucket fileName : string)
| categories_insert (row : CategoryRow)
| fetchCategories
| gemini (call : GeminiService.Call).

Definition isCollaboratorCall (c : Call) : bool :=
  match c with
  | categories_delete _ | compressImage _ | storage_upload _ _ _
  | storage_getPublicUrl _ _ | categories_insert _ | fetchCategories => true
  | _ => false
  end.

Record Collaborators : Type := {
  delete_result : string -> completion (option exn);
  (** what the promise of [compressImage] settles to; [None] when it never
      settles, as for a file that cannot be decoded as an image:
      [compressImage] sets no [img.onerror] *)
  compressImage_result : File.t -> option (completion File.t);
  Date_now : Z;
  upload_result : string -> File.t -> completion (option exn);
  publicUrl_of : string -> string;
  insert_result : CategoryRow -> completion (option exn)
}.

Local Open Scope eff_scope.

(** [handleDeleteCategory(e, catId)] *)
Definition handleDeleteCategory (collab : Collaborators)
    (inherited : string -> bool) (catId : string)
  : @Effect.M State Call unit :=
  Effect.call stopPropagation ;;
  st <- Effect.get ;;
  if isSet inherited (deletingStates st) catId then
    (* Confirmed delete *)
    Effect.try_catch
      (Effect.call (categories_delete catId) ;;
       error <- Effect.await (delete_result collab catId) ;;
       match error with
       | Some err => Effect.throw err
       | None =>
           Effect.modify
             (setCategories
                (filter (fun c =>
                           negb (String.eqb (Category.id (category c)) catId))))
       end)
      (fun err =>
         Effect.call (console_error err) ;;
         Effect.call (alert "Failed to delete category."))
  else
    (* Arm delete *)
    Effect.modify (setDeletingStates (fun prev => assign prev catId true)) ;;
    Effect.call (setTimeout 3000 catId).

(** The callback of the timeout set when [catId] was armed. *)
Definition disarm (catId : string) (s : State) : State :=
  setDeletingStates (fun prev => assign prev catId false) s.

(** [value.trim()] on a value of any type: only a string has the
    method. *)
Definition call_trim (value : GeminiService.JsValue) : completion string :=
  match value with
  | GeminiService.JString s => Normal (GeminiService.trim s)
  | _ => Throw TypeError
  end.

Local Close Scope eff_scope.
Local Open Scope async_scope.

(** [createCategory] *)
Definition createCategory (collab : Collaborators) (currentTopic_id : string)
  : @Async.M State Call unit :=
  st <- Async.get ;;
  trimmed <- Async.await (call_trim (newCategoryName st)) ;;
  match imageFile st with
  | None => Async.call (alert "Please add an image for the category.")
  | Some image =>
      if negb (truthy (Some trimmed)) then Async.ret tt
      else
        Async.modify (setIsCreating true) ;;
        Async.try_catch_finally
          ((* Compress *)
           Async.call (compressImage image) ;;
           compressed <-
             Async.await_promise (compressImage_result collab image) ;;
           (* Upload Image *)
           let fileExt := HomeView.split_pop (File.name compressed) in
           let fileName :=
             ("cat_" ++ HomeView.Number_toString (Date_now collab) ++ "."
              ++ fileExt)%string in
           Async.call (storage_upload "images" fileName compressed) ;;
           uploadError <-
             Async.await (upload_result collab fileName compressed) ;;
           match uploadError with
           | Some err => Async.throw err
           | None =>
               Async.call (storage_getPublicUrl "images" fileName) ;;
               let publicUrl := publicUrl_of collab fileName in
               let row := {| row_name := newCategoryName st;
                             row_topic_id := currentTopic_id;
                             row_image_url := publicUrl |} in
               Async.call (categories_insert row) ;;
               error <- Async.await (insert_result collab row) ;;
               match error with
               | Some err => Async.throw err
               | None =>
                   Async.modify
                     (setNewCategoryName (GeminiService.JString "")) ;;
                   Async.modify (setImageFile None) ;;
                   Async.call fetchCategories
               end
           end)
          (fun e =>
             Async.call (console_error e) ;;
             Async.call (alert "Error creating category"))
          (Async.modify (setIsCreating false))
  end.

Local Close Scope async_scope.
Local Open Scope eff_scope.

(** Runs a computation of the AI service inside a handler of the view. *)
Definition liftGemini {A} (m : @Effect.M unit GeminiService.Call A)
  : @Effect.M State Call A :=
  fun s =>
    let '(r, _, t) := m tt in (r, s, map gemini t).

(** [handleAiScan(file)] *)
Definition handleAiScan (svc : GeminiService.Service) (file : File.t)
  : @Effect.M State Call unit :=
  Effect.modify (setIsAiLoading true) ;;
  Effect.try_catch_finally
    (suggestion <- liftGemini (GeminiService.suggestCategory svc file) ;;
     Effect.modify (setNewCategoryName suggestion))
    (fun e => Effect.call (alert "Could not scan."))
    (Effect.modify (setIsAiLoading false)).

Local Close Scope eff_scope.

End CategoryView.

(** ** [types.ts]: [Topic], [ViewState] *)

Module Topic.
Record t : Type := {
  id : string;
  name : string;
  created_at : string
}.
End Topic.

Module ViewState.
Inductive t : Type := HOME | CATEGORY | PROFILE.

(** [a === b] on values of the enumeration *)
Definition eqb (a b : t) : bool :=
  match a, b with
  | HOME, HOME | CATEGORY, CATEGORY | PROFILE, PROFILE => true
  | _, _ => false
  end.
End ViewState.

(** ** [BottomNav.tsx] *)

Module BottomNav.

Record Item : Type := {
  id : ViewState.t;
  icon : string;
  label : string
}.

Definition navItems : list Item :=
  [ {| id := ViewState.HOME; icon := "home"; label := "Home" |};
    {| id := ViewState.CATEGORY; icon := "category"; label := "Category" |};
    {| id := ViewState.PROFILE; icon := "person"; label := "Profile" |} ].

(** [const isActive = currentView === item.id] *)
Definition isActive (currentView : ViewState.t) (item : Item) : bool :=
  ViewState.eqb currentView (id item).

(** [onClick={() => setView(item.id)}]: the new [currentView] *)
Definition onClick (item : Item) : ViewState.t := id item.

End BottomNav.

(** ** [App.tsx] *)

Module App.

(** What a query of the database settles to: [{ data, error }]. *)
Record QueryResult (A : Type) : Type := {
  data : option A;
  error : option exn
}.
Arguments data {A} _.
Arguments error {A} _.

Record State : Type := {
  currentView : ViewState.t;
  currentTopic : option Topic.t;
  initLoading : bool;
  homeInitialCategoryId : option string
}.

Definition setCurrentView (v : ViewState.t) (s : State) : State :=
  {| currentView := v; currentTopic := currentTopic s;
     initLoading := initLoading s;
     homeInitialCategoryId := homeInitialCategoryId s |}.

Definition setCurrentTopic (t : option Topic.t) (s : State) : State :=
  {| currentView := currentView s; currentTopic := t;
     initLoading := initLoading s;
     homeInitialCategoryId := homeInitialCategoryId s |}.

Definition setInitLoading (b : bool) (s : State) : State :=
  {| currentView := currentView s; currentTopic := currentTopic s;
     initLoading := b;
     homeInitialCategoryId := homeInitialCategoryId s |}.

Definition setHomeInitialCategoryId (c : option string) (s : State) : State :=
  {| currentView := currentView s; currentTopic := currentTopic s;
     initLoading := initLoading s;
     homeInitialCategoryId := c |}.

Inductive Call : Type :=
| topics_select
| topics_insert (name : string)
| console_error (label : string) (err : exn).

Record Backend : Type := {
  (** [from('topics').select('*').order(...).limit(1)] *)
  select_result : completion (QueryResult (list Topic.t));
  (** [from('topics').insert([{ name }]).select().single()] *)
  insert_result : string -> completion (QueryResult Topic.t)
}.

Local Open Scope eff_scope.

(** [initTopic], run once when the application starts. *)
Definition initTopic (backend : Backend) : @Effect.M State Call unit :=
  Effect.try_catch_finally
    ((* 1. Check if we have topics *)
     Effect.call topics_select ;;
     selected <- Effect.await (select_result backend) ;;
     match error selected with
     | Some err => Effect.throw err
     | None =>
         match data selected with
         | Some (first :: _) => Effect.modify (setCurrentTopic (Some first))
         | _ =>
             (* 2. If no topics, create default "My Collection" *)
             Effect.call (topics_insert "My Collection") ;;
             created <- Effect.await (insert_result backend "My Collection") ;;
             match error created with
             | Some createError => Effect.throw createError
             | None => Effect.modify (setCurrentTopic (data created))
             end
         end
     end)
    (fun err => Effect.call (console_error "Failed to initialize topic" err))
    (Effect.modify (setInitLoading false)).

Local Close Scope eff_scope.

Definition handleSwitchTopic (topic : Topic.t) (s : State) : State :=
  setCurrentView ViewState.HOME (setCurrentTopic (Some topic) s).

Definition handleSelectCategory (categoryId : string) (s : State) : State :=
  setCurrentView ViewState.HOME
    (setHomeInitialCategoryId (Some categoryId) s).

Definition handleUpdateTopic (updatedTopic : Topic.t) (s : State) : State :=
  setCurrentTopic (Some updatedTopic) s.

(** What [renderView] puts on the screen. *)
Inductive Screen : Type :=
| Spinner
| ErrorLoadingCollection
| HomeScreen (currentTopic : Topic.t) (initialCategoryId : option string)
| CategoryScreen (currentTopic : Topic.t)
| ProfileScreen (currentTopic : Topic.t).

Definition renderView (s : State) : Screen :=
  if initLoading s then Spinner
  else
    match currentTopic s with
    | None => ErrorLoadingCollection
    | Some topic =>
        match currentView s with
        | ViewState.HOME => HomeScreen topic (homeInitialCategoryId s)
        | ViewState.CATEGORY => CategoryScreen topic
        | ViewState.PROFILE => ProfileScreen topic
        end
    end.

(** The effect of [HomeView] that handles the redirect from the category
    tab, with [onClearInitialCategory] as [App] passes it:
    [if (initialCategoryId) { setActiveFilter(initialCategoryId);
    onClearInitialCategory(); }].  It acts on the state of [App] and on
    the [activeFilter] of [HomeView]. *)
Definition redirectEffect (s : State) (activeFilter : string)
  : State * string :=
  match homeInitialCategoryId s with
  | Some initialCategoryId =>
      if truthy (Some initialCategoryId)
      then (setHomeInitialCategoryId None s, initialCategoryId)
      else (s, activeFilter)
  | None => (s, activeFilter)
  end.

End App.

(** *** Editing a category *)

Module CategoryViewEdit.

Record State : Type := {
  categories : list CategoryView.Entry;
  editingCategory : option Category.t;
  editName : string;
  editImageFile : option File.t;
  isSavingEdit : bool
}.

Definition setCategories
    (f : list CategoryView.Entry -> list CategoryView.Entry) (s : State)
  : State :=
  {| categories := f (categories s); editingCategory := editingCategory s;
     editName := editName s; editImageFile := editImageFile s;
     isSavingEdit := isSavingEdit s |}.

Definition setEditingCategory (c : option Category.t) (s : State) : State :=
  {| categories := categories s; editingCategory := c;
     editName := editName s; editImageFile := editImageFile s;
     isSavingEdit := isSavingEdit s |}.

Definition setEditName (n : string) (s : State) : State :=
  {| categories := categories s; editingCategory := editingCategory s;
     editName := n; editImageFile := editImageFile s;
     isSavingEdit := isSavingEdit s |}.

Definition setEditImageFile (f : option File.t) (s : State) : State :=
  {| categories := categories s; editingCategory := editingCategory s;
     editName := editName s; editImageFile := f;
     isSavingEdit := isSavingEdit s |}.


Inductive Call : Type :=
| stopPropagation
| alert (message : string)
| console_error (err : exn)
| compressImage (file : File.t)
| storage_upload (bucket fileName : string) (file : File.t)
| storage_getPublicUrl (bucket fileName : string)
| categories_update (id name : string) (image_url : option string).

Record Collaborators : Type := {
  (** what the promise of [compressImage] settles to; [None] when it never
      settles, as for a file that cannot be decoded as an image *)
  compressImage_result : File.t -> option (completion File.t);
  Date_now : Z;
  upload_result : string -> File.t -> completion (option exn);
  publicUrl_of : string -> string;
  update_result : string -> string -> option string -> completion (option exn)
}.

Local Open Scope eff_scope.

(** [startEdit(e, category)] *)
Definition startEdit (category : Category.t) : @Effect.M State Call unit :=
  Effect.call stopPropagation ;;
  Effect.modify (setEditingCategory (Some category)) ;;
  Effect.modify (setEditName (Category.name category)) ;;
  Effect.modify (setEditImageFile None).


Local Close Scope eff_scope.
Local Open Scope async_scope.


Local Close Scope async_scope.

End CategoryViewEdit.

(** *** [fetchData] *)

Module HomeViewFetch.

Record State : Type := {
  dolls : list Doll.t;
  categories : list Category.t;
  loading : bool
}.

Definition setDolls (l : list Doll.t) (s : State) : State :=
  {| dolls := l; categories := categories s; loading := loading s |}.

Definition setCategories (l : list Category.t) (s : State) : State :=
  {| dolls := dolls s; categories := l; loading := loading s |}.

Definition setLoading (b : bool) (s : State) : State :=
  {| dolls := dolls s; categories := categories s; loading := b |}.

Inductive Call : Type :=
| dolls_select (topic_id : string)
| categories_select (topic_id : string)
| console_error (label : string) (err : exn).

Record Backend : Type := {
  dolls_result : string -> completion (App.QueryResult (list Doll.t));
  categories_result :
    string -> completion (App.QueryResult (list Category.t))
}.

(** [data || []] *)
Definition data_or_empty {A} (data : option (list A)) : list A :=
  match data with
  | Some l => l
  | None => []
  end.

Local Open Scope eff_scope.

Definition fetchData (backend : Backend) (currentTopic : option Topic.t)
  : @Effect.M State Call unit :=
  match currentTopic with
  | None => Effect.ret tt
  | Some topic =>
      Effect.modify (setLoading true) ;;
      Effect.try_catch_finally
        (Effect.call (dolls_select (Topic.id topic)) ;;
         dollsAnswer <-
           Effect.await (dolls_result backend (Topic.id topic)) ;;
         Effect.call (categories_select (Topic.id topic)) ;;
         catAnswer <-
           Effect.await (categories_result backend (Topic.id topic)) ;;
         match App.error dollsAnswer with
         | Some dollsError => Effect.throw dollsError
         | None =>
             match App.error catAnswer with
             | Some catError => Effect.throw catError
             | None =>
                 Effect.modify
                   (setDolls (data_or_empty (App.data dollsAnswer))) ;;
                 Effect.modify
                   (setCategories (data_or_empty (App.data catAnswer)))
             end
         end)
        (fun err => Effect.call (console_error "Error fetching data:" err))
        (Effect.modify (setLoading false))
  end.

Local Close Scope eff_scope.

End HomeViewFetch.

(** *** [handleAiAutofill] *)

Module HomeViewAutofill.

(** [formData] as it is at run time: [identifyDoll] returns what
    [JSON.parse] produced, so the name and the description written back by
    the autofill can be values of any type. *)
Record Form : Type := {
  name : GeminiService.JsValue;
  description : GeminiService.JsValue;
  size : list string;
  category_id : string;
  catch_date : string;
  imageFile : option File.t
}.

Record State : Type := {
  formData : Form;
  isAiLoading : bool
}.

Definition setFormData (f : Form -> Form) (s : State) : State :=
  {| formData := f (formData s); isAiLoading := isAiLoading s |}.

Definition setIsAiLoading (b : bool) (s : State) : State :=
  {| formData := formData s; isAiLoading := b |}.

Inductive Call : Type :=
| alert (message : string)
| console_error (err : exn)
| gemini (call : GeminiService.Call).

(** [a || b] *)
Definition or_else (a b : GeminiService.JsValue) : GeminiService.JsValue :=
  if GeminiService.ToBoolean a then a else b.

(** Runs a computation of the AI service inside the handler. *)
Definition liftGemini {A} (m : @Effect.M unit GeminiService.Call A)
  : @Effect.M State Call A :=
  fun s =>
    let '(r, _, t) := m tt in (r, s, map gemini t).

Local Open Scope eff_scope.

(** [handleAiAutofill].  [formData] is the form as the handler closed over
    it; [whileWaiting] stands for the edits made to the form while the
    answer of the service is awaited, which the updater passed to
    [setFormData] sees as [prev].  The updater reads [aiData.name] and
    [aiData.description] after [aiData.size] has been read, so on a value
    that is neither [null] nor [undefined]. *)
Definition handleAiAutofill (svc : GeminiService.Service)
    (whileWaiting : Form -> Form) : @Effect.M State Call unit :=
  st <- Effect.get ;;
  let formData := formData st in
  match imageFile formData with
  | None => Effect.call (alert "Please upload an image first.")
  | Some file =>
      Effect.modify (setIsAiLoading true) ;;
      Effect.try_catch_finally
        (aiData <- liftGemini (GeminiService.identifyDoll svc file) ;;
         Effect.modify (setFormData whileWaiting) ;;
         newSizes <-
           Effect.await (HomeViewSizes.newSizes (size formData) aiData) ;;
         aiName <- Effect.await (GeminiService.getProperty aiData "name") ;;
         aiDescription <-
           Effect.await (GeminiService.getProperty aiData "description") ;;
         Effect.modify
           (setFormData (fun prev =>
              {| name := or_else aiName (name prev);
                 description := or_else aiDescription (description prev);
                 size := newSizes;
                 category_id := category_id prev;
                 catch_date := catch_date prev;
                 imageFile := imageFile prev |})))
        (fun e =>
           Effect.call (console_error e) ;;
           Effect.call (alert "AI Analysis failed. Please try again."))
        (Effect.modify (setIsAiLoading false))
  end.

Local Close Scope eff_scope.

End HomeViewAutofill.

(** ** [views/ProfileView.tsx] *)

Module ProfileView.

(** The state of the view, and the state of [App] that its prop
    [onSwitchTopic] acts on. *)
Record State : Type := {
  app : App.State;
  topics : list Topic.t;
  deletingTopicId : option string
}.

Definition setApp (f : App.State -> App.State) (s : State) : State :=
  {| app := f (app s); topics := topics s;
     deletingTopicId := deletingTopicId s |}.

Definition setTopics (l : list Topic.t) (s : State) : State :=
  {| app := app s; topics := l; deletingTopicId := deletingTopicId s |}.

Definition setDeletingTopicId (i : option string) (s : State) : State :=
  {| app := app s; topics := topics s; deletingTopicId := i |}.

Inductive Call : Type :=
| topics_delete (topicId : string)
| onSwitchTopic (topic : Topic.t)
| window_location_reload
| console_error (err : exn)
| alert (message : string).

Local Open Scope eff_scope.

(** [handleDeleteTopic(topicId)]; [currentTopic] is the prop, [topics] the
    list the handler closed over; [delete_result] is what the request
    settles to. *)
Definition handleDeleteTopic (delete_result : string -> completion (option exn))
    (currentTopic : Topic.t) (topicId : string)
  : @Effect.M State Call unit :=
  st <- Effect.get ;;
  let topics := topics st in
  Effect.try_catch
    (Effect.call (topics_delete topicId) ;;
     error <- Effect.await (delete_result topicId) ;;
     match error with
     | Some err => Effect.throw err
     | None =>
         let remainingTopics :=
           filter (fun t => negb (String.eqb (Topic.id t) topicId)) topics in
         Effect.modify (setTopics remainingTopics) ;;
         Effect.modify (setDeletingTopicId None) ;;
         if String.eqb (Topic.id currentTopic) topicId
            && (0 <? Z.of_nat (List.length remainingTopics))
         then
           match remainingTopics with
           | first :: _ =>
               Effect.call (onSwitchTopic first) ;;
               Effect.modify (setApp (App.handleSwitchTopic first))
           | [] => Effect.ret tt
           end
         else if Z.of_nat (List.length remainingTopics) =? 0
         then Effect.call window_location_reload
         else Effect.ret tt
     end)
    (fun e =>
       Effect.call (console_error e) ;;
       Effect.call (alert "Failed to delete.")).

Local Close Scope eff_scope.

End ProfileView.

(** ** The AI service over the Perplexity API *)

Module PerplexityService.

Import GeminiService.

(** The two prompts, constants of [identifyDoll] and [suggestCategory]. *)
Inductive Prompt : Type := AnalyzeDoll | AnalyzeCategory.

Inductive ContentItem : Type :=
| text_item (text : Prompt)
| image_item (data mime_type : string).

Record Message : Type := {
  role : string;
  content : list ContentItem
}.

(** The payload of the request; an output schema is represented by its
    list of required properties, all of them strings. *)
Record Payload : Type := {
  model : string;
  messages : list Message;
  stream : bool;
  tools : option (list string)
}.

(** The [Response] of [fetch]: [res.ok], and what [res.json()] settles
    to. *)
Record Response : Type := {
  ok : bool;
  json : completion JsValue
}.

Inductive Call : Type :=
| readAsDataURL (file : File.t)
| fetch (url authorization : string) (payload : Payload)
| res_json
| console_error (label : string) (error : exn).

Definition isFetch (c : Call) : bool :=
  match c with
  | fetch _ _ _ => true
  | _ => false
  end.

Record Service : Type := {
  (** [process.env.PERPLEXITY_API_KEY || ''] *)
  PERPLEXITY_API_KEY : string;
  readAsDataURL_result : File.t -> completion string;
  fetch_result : Payload -> completion Response;
  JSON_parse : string -> completion JsValue
}.

Definition PERPLEXITY_API_URL : string :=
  "https://api.perplexity.ai/v1/chat/completions".

(** [v?.[0]] *)
Definition optional_index0 (v : JsValue) : JsValue :=
  match v with
  | JArray items => hd undefined items
  | JString (String c _) => JString (String c EmptyString)
  | JObject fields => lookup "0" fields
  | _ => undefined
  end.

(** [v?.key], for a key that only an object can hold. *)
Definition optional_property (v : JsValue) (key : string) : JsValue :=
  match v with
  | JObject fields => lookup key fields
  | _ => undefined
  end.

(** [cleanJsonText(text)] on a value of any type: only a string has the
    method [replace]. *)
Definition call_cleanJsonText (text : JsValue) : completion string :=
  match text with
  | JString s => Normal (cleanJsonText s)
  | _ => Throw TypeError
  end.

Local Open Scope eff_scope.

Definition fileToBase64 (svc : Service) (file : File.t)
  : @Effect.M unit Call (option string) :=
  Effect.call (readAsDataURL file) ;;
  base64String <- Effect.await (readAsDataURL_result svc file) ;;
  let base64Data := split_comma_1 base64String in
  Effect.ret base64Data.

(** [payload.messages[0].content.push(item)]: there must be a first
    message. *)
Definition push_content (payload : Payload) (item : ContentItem)
  : completion Payload :=
  match messages payload with
  | first :: rest =>
      Normal
        {| model := model payload;
           messages :=
             {| role := role first;
                content := (content first ++ [item])%list |} :: rest;
           stream := stream payload;
           tools := tools payload |}
  | [] => Throw TypeError
  end.

(** [payload.tools = [{ type: 'output_schema', schema }]] *)
Definition set_tools (payload : Payload) (schema : list string) : Payload :=
  {| model := model payload; messages := messages payload;
     stream := stream payload; tools := Some schema |}.

Definition callPerplexity (svc : Service) (messages : list Message)
    (imageBase64 mimeType : option string) (outputSchema : option (list string))
  : @Effect.M unit Call JsValue :=
  let payload :=
    {| model := "sonar-pro"; messages := messages; stream := false;
       tools := None |} in
  payload <-
    match imageBase64, mimeType with
    | Some data, Some mime_type =>
        if truthy imageBase64 && truthy mimeType
        then Effect.await (push_content payload (image_item data mime_type))
        else Effect.ret payload
    | _, _ => Effect.ret payload
    end ;;
  let payload :=
    match outputSchema with
    | Some schema => set_tools payload schema
    | None => payload
    end in
  Effect.call
    (fetch PERPLEXITY_API_URL ("Bearer " ++ PERPLEXITY_API_KEY svc)%string
       payload) ;;
  res <- Effect.await (fetch_result svc payload) ;;
  if negb (ok res) then Effect.throw (Rejected "Perplexity API error")
  else
    Effect.call res_json ;;
    data <- Effect.await (json res) ;;
    choices <- Effect.await (getProperty data "choices") ;;
    let answer :=
      optional_property
        (optional_property (optional_index0 choices) "message") "content" in
    Effect.ret (if ToBoolean answer then answer else JString "{}").

Definition identifyDoll_try (svc : Service) (file : File.t)
  : @Effect.M unit Call JsValue :=
  base64Data <- fileToBase64 svc file ;;
  let messages :=
    [ {| role := "user"; content := [text_item AnalyzeDoll] |} ] in
  let outputSchema := ["name"; "description"; "size"] in
  text <-
    callPerplexity svc messages base64Data (Some (File.type file))
      (Some outputSchema) ;;
  cleaned <- Effect.await (call_cleanJsonText text) ;;
  Effect.await (JSON_parse svc cleaned).

Definition identifyDoll (svc : Service) (file : File.t)
  : @Effect.M unit Call JsValue :=
  Effect.try_catch
    (identifyDoll_try svc file)
    (fun error =>
       Effect.call (console_error "Perplexity Error:" error) ;;
       Effect.ret identifyDoll_fallback).

Definition suggestCategory_try (svc : Service) (file : File.t)
  : @Effect.M unit Call JsValue :=
  base64Data <- fileToBase64 svc file ;;
  let messages :=
    [ {| role := "user"; content := [text_item AnalyzeCategory] |} ] in
  let outputSchema := ["category"] in
  text <-
    callPerplexity svc messages base64Data (Some (File.type file))
      (Some outputSchema) ;;
  cleaned <- Effect.await (call_cleanJsonText text) ;;
  data <- Effect.await (JSON_parse svc cleaned) ;;
  category <- Effect.await (getProperty data "category") ;;
  Effect.ret (if ToBoolean category then category else JString "Misc").

Definition suggestCategory (svc : Service) (file : File.t)
  : @Effect.M unit Call JsValue :=
  Effect.try_catch
    (suggestCategory_try svc file)
    (fun error =>
       Effect.call (console_error "Perplexity Error:" error) ;;
       Effect.ret (JString "Unknown")).

Local Close Scope eff_scope.

End PerplexityService.

(** * Supporting lemmas *)

Import ViewSpec.

(** ** Array helpers *)

Section ArrayFacts.
Context {A : Type}.

(** A callback that never throws makes [Array_filter] the list filter. *)
Lemma Array_filter_pure (callback : A -> completion bool) (f : A -> bool)
    (l : list A) :
  (forall x, callback x = Normal (f x)) ->
  Array_filter callback l = Normal (filter f l).
Proof.
  intros Hpure. induction l as [| x l IH]; simpl.
  - reflexivity.
  - rewrite Hpure, IH. simpl. reflexivity.
Qed.

Lemma filter_length_le (f : A -> bool) (l : list A) :
  (List.length (filter f l) <= List.length l)%nat.
Proof.
  induction l as [| x l IH]; simpl; [lia |].
  destruct (f x); simpl; lia.
Qed.

End ArrayFacts.

(** ** The "new" classification *)

Section NewClassification.
Context {H : Host}.

(** The day count is at most 30 exactly when the difference is at most
    thirty days of milliseconds. *)
Lemma ceil_days_le_30 (diffTime : Z) :
  (Qceiling (inject_Z diffTime / inject_Z (1000 * 60 * 60 * 24)) <=? 30) = true
  <-> diffTime <= 30 * 86400 * 1000.
Proof.
  rewrite Z.leb_le.
  assert (Hq : (inject_Z diffTime / inject_Z (1000 * 60 * 60 * 24) <= inject_Z 30)%Q
               <-> diffTime <= 30 * 86400 * 1000).
  { unfold Qdiv, Qle, Qmult, Qinv, inject_Z. simpl. lia. }
  split; intro Hle.
  - apply Hq. eapply Qle_trans; [apply Qle_ceiling |].
    rewrite <- Zle_Qle. exact Hle.
  - apply Hq in Hle. apply Qceiling_resp_le in Hle.
    rewrite Qceiling_Z in Hle. exact Hle.
Qed.

Lemma isNew_iff (now : Z) (d : Doll.t) :
  DollCard.isNew now d = true <->
  exists created,
    Date_getTime (Doll.created_at d) = Some created /\
    Z.abs (now - created) <= 30 * 86400 * 1000.
Proof.
  unfold DollCard.isNew.
  destruct (Date_getTime (Doll.created_at d)) as [created |].
  - cbv zeta. rewrite ceil_days_le_30. split.
    + intro Hle. exists created. split; [reflexivity | exact Hle].
    + intros (c & Hc & Hle). injection Hc as ->. exact Hle.
  - split; [discriminate |]. intros (c & Hc & _). discriminate.
Qed.

Lemma newPredicate_isNew (now : Z) (d : Doll.t) :
  HomeView.newPredicate now d = DollCard.isNew now d.
Proof. reflexivity. Qed.

End NewClassification.

(** ** Search and filter stages *)

Section SearchAndFilter.
Context {H : Host}.

Lemma searchPredicate_total (searchQuery : string) (d : Doll.t) :
  HomeView.searchPredicate searchQuery d
  = Normal (searchMatches searchQuery d).
Proof.
  unfold HomeView.searchPredicate, searchMatches.
  destruct (includes (toLowerCase (Doll.name d)) (toLowerCase searchQuery));
    [reflexivity |].
  destruct (Doll.description d) as [s |]; simpl; [| reflexivity].
  destruct (negb (String.eqb s "")); reflexivity.
Qed.

Lemma truthy_Some (s : string) : truthy (Some s) = negb (String.eqb s "").
Proof. reflexivity. Qed.

Lemma prefix_empty_r (p : string) : p <> "" -> prefix p "" = false.
Proof. destruct p; [congruence | reflexivity]. Qed.

Lemma datePredicate_total (dateFilterValue : string) (d : Doll.t) :
  dateFilterValue <> "" ->
  HomeView.datePredicate dateFilterValue d
  = Normal (dateMatches dateFilterValue d).
Proof.
  intro Hset. unfold HomeView.datePredicate, dateMatches.
  destruct (Doll.catch_date d) as [s |]; [| reflexivity].
  rewrite truthy_Some. unfold HomeView.call_startsWith, startsWith.
  destruct (String.eqb_spec s "") as [-> | Hne].
  - rewrite prefix_empty_r by exact Hset. reflexivity.
  - reflexivity.
Qed.

Lemma filterNew_incl (clock : nat -> Z) (k : nat) (l : list Doll.t) :
  incl (HomeView.filterNew clock k l) l
  /\ (List.length (HomeView.filterNew clock k l) <= List.length l)%nat.
Proof.
  revert k. induction l as [| d l IH]; intro k; simpl.
  - split; [apply incl_refl | lia].
  - destruct (IH (S k)) as [Hincl Hlen].
    destruct (HomeView.newPredicate (clock k) d); simpl.
    + split; [| lia]. apply incl_cons; [left; reflexivity |].
      apply incl_tl. exact Hincl.
    + split; [| lia]. apply incl_tl. exact Hincl.
Qed.

Lemma searchStage_total (searchQuery : string) (l : list Doll.t) :
  HomeView.searchStage searchQuery l
  = Normal (if String.eqb searchQuery "" then l
            else filter (searchMatches searchQuery) l).
Proof.
  unfold HomeView.searchStage. rewrite truthy_Some.
  destruct (String.eqb searchQuery ""); simpl; [reflexivity |].
  apply Array_filter_pure. apply searchPredicate_total.
Qed.

Lemma filterStage_total (activeFilter dateFilterValue : string)
    (clock : nat -> Z) (l : list Doll.t) :
  exists r,
    HomeView.filterStage activeFilter dateFilterValue clock l = Normal r
    /\ incl r l /\ (List.length r <= List.length l)%nat.
Proof.
  unfold HomeView.filterStage.
  destruct (String.eqb activeFilter "NEW").
  { eexists. split; [reflexivity |]. apply filterNew_incl. }
  destruct (String.eqb activeFilter "DATE_FILTER").
  { rewrite truthy_Some.
    destruct (String.eqb_spec dateFilterValue "") as [-> | Hset]; simpl.
    - exists l. split; [reflexivity |]. split; [apply incl_refl | lia].
    - eexists. split.
      + apply Array_filter_pure. intro d.
        apply datePredicate_total. exact Hset.
      + split; [apply incl_filter | apply filter_length_le]. }
  destruct (negb (String.eqb activeFilter "ALL")).
  - eexists. split; [reflexivity |].
    split; [apply incl_filter | apply filter_length_le].
  - exists l. split; [reflexivity |]. split; [apply incl_refl | lia].
Qed.

End SearchAndFilter.

(** ** [Array.prototype.sort] *)

Section SortFacts.
Context {A : Type} (comparefn : A -> A -> option Z).

Let le (x y : A) : Prop := SortCompare comparefn x y <= 0.

Lemma insert_perm (x : A) (l : list A) :
  Permutation (insert comparefn x l) (x :: l).
Proof.
  induction l as [| y l IH]; simpl.
  - apply Permutation_refl.
  - destruct (SortCompare comparefn x y <=? 0).
    + apply Permutation_refl.
    + eapply perm_trans; [apply perm_skip, IH | apply perm_swap].
Qed.

Lemma sort_perm (l : list A) : Permutation (sort comparefn l) l.
Proof.
  induction l as [| x l IH]; simpl.
  - apply perm_nil.
  - eapply perm_trans; [apply insert_perm | apply perm_skip, IH].
Qed.

Lemma sort_In (l : list A) (x : A) : In x (sort comparefn l) <-> In x l.
Proof.
  split; apply Permutation_in;
    [apply sort_perm | apply Permutation_sym, sort_perm].
Qed.

(** A list whose adjacent elements are in order is left as it is. *)
Lemma sort_of_sorted (l : list A) : Sorted le l -> sort comparefn l = l.
Proof.
  induction 1 as [| x l Hsorted IH Hhd]; simpl.
  - reflexivity.
  - rewrite IH. destruct Hhd as [| y l' Hxy]; simpl.
    + reflexivity.
    + unfold le in Hxy. apply Z.leb_le in Hxy. rewrite Hxy. reflexivity.
Qed.

Lemma insert_sorted (x : A) (l : list A) :
  (forall y, In y l ->
     0 < SortCompare comparefn x y -> SortCompare comparefn y x <= 0) ->
  Sorted le l -> Sorted le (insert comparefn x l).
Proof.
  intros Htotal Hsorted.
  induction Hsorted as [| y l Hsorted IH Hhd]; simpl.
  - repeat constructor.
  - destruct (Z.leb_spec (SortCompare comparefn x y) 0) as [Hle | Hgt].
    + constructor; [constructor; assumption |]. constructor. exact Hle.
    + assert (Hyx : le y x) by (apply Htotal; [left; reflexivity | exact Hgt]).
      constructor.
      * apply IH. intros z Hz. apply Htotal. right. exact Hz.
      * destruct Hhd as [| z l' Hyz]; simpl.
        -- constructor. exact Hyx.
        -- destruct (SortCompare comparefn x z <=? 0);
             constructor; assumption.
Qed.

(** The result is ordered as soon as the comparator never answers
    "greater" both ways on the elements of the list. *)
Lemma sort_sorted (l : list A) :
  (forall x y, In x l -> In y l ->
     0 < SortCompare comparefn x y -> SortCompare comparefn y x <= 0) ->
  Sorted le (sort comparefn l).
Proof.
  induction l as [| x l IH]; intro Htotal; simpl.
  - constructor.
  - apply insert_sorted.
    + intros y Hy. apply Htotal; [left; reflexivity |].
      right. apply sort_In. exact Hy.
    + apply IH. intros a b Ha Hb. apply Htotal; right; assumption.
Qed.

(** Stability: a class of elements that pairwise compare "not greater"
    keeps its subsequence. *)
Lemma insert_filter (f : A -> bool) (x : A) (l : list A) :
  (forall y, In y l -> f x = true -> f y = true ->
     SortCompare comparefn x y <= 0) ->
  filter f (insert comparefn x l) = filter f (x :: l).
Proof.
  induction l as [| y l IH]; intro Hclass; simpl.
  - reflexivity.
  - destruct (Z.leb_spec (SortCompare comparefn x y) 0) as [Hle | Hgt].
    + reflexivity.
    + simpl. rewrite IH by (intros z Hz; apply Hclass; right; exact Hz).
      simpl. destruct (f x) eqn:Hfx, (f y) eqn:Hfy; try reflexivity.
      exfalso. specialize (Hclass y (or_introl eq_refl) eq_refl Hfy). lia.
Qed.

Lemma sort_filter (f : A -> bool) (l : list A) :
  (forall x y, In x l -> In y l -> f x = true -> f y = true ->
     SortCompare comparefn x y <= 0) ->
  filter f (sort comparefn l) = filter f l.
Proof.
  induction l as [| x l IH]; intro Hclass; simpl.
  - reflexivity.
  - rewrite insert_filter.
    + simpl. rewrite IH; [reflexivity |].
      intros a b Ha Hb. apply Hclass; right; assumption.
    + intros y Hy. apply Hclass; [left; reflexivity |].
      right. apply sort_In. exact Hy.
Qed.

End SortFacts.

(** From adjacent order to order between all pairs, for a relation that
    is transitive on the elements of the list. *)
Lemma Sorted_StronglySorted_on {A : Type} (P : A -> Prop) (R : A -> A -> Prop)
    (l : list A) :
  (forall x y z, P x -> P y -> P z -> R x y -> R y z -> R x z) ->
  Forall P l -> Sorted R l -> StronglySorted R l.
Proof.
  intros Htrans HP Hsorted.
  induction Hsorted as [| x l Hsorted IH Hhd].
  - constructor.
  - inversion HP as [| ? ? HPx HPl]; subst.
    specialize (IH HPl). constructor; [exact IH |].
    destruct Hhd as [| y l' Hxy]; [constructor |].
    inversion IH as [| ? ? _ Hall]; subst.
    inversion HPl as [| ? ? HPy HPl']; subst.
    constructor; [exact Hxy |].
    rewrite Forall_forall in *. intros z Hz.
    apply (Htrans x y z); auto.
Qed.

Lemma StronglySorted_weaken_on {A : Type} (P : A -> Prop)
    (R R' : A -> A -> Prop) (l : list A) :
  (forall x y, P x -> P y -> R x y -> R' x y) ->
  Forall P l -> StronglySorted R l -> StronglySorted R' l.
Proof.
  intros Himpl HP Hsorted.
  induction Hsorted as [| x l Hsorted IH Hall].
  - constructor.
  - inversion HP as [| ? ? HPx HPl]; subst.
    constructor; [apply IH; exact HPl |].
    rewrite Forall_forall in *. intros y Hy. apply Himpl; auto.
Qed.

(** ** The reference host collates consistently *)

Lemma compare_code_units_cases (a b : string) :
  (SimpleHost.compare_code_units a b = -1 /\ String_as_OT.lt a b)
  \/ (SimpleHost.compare_code_units a b = 0 /\ a = b)
  \/ (SimpleHost.compare_code_units a b = 1 /\ String_as_OT.lt b a).
Proof.
  unfold SimpleHost.compare_code_units.
  destruct (String.compare a b) eqn:Hcmp.
  - right. left. split; [reflexivity |].
    apply String_as_OT.cmp_eq. exact Hcmp.
  - left. split; [reflexivity |]. apply String_as_OT.cmp_lt. exact Hcmp.
  - right. right. split; [reflexivity |]. apply String_as_OT.cmp_lt.
    unfold String_as_OT.cmp. rewrite String.compare_antisym, Hcmp.
    reflexivity.
Qed.

Lemma lts_asym (a b : string) :
  String_as_OT.lt a b -> String_as_OT.lt b a -> False.
Proof.
  intros Hab Hba.
  apply (String_as_OT.lt_not_eq a a); [| reflexivity].
  eapply String_as_OT.lt_trans; eassumption.
Qed.

Lemma SimpleHost_consistent : ConsistentCollation SimpleHost.host.
Proof.
  constructor; simpl.
  - intros a b Hgt.
    destruct (compare_code_units_cases a b) as [[E _] | [[E _] | [_ Hba]]];
      try lia.
    destruct (compare_code_units_cases b a) as [[E' _] | [[E' Heq] | [_ Hab]]].
    + lia.
    + subst. exfalso. eapply String_as_OT.lt_not_eq; [exact Hba | reflexivity].
    + exfalso. eapply lts_asym; eassumption.
  - intros a b Hlt.
    destruct (compare_code_units_cases a b) as [[_ Hab] | [[E _] | [E _]]];
      try lia.
    destruct (compare_code_units_cases b a) as [[_ Hba] | [[_ Heq] | [E' _]]].
    + exfalso. eapply lts_asym; eassumption.
    + subst. exfalso. eapply String_as_OT.lt_not_eq; [exact Hab | reflexivity].
    + lia.
  - intros a b c Hab Hbc.
    assert (Hab' : a = b \/ String_as_OT.lt a b).
    { destruct (compare_code_units_cases a b) as [[_ L] | [[_ L] | [E _]]];
        [right; exact L | left; exact L | lia]. }
    assert (Hbc' : b = c \/ String_as_OT.lt b c).
    { destruct (compare_code_units_cases b c) as [[_ L] | [[_ L] | [E _]]];
        [right; exact L | left; exact L | lia]. }
    assert (Hac : a = c \/ String_as_OT.lt a c).
    { destruct Hab' as [-> | Hab'], Hbc' as [-> | Hbc']; auto.
      right. eapply String_as_OT.lt_trans; eassumption. }
    destruct (compare_code_units_cases a c) as [[E _] | [[E _] | [_ Hca]]];
      try lia.
    exfalso. destruct Hac as [-> | Hac].
    + eapply String_as_OT.lt_not_eq; [exact Hca | reflexivity].
    + eapply lts_asym; eassumption.
Qed.

(** ** The sort step *)

Section SortStep.
Context {H : Host}.

Lemma collation_refl (HC : ConsistentCollation H) (a : string) :
  localeCompare a a = 0.
Proof.
  destruct (Z.lt_trichotomy (localeCompare a a) 0) as [Hlt | [Heq | Hgt]].
  - pose proof (collation_lt_gt H HC a a Hlt). lia.
  - exact Heq.
  - pose proof (collation_gt_lt H HC a a Hgt). lia.
Qed.

Lemma collation_le_flip (HC : ConsistentCollation H) (a b : string) :
  0 <= localeCompare a b -> localeCompare b a <= 0.
Proof.
  intro Hge.
  destruct (Z.lt_trichotomy (localeCompare b a) 0) as [Hlt | [Heq | Hgt]];
    try lia.
  pose proof (collation_gt_lt H HC b a Hgt). lia.
Qed.

(** The comparator never answers "greater" both ways. *)
Lemma compareFn_total (HC : ConsistentCollation H) (sortOption : SortOption)
    (x y : Doll.t) :
  0 < SortCompare (HomeView.compareFn sortOption) x y ->
  SortCompare (HomeView.compareFn sortOption) y x <= 0.
Proof.
  unfold SortCompare, HomeView.compareFn, num_sub.
  destruct sortOption;
    try (destruct (Date_getTime (Doll.created_at x)),
                  (Date_getTime (Doll.created_at y)); lia).
  - intro Hgt. pose proof (collation_gt_lt H HC _ _ Hgt). lia.
  - intro Hgt. pose proof (collation_gt_lt H HC _ _ Hgt). lia.
Qed.

Lemma sortStep_sortedUnder (HC : ConsistentCollation H)
    (sortOption : SortOption) (l : list Doll.t) :
  sortedUnder sortOption (HomeView.sortStep sortOption l).
Proof.
  apply sort_sorted. intros x y _ _. apply compareFn_total. exact HC.
Qed.

Lemma sortStep_perm (sortOption : SortOption) (l : list Doll.t) :
  Permutation (HomeView.sortStep sortOption l) l.
Proof. apply sort_perm. Qed.

(** Items with a creation time are ordered transitively by the date
    comparators, and names by the collation. *)
Lemma compareFn_trans (HC : ConsistentCollation H) (sortOption : SortOption)
    (x y z : Doll.t) :
  (sortsByDate sortOption = true ->
   hasCreatedTime x /\ hasCreatedTime y /\ hasCreatedTime z) ->
  SortCompare (HomeView.compareFn sortOption) x y <= 0 ->
  SortCompare (HomeView.compareFn sortOption) y z <= 0 ->
  SortCompare (HomeView.compareFn sortOption) x z <= 0.
Proof.
  unfold SortCompare, HomeView.compareFn, num_sub, hasCreatedTime, createdTime.
  destruct sortOption; simpl; intro Hvalid.
  - destruct (Hvalid eq_refl) as (Hx & Hy & Hz).
    destruct (Date_getTime (Doll.created_at x)),
             (Date_getTime (Doll.created_at y)),
             (Date_getTime (Doll.created_at z)); try congruence; lia.
  - destruct (Hvalid eq_refl) as (Hx & Hy & Hz).
    destruct (Date_getTime (Doll.created_at x)),
             (Date_getTime (Doll.created_at y)),
             (Date_getTime (Doll.created_at z)); try congruence; lia.
  - apply (collation_trans H HC).
  - intros Hyx Hzy. apply (collation_trans H HC _ _ _ Hzy Hyx).
Qed.

Lemma compareFn_inSortOrder (sortOption : SortOption) (x y : Doll.t) :
  (sortsByDate sortOption = true -> hasCreatedTime x /\ hasCreatedTime y) ->
  SortCompare (HomeView.compareFn sortOption) x y <= 0 ->
  inSortOrder sortOption x y.
Proof.
  unfold inSortOrder, SortCompare, HomeView.compareFn, num_sub,
    hasCreatedTime, createdTime.
  destruct sortOption; simpl; intros Hvalid Hle; try exact Hle;
    destruct (Hvalid eq_refl) as (Hx & Hy);
    destruct (Date_getTime (Doll.created_at x)) as [tx |],
             (Date_getTime (Doll.created_at y)) as [ty |]; try congruence;
    exists tx, ty; (split; [reflexivity | split; [reflexivity | lia]]).
Qed.

(** Sorting orders every pair of the result. *)
Lemma sortStep_StronglySorted (HC : ConsistentCollation H)
    (sortOption : SortOption) (l : list Doll.t) :
  (sortsByDate sortOption = true -> Forall hasCreatedTime l) ->
  StronglySorted (inSortOrder sortOption) (HomeView.sortStep sortOption l).
Proof.
  intro Hvalid.
  set (P := fun d : Doll.t =>
              sortsByDate sortOption = true -> hasCreatedTime d).
  assert (HP : Forall P (HomeView.sortStep sortOption l)).
  { apply Forall_forall. intros d Hd Hdate.
    apply sort_In in Hd. specialize (Hvalid Hdate).
    rewrite Forall_forall in Hvalid. apply Hvalid. exact Hd. }
  apply (StronglySorted_weaken_on P
           (fun a b => SortCompare (HomeView.compareFn sortOption) a b <= 0)).
  - intros x y Hx Hy. apply compareFn_inSortOrder. intro Hd. split; auto.
  - exact HP.
  - apply (Sorted_StronglySorted_on P).
    + intros x y z Hx Hy Hz. apply compareFn_trans; [exact HC |].
      intro Hd. repeat split; auto.
    + exact HP.
    + apply sortStep_sortedUnder. exact HC.
Qed.

Lemma option_Z_eqb_eq (a b : option Z) : option_Z_eqb a b = true <-> a = b.
Proof.
  destruct a, b; simpl; try (split; congruence).
  rewrite Z.eqb_eq. split; congruence.
Qed.

Lemma sameSortKey_refl (HC : ConsistentCollation H) (sortOption : SortOption)
    (x : Doll.t) :
  sameSortKey sortOption x x = true.
Proof.
  destruct sortOption; simpl;
    try (apply option_Z_eqb_eq; reflexivity);
    rewrite (collation_refl HC); reflexivity.
Qed.

(** Two items with the key of [x] never compare "greater". *)
Lemma sameSortKey_class (HC : ConsistentCollation H) (sortOption : SortOption)
    (x y z : Doll.t) :
  sameSortKey sortOption x y = true ->
  sameSortKey sortOption x z = true ->
  SortCompare (HomeView.compareFn sortOption) y z <= 0.
Proof.
  unfold sameSortKey, SortCompare, HomeView.compareFn, num_sub, createdTime.
  destruct sortOption; try rewrite !option_Z_eqb_eq; try rewrite !Z.eqb_eq.
  - intros <- <-. destruct (Date_getTime (Doll.created_at x)); lia.
  - intros <- <-. destruct (Date_getTime (Doll.created_at x)); lia.
  - intros Hxy Hxz.
    apply (collation_trans H HC _ (Doll.name x)); [| lia].
    apply (collation_le_flip HC). lia.
  - intros Hxy Hxz.
    apply (collation_trans H HC _ (Doll.name x)); [| lia].
    apply (collation_le_flip HC). lia.
Qed.

Lemma sortStep_filter_sameSortKey (HC : ConsistentCollation H)
    (sortOption : SortOption) (l : list Doll.t) (x : Doll.t) :
  filter (sameSortKey sortOption x) (HomeView.sortStep sortOption l)
  = filter (sameSortKey sortOption x) l.
Proof.
  apply sort_filter. intros y z _ _. apply sameSortKey_class. exact HC.
Qed.

End SortStep.

(** ** Subsequences selected by [filter] *)

Section FilterInversion.
Context {A : Type} (f : A -> bool).

Lemma filter_eq_cons_inv (m : list A) (a : A) (q : list A) :
  filter f m = a :: q ->
  exists m1 m2,
    m = (m1 ++ a :: m2)%list /\ filter f m1 = [] /\ filter f m2 = q.
Proof.
  induction m as [| x m IH]; simpl; [discriminate |].
  destruct (f x) eqn:Hfx.
  - intro Heq. injection Heq as -> Hq. exists [], m.
    split; [reflexivity |]. split; [reflexivity | exact Hq].
  - intro Heq. destruct (IH Heq) as (m1 & m2 & -> & Hm1 & Hq).
    exists (x :: m1), m2. split; [reflexivity |].
    split; [simpl; rewrite Hfx; exact Hm1 | exact Hq].
Qed.

Lemma filter_eq_app_inv (p q m : list A) :
  filter f m = (p ++ q)%list ->
  exists m1 m2, m = (m1 ++ m2)%list /\ filter f m2 = q.
Proof.
  revert m. induction p as [| a p IH]; intros m Heq.
  - exists [], m. split; [reflexivity | exact Heq].
  - simpl in Heq. apply filter_eq_cons_inv in Heq.
    destruct Heq as (m1 & m2 & -> & _ & Hq).
    destruct (IH m2 Hq) as (n1 & n2 & -> & Hq').
    exists (m1 ++ a :: n1)%list, n2. split; [| exact Hq'].
    rewrite <- app_assoc. reflexivity.
Qed.

(** Two selected elements that follow each other in the selection follow
    each other in the list. *)
Lemma filter_order_inv (m p q r : list A) (a b : A) :
  filter f m = (p ++ a :: q ++ b :: r)%list ->
  exists m1 m2 m3, m = (m1 ++ a :: m2 ++ b :: m3)%list.
Proof.
  intro Heq.
  apply filter_eq_app_inv in Heq. destruct Heq as (m1 & m2 & -> & Heq).
  apply filter_eq_cons_inv in Heq. destruct Heq as (n1 & n2 & -> & _ & Heq).
  apply filter_eq_app_inv in Heq. destruct Heq as (k1 & k2 & -> & Heq).
  apply filter_eq_cons_inv in Heq. destruct Heq as (j1 & j2 & -> & _ & _).
  exists (m1 ++ n1)%list, (k1 ++ j1)%list, j2.
  repeat (rewrite <- app_assoc; simpl). reflexivity.
Qed.

End FilterInversion.

(** ** The sorted, stable rearrangement is unique

    For a comparator that is consistent on the elements of the list,
    ECMAScript leaves no freedom: the result of [sort] is the one
    rearrangement that is ordered and keeps elements that compare equal in
    their original order.  The insertion sort of the model computes it. *)

Section StableSortUnique.
Context {A : Type} (comparefn : A -> A -> option Z).

Let le (x y : A) : Prop := SortCompare comparefn x y <= 0.
Let eqv (x y : A) : bool := SortCompare comparefn x y =? 0.

Lemma consistentOn_incl (l l' : list A) :
  incl l' l -> consistentOn comparefn l -> consistentOn comparefn l'.
Proof.
  intros Hincl (Hgt & Hlt & Htrans). repeat split.
  - intros x y Hx Hy. apply Hgt; apply Hincl; assumption.
  - intros x y Hx Hy. apply Hlt; apply Hincl; assumption.
  - intros x y z Hx Hy Hz. apply Htrans; apply Hincl; assumption.
Qed.

Lemma consistentOn_refl (l : list A) (x : A) :
  consistentOn comparefn l -> In x l -> eqv x x = true.
Proof.
  intros (Hgt & Hlt & _) Hx. unfold eqv. apply Z.eqb_eq.
  destruct (Z.lt_trichotomy (SortCompare comparefn x x) 0) as [L | [E | G]].
  - pose proof (Hlt x x Hx Hx L). lia.
  - exact E.
  - pose proof (Hgt x x Hx Hx G). lia.
Qed.

Lemma consistentOn_eqv (l : list A) (x y : A) :
  consistentOn comparefn l -> In x l -> In y l ->
  le x y -> le y x -> eqv x y = true.
Proof.
  intros (Hgt & Hlt & _) Hx Hy Hxy Hyx. unfold eqv, le in *.
  apply Z.eqb_eq.
  destruct (Z.lt_trichotomy (SortCompare comparefn x y) 0) as [L | [E | G]].
  - pose proof (Hlt x y Hx Hy L). lia.
  - exact E.
  - lia.
Qed.

Lemma stable_sorted_unique (l1 l2 : list A) :
  consistentOn comparefn l1 ->
  Permutation l1 l2 ->
  StronglySorted le l1 -> StronglySorted le l2 ->
  (forall x, In x l1 -> filter (eqv x) l1 = filter (eqv x) l2) ->
  l1 = l2.
Proof.
  revert l2. induction l1 as [| x t1 IH]; intros l2 Hcons Hperm Hs1 Hs2 Hst.
  - apply Permutation_nil in Hperm. symmetry. exact Hperm.
  - assert (Hxx : eqv x x = true)
      by (apply (consistentOn_refl (x :: t1)); [exact Hcons | left; reflexivity]).
    pose proof (Hst x (or_introl eq_refl)) as Hclass.
    simpl in Hclass. rewrite Hxx in Hclass. symmetry in Hclass.
    apply filter_eq_cons_inv in Hclass.
    destruct Hclass as (m1 & m2 & -> & Hm1 & _).
    assert (Hm1nil : m1 = []).
    { destruct m1 as [| y m1']; [reflexivity |]. exfalso.
      assert (Hyx : le y x).
      { inversion Hs2 as [| ? ? _ Hall]; subst.
        rewrite Forall_forall in Hall. apply Hall.
        apply in_or_app. right. left. reflexivity. }
      assert (Hy : In y (x :: t1)).
      { eapply Permutation_in; [apply Permutation_sym; exact Hperm |].
        left. reflexivity. }
      assert (Hxy : le x y).
      { destruct Hy as [<- | Hy].
        - unfold le. apply Z.eqb_eq in Hxx. lia.
        - inversion Hs1 as [| ? ? _ Hall]; subst.
          rewrite Forall_forall in Hall. apply Hall. exact Hy. }
      pose proof (consistentOn_eqv (x :: t1) x y Hcons
                    (or_introl eq_refl) Hy Hxy Hyx) as Heqv.
      simpl in Hm1. rewrite Heqv in Hm1. discriminate. }
    subst m1. simpl in *. f_equal.
    apply IH.
    + eapply consistentOn_incl; [| exact Hcons]. apply incl_tl, incl_refl.
    + eapply Permutation_cons_inv. exact Hperm.
    + inversion Hs1; assumption.
    + inversion Hs2; assumption.
    + intros z Hz. specialize (Hst z (or_intror Hz)). simpl in Hst.
      destruct (eqv z x); [injection Hst as Hst |]; exact Hst.
Qed.

Lemma sort_StronglySorted (l : list A) :
  consistentOn comparefn l -> StronglySorted le (sort comparefn l).
Proof.
  intros (Hgt & Hlt & Htrans).
  apply (Sorted_StronglySorted_on (fun x => In x l)).
  - intros x y z Hx Hy Hz. apply Htrans; assumption.
  - apply Forall_forall. intros x Hx. apply sort_In in Hx. exact Hx.
  - apply sort_sorted. intros x y Hx Hy G.
    pose proof (Hgt x y Hx Hy G). lia.
Qed.

Lemma sort_stable (l : list A) (x : A) :
  consistentOn comparefn l -> In x l ->
  filter (eqv x) (sort comparefn l) = filter (eqv x) l.
Proof.
  intros (Hgt & Hlt & Htrans) Hx. apply sort_filter.
  intros y z Hy Hz Hxy Hxz. unfold eqv in *.
  apply Z.eqb_eq in Hxy, Hxz.
  apply (Htrans y x z); try assumption; [| lia].
  destruct (Z.lt_trichotomy (SortCompare comparefn y x) 0) as [L | [E | G]];
    try lia.
  pose proof (Hgt y x Hy Hx G). lia.
Qed.

(** Any ordered, stable rearrangement of [l] is the result of [sort]. *)
Theorem sort_is_the_stable_sort (l l' : list A) :
  consistentOn comparefn l ->
  Permutation l' l ->
  StronglySorted le l' ->
  (forall x, In x l -> filter (eqv x) l' = filter (eqv x) l) ->
  l' = sort comparefn l.
Proof.
  intros Hcons Hperm Hsorted Hstable.
  assert (Hincl : incl l' l)
    by (intros x Hx; eapply Permutation_in; eassumption).
  apply stable_sorted_unique.
  - eapply consistentOn_incl; eassumption.
  - eapply perm_trans; [exact Hperm |]. apply Permutation_sym, sort_perm.
  - exact Hsorted.
  - apply sort_StronglySorted. exact Hcons.
  - intros x Hx. rewrite sort_stable; [| exact Hcons | apply Hincl; exact Hx].
    apply Hstable. apply Hincl. exact Hx.
Qed.

End StableSortUnique.

(** ** The sort step is the stable sort *)

Section SortStepCanonical.
Context {H : Host}.

Lemma compareFn_consistentOn (HC : ConsistentCollation H)
    (sortOption : SortOption) (l : list Doll.t) :
  (sortsByDate sortOption = true -> Forall hasCreatedTime l) ->
  consistentOn (HomeView.compareFn sortOption) l.
Proof.
  intro Hvalid.
  assert (Hin : forall d, In d l ->
                  sortsByDate sortOption = true -> hasCreatedTime d).
  { intros d Hd Hdate. specialize (Hvalid Hdate).
    rewrite Forall_forall in Hvalid. apply Hvalid. exact Hd. }
  repeat split.
  - intros x y Hx Hy. pose proof (Hin x Hx) as Hinx.
    pose proof (Hin y Hy) as Hiny.
    unfold SortCompare, HomeView.compareFn, num_sub, hasCreatedTime,
      createdTime in *.
    destruct sortOption; simpl in *;
      try (destruct (Date_getTime (Doll.created_at x)),
                    (Date_getTime (Doll.created_at y)); lia);
      apply (collation_gt_lt H HC).
  - intros x y Hx Hy. pose proof (Hin x Hx) as Hinx.
    pose proof (Hin y Hy) as Hiny.
    unfold SortCompare, HomeView.compareFn, num_sub, hasCreatedTime,
      createdTime in *.
    destruct sortOption; simpl in *;
      try (destruct (Date_getTime (Doll.created_at x)),
                    (Date_getTime (Doll.created_at y)); lia);
      apply (collation_lt_gt H HC).
  - intros x y z Hx Hy Hz. apply compareFn_trans; [exact HC |].
    intro Hdate. repeat split; apply Hin; assumption.
Qed.

(** Under a consistent collation and with valid creation timestamps, every
    ordered rearrangement of the list that keeps items comparing equal in
    their input order is the list computed by the sort step. *)
Lemma sortStep_canonical (HC : ConsistentCollation H)
    (sortOption : SortOption) (l l' : list Doll.t) :
  (sortsByDate sortOption = true -> Forall hasCreatedTime l) ->
  Permutation l' l ->
  StronglySorted
    (fun a b => SortCompare (HomeView.compareFn sortOption) a b <= 0) l' ->
  (forall x, In x l ->
     filter (fun y => SortCompare (HomeView.compareFn sortOption) x y =? 0) l'
     = filter (fun y => SortCompare (HomeView.compareFn sortOption) x y =? 0)
         l) ->
  l' = HomeView.sortStep sortOption l.
Proof.
  intros Hvalid Hperm Hsorted Hstable.
  apply sort_is_the_stable_sort; try assumption.
  apply compareFn_consistentOn; assumption.
Qed.

End SortStepCanonical.

(** ** The AI wrappers *)

Section TryCatch.
Context {S E A : Type}.

(** A [try]/[catch] whose handler returns normally returns normally. *)
Lemma try_catch_normal (body : @Effect.M S E A) (handler : exn -> @Effect.M S E A)
    (s : S) :
  (forall e s1, exists a s2 t, handler e s1 = (Normal a, s2, t)) ->
  exists a s' t, Effect.try_catch body handler s = (Normal a, s', t).
Proof.
  intro Hhandler. unfold Effect.try_catch.
  destruct (body s) as [[[a | e] s1] t1].
  - exists a, s1, t1. reflexivity.
  - destruct (Hhandler e s1) as (a & s2 & t2 & ->).
    exists a, s2, (t1 ++ t2)%list. reflexivity.
Qed.

End TryCatch.

(** ** The dimension logic *)

Section MaxDimensionExact.
Import ImageUtils.
Local Open Scope Qc_scope.

Lemma gtb_Qc_true (a b : Qc) : gtb a b = true <-> b < a.
Proof.
  simpl. rewrite (Qcgt_alt a b).
  destruct (a ?= b); split; congruence.
Qed.

Lemma gtb_Qc_false (a b : Qc) : gtb a b = false <-> a <= b.
Proof.
  simpl. rewrite (Qcle_alt a b).
  destruct (a ?= b); split; congruence.
Qed.

Lemma geb_Qc_true (a b : Qc) : geb a b = true <-> b <= a.
Proof.
  simpl. rewrite (Qcge_alt a b).
  destruct (a ?= b); split; congruence.
Qed.

Lemma geb_Qc_false (a b : Qc) : geb a b = false <-> a < b.
Proof.
  simpl. rewrite (Qclt_alt a b).
  destruct (a ?= b); split; congruence.
Qed.

Lemma MAX_SIZE_pos : 0 < MAX_SIZE (N := Qc).
Proof. reflexivity. Qed.

Lemma above_cap_nonzero (w : Qc) : MAX_SIZE < w -> w <> 0.
Proof.
  intros Hw ->. apply (Qclt_not_le _ _ Hw). apply Qclt_le_weak, MAX_SIZE_pos.
Qed.

(** Scaling the longer side by [1080/side] caps it at 1080. *)
Lemma scale_to_cap (w : Qc) : MAX_SIZE < w -> w * (MAX_SIZE / w) = MAX_SIZE.
Proof. intro Hw. apply Qcmult_div_r. apply above_cap_nonzero. exact Hw. Qed.

Lemma maxDimension_specDimensions (w h : Qc) :
  maxDimension w h = specDimensions w h.
Proof.
  unfold maxDimension, specDimensions, scaleBoth.
  destruct (gtb w h) eqn:Hwh.
  - apply gtb_Qc_true in Hwh.
    assert (Hge : geb w h = true)
      by (apply geb_Qc_true, Qclt_le_weak; exact Hwh).
    rewrite Hge, andb_true_l.
    destruct (gtb w MAX_SIZE) eqn:Hw.
    + apply gtb_Qc_true in Hw.
      change mul with Qcmult. change div with Qcdiv.
      rewrite (scale_to_cap w Hw). reflexivity.
    + apply gtb_Qc_false in Hw.
      assert (Hh : gtb h MAX_SIZE = false).
      { apply gtb_Qc_false. apply Qclt_le_weak.
        eapply Qclt_le_trans; eassumption. }
      rewrite Hh. reflexivity.
  - apply gtb_Qc_false in Hwh.
    destruct (geb w h) eqn:Hge;
      [rewrite andb_true_l | rewrite andb_false_l].
    + apply geb_Qc_true in Hge.
      assert (Heq : w = h) by (apply Qcle_antisym; assumption). subst h.
      destruct (gtb w MAX_SIZE) eqn:Hw; [| reflexivity].
      apply gtb_Qc_true in Hw.
      change mul with Qcmult. change div with Qcdiv.
      rewrite (scale_to_cap w Hw). reflexivity.
    + destruct (gtb h MAX_SIZE) eqn:Hh; [| reflexivity].
      apply gtb_Qc_true in Hh.
      change mul with Qcmult. change div with Qcdiv.
      rewrite (scale_to_cap h Hh). reflexivity.
Qed.

End MaxDimensionExact.

(** ** The dimension logic in binary64 *)

Section Binary64.
Import ImageUtils.

Lemma half_even_bound (n d : Z) :
  0 < d -> 2 * Z.abs (half_even n d * d - n) <= d.
Proof.
  intro Hd. unfold half_even.
  pose proof (Z.div_mod n d ltac:(lia)) as Hdiv.
  pose proof (Z.mod_pos_bound n d Hd) as Hmod.
  destruct (Z.ltb_spec (2 * (n mod d)) d).
  - nia.
  - destruct (Z.ltb_spec d (2 * (n mod d))).
    + nia.
    + destruct (Z.even (n / d)); nia.
Qed.

Lemma half_even_nonneg (n d : Z) : 0 <= n -> 0 < d -> 0 <= half_even n d.
Proof.
  intros Hn Hd. unfold half_even.
  pose proof (Z.div_pos n d Hn Hd).
  destruct (_ <? _); [lia |]. destruct (_ <? _); [lia |].
  destruct (Z.even _); lia.
Qed.

(** The second exponent tried by [round53_pos] brings the quotient to at
    least [2^52]; so the exponent it chooses does. *)
Lemma scale_normal (n d : Z) :
  0 < n -> 0 < d ->
  let t0 := 52 - (Z.log2 n - Z.log2 d) in
  let '(n1, d1) := scale n d (t0 + 1) in
  2 ^ 52 * d1 <= n1.
Proof.
  intros Hn Hd t0. unfold scale.
  pose proof (Z.log2_spec n Hn) as [Hn1 Hn2].
  pose proof (Z.log2_spec d Hd) as [Hd1 Hd2].
  pose proof (Z.log2_nonneg n) as Hln. pose proof (Z.log2_nonneg d) as Hld.
  set (ln := Z.log2 n) in *. set (ld := Z.log2 d) in *.
  assert (Ht : t0 + 1 = 53 + ld - ln) by (subst t0; lia).
  rewrite Ht. clear Ht t0.
  destruct (Z.le_gt_cases 0 (53 + ld - ln)) as [Hpos | Hneg].
  - rewrite (Z.max_l (53 + ld - ln) 0) by lia.
    rewrite (Z.max_r (- (53 + ld - ln)) 0) by lia.
    rewrite Z.pow_0_r, Z.mul_1_r.
    assert (H1 : 2 ^ 52 * d < 2 ^ (53 + ld)).
    { replace (53 + ld) with (52 + Z.succ ld) by lia.
      rewrite Z.pow_add_r by lia.
      apply Z.mul_lt_mono_pos_l; [apply Z.pow_pos_nonneg; lia | exact Hd2]. }
    assert (H2 : 2 ^ (53 + ld) = 2 ^ ln * 2 ^ (53 + ld - ln)).
    { rewrite <- Z.pow_add_r by lia. f_equal. lia. }
    assert (H3 : 0 < 2 ^ (53 + ld - ln)) by (apply Z.pow_pos_nonneg; lia).
    apply Z.le_trans with (2 ^ ln * 2 ^ (53 + ld - ln)); [lia |].
    apply Z.mul_le_mono_nonneg_r; lia.
  - rewrite (Z.max_r (53 + ld - ln) 0) by lia.
    rewrite (Z.max_l (- (53 + ld - ln)) 0) by lia.
    rewrite Z.pow_0_r, Z.mul_1_r.
    assert (H2 : 2 ^ 52 * (2 ^ Z.succ ld * 2 ^ (- (53 + ld - ln))) = 2 ^ ln).
    { rewrite <- !Z.pow_add_r by lia. f_equal. lia. }
    assert (H3 : 0 < 2 ^ (- (53 + ld - ln))) by (apply Z.pow_pos_nonneg; lia).
    assert (H4 : 0 < 2 ^ 52) by (apply Z.pow_pos_nonneg; lia).
    assert (H5 : d * 2 ^ (- (53 + ld - ln))
                 <= 2 ^ Z.succ ld * 2 ^ (- (53 + ld - ln))).
    { apply Z.mul_le_mono_nonneg_r; lia. }
    apply Z.le_trans with (2 ^ ln); [| exact Hn1].
    rewrite <- H2. apply Z.mul_le_mono_nonneg_l; lia.
Qed.

(** The significand found, in integers: with [N/D] the scaled quotient,
    [m] is within half a unit of it and [N/D] is at least [2^52]. *)
Lemma round53_pos_spec (n d : Z) :
  0 < n -> 0 < d ->
  exists a b m,
    0 <= a /\ 0 <= b /\ 0 <= m
    /\ round53_pos n d = Qmake (m * 2 ^ b) (Z.to_pos (2 ^ a))
    /\ 2 * Z.abs (m * (d * 2 ^ b) - n * 2 ^ a) <= d * 2 ^ b
    /\ 2 ^ 52 * (d * 2 ^ b) <= n * 2 ^ a.
Proof.
  intros Hn Hd. unfold round53_pos.
  set (t0 := 52 - (Z.log2 n - Z.log2 d)).
  pose proof (scale_normal n d Hn Hd) as Hnormal. cbv zeta in Hnormal.
  fold t0 in Hnormal.
  unfold scale in *.
  set (t := if 2 ^ 52 * (d * 2 ^ Z.max (- t0) 0) <=? n * 2 ^ Z.max t0 0
            then t0 else t0 + 1).
  assert (Ht : 2 ^ 52 * (d * 2 ^ Z.max (- t) 0) <= n * 2 ^ Z.max t 0).
  { subst t.
    destruct (Z.leb_spec (2 ^ 52 * (d * 2 ^ Z.max (- t0) 0))
                (n * 2 ^ Z.max t0 0)); [assumption | exact Hnormal]. }
  exists (Z.max t 0), (Z.max (- t) 0),
    (half_even (n * 2 ^ Z.max t 0) (d * 2 ^ Z.max (- t) 0)).
  assert (Hpa : 0 < 2 ^ Z.max t 0) by (apply Z.pow_pos_nonneg; lia).
  assert (Hpb : 0 < 2 ^ Z.max (- t) 0) by (apply Z.pow_pos_nonneg; lia).
  split; [lia |]. split; [lia |].
  split; [apply half_even_nonneg; nia |].
  split; [reflexivity |].
  split; [apply half_even_bound; nia | exact Ht].
Qed.

(** Rounding a positive number keeps it within a relative distance of
    [2^-53]. *)
Lemma round53_pos_error (n d : Z) :
  0 < n -> 0 < d ->
  ((n # Z.to_pos d) * (1 - u53) <= round53_pos n d
   /\ round53_pos n d <= (n # Z.to_pos d) * (1 + u53))%Q.
Proof.
  intros Hn Hd.
  destruct (round53_pos_spec n d Hn Hd)
    as (a & b & m & Ha & Hb & Hm & -> & Hhalf & Hnormal).
  assert (Hpa : 0 < 2 ^ a) by (apply Z.pow_pos_nonneg; lia).
  assert (Hpb : 0 < 2 ^ b) by (apply Z.pow_pos_nonneg; lia).
  set (A := 2 ^ a) in *. set (B := 2 ^ b) in *.
  unfold Qle, u53. cbn [Qnum Qden Qmult Qplus Qminus Qopp].
  rewrite !Z2Pos.id by lia.
  rewrite !Pos2Z.inj_mul, !Z2Pos.id by lia.
  change (2 ^ 52) with 4503599627370496 in *.
  split; nia.
Qed.

Lemma round53_error (x : Q) :
  (0 < x -> x * (1 - u53) <= round53 x /\ round53 x <= x * (1 + u53))%Q.
Proof.
  destruct x as [n d]. intro Hx.
  unfold Qlt in Hx. cbn in Hx.
  destruct n as [| n | n]; try lia.
  unfold round53. cbn [Qnum Qden].
  exact (round53_pos_error (Zpos n) (Zpos d) eq_refl eq_refl).
Qed.

Lemma round53_zero (x : Q) : (x == 0 -> round53 x = 0)%Q.
Proof.
  destruct x as [n d]. unfold Qeq. cbn. intro Hn.
  assert (n = 0) by lia. subst n. reflexivity.
Qed.

(** The scaled side in whole pixels.  The shorter side [S] of an image
    whose longer side [L] exceeds the cap is multiplied by the rounded
    quotient [1080/L] and the product is rounded; its integer part is the
    integer part of the exact quotient [1080 * S / L], or one less, and
    one less only when the exact quotient is a whole number. *)
Lemma scaled_side (L S : Z) :
  1080 < L < 2 ^ 32 -> 0 <= S <= L ->
  let p := round53 (inject_Z S * round53 (inject_Z 1080 / inject_Z L)) in
  (1080 * S) / L - 1 <= ToUint32 p <= (1080 * S) / L
  /\ ((1080 * S) mod L <> 0 -> ToUint32 p = (1080 * S) / L)
  /\ twiceRounded (inject_Z (1080 * S) / inject_Z L) p
  /\ (0 <= p <= inject_Z S)%Q.
Proof.
  intros HL HS p.
  change (2 ^ 32) with 4294967296 in HL.
  set (a := 1080 * S). set (c := a / L). set (r := a mod L).
  pose proof (Z.div_mod a L ltac:(lia)) as Hdiv. fold c r in Hdiv.
  pose proof (Z.mod_pos_bound a L ltac:(lia)) as Hr. fold r in Hr.
  assert (Hc : 0 <= c <= 1080).
  { subst c a. split.
    - apply Z.div_pos; lia.
    - apply Z.div_le_upper_bound; nia. }
  (* the exact quotient and its distance to [p] *)
  set (x := (inject_Z 1080 / inject_Z L)%Q).
  set (v := (1 / inject_Z L)%Q).
  set (q := (inject_Z a * v)%Q).
  assert (HLq : (0 < inject_Z L)%Q)
    by (unfold Qlt; cbn [Qnum Qden inject_Z]; lia).
  assert (Hx : (x == inject_Z 1080 * v)%Q) by (subst x v; field; lra).
  assert (Hv : (0 < v)%Q).
  { subst v. apply Qlt_shift_div_l; lra. }
  assert (Hv32 : ((1 # 4294967296) <= v)%Q).
  { subst v. apply Qle_shift_div_l; [exact HLq |].
    unfold Qle. cbn [Qnum Qden Qmult inject_Z].
    lia. }
  assert (Hxpos : (0 < x)%Q)
    by (rewrite Hx; apply Qmult_lt_0_compat; [reflexivity | exact Hv]).
  destruct (round53_error x Hxpos) as [Hf1 Hf2].
  set (f := round53 x) in *.
  assert (Hs : (0 <= inject_Z S)%Q)
    by (unfold Qle; cbn [Qnum Qden inject_Z]; lia).
  assert (Hq : (q == inject_Z S * x)%Q).
  { subst q a. rewrite Hx, inject_Z_mult. ring. }
  assert (Hmulv : forall z w : Z, z <= w * L ->
            (inject_Z z * v <= inject_Z w)%Q).
  { intros z w Hzw. subst v.
    setoid_replace (inject_Z z * (1 / inject_Z L))%Q
      with (inject_Z z / inject_Z L)%Q by (field; lra).
    apply Qle_shift_div_r; [exact HLq |].
    rewrite <- inject_Z_mult, <- Zle_Qle. exact Hzw. }
  assert (Hmulv' : forall z w : Z, w * L <= z ->
            (inject_Z w <= inject_Z z * v)%Q).
  { intros z w Hzw. subst v.
    setoid_replace (inject_Z z * (1 / inject_Z L))%Q
      with (inject_Z z / inject_Z L)%Q by (field; lra).
    apply Qle_shift_div_l; [exact HLq |].
    rewrite <- inject_Z_mult, <- Zle_Qle. exact Hzw. }
  assert (Hqle : (q <= 1080)%Q).
  { subst q. change 1080%Q with (inject_Z 1080). apply Hmulv.
    subst a. nia. }
  assert (Hq0 : (0 <= q)%Q).
  { rewrite Hq. apply Qmult_le_0_compat; lra. }
  set (g := (inject_Z S * f)%Q).
  assert (Hg1 : (q * (1 - u53) <= g)%Q).
  { rewrite Hq. subst g. rewrite <- Qmult_assoc.
    rewrite (Qmult_comm (inject_Z S) (x * (1 - u53))),
      (Qmult_comm (inject_Z S) f).
    apply Qmult_le_compat_r; assumption. }
  assert (Hg2 : (g <= q * (1 + u53))%Q).
  { rewrite Hq. subst g. rewrite <- Qmult_assoc.
    rewrite (Qmult_comm (inject_Z S) (x * (1 + u53))),
      (Qmult_comm (inject_Z S) f).
    apply Qmult_le_compat_r; assumption. }
  assert (Hp : (q * (1 - u53) * (1 - u53) <= p
                /\ p <= q * (1 + u53) * (1 + u53))%Q).
  { subst p. fold x f g.
    destruct (Qlt_le_dec 0 g) as [Hgpos | Hgneg].
    - destruct (round53_error g Hgpos) as [Hp1 Hp2].
      unfold u53 in *. split; nra.
    - assert (Hg0 : (g == 0)%Q).
      { apply Qle_antisym; [exact Hgneg |].
        subst g. apply Qmult_le_0_compat; [exact Hs |].
        unfold u53 in *. nra. }
      rewrite (round53_zero g Hg0).
      assert (Hq00 : (q == 0)%Q).
      { apply Qle_antisym; [| exact Hq0]. unfold u53 in *. nra. }
      rewrite Hq00. split; lra. }
  destruct Hp as [Hp1 Hp2].
  assert (Hnear : (q - v < p /\ p < q + v)%Q).
  { unfold u53 in *. split; nra. }
  destruct Hnear as [Hlow Hhigh].
  assert (Hp0 : (0 <= p)%Q) by (unfold u53 in *; nra).
  (* the integer part *)
  assert (Hqa : (q + v == inject_Z (a + 1) * v)%Q).
  { subst q. rewrite inject_Z_plus. ring. }
  assert (Hqb : (q - v == inject_Z (a - 1) * v)%Q).
  { subst q. unfold Zminus. rewrite inject_Z_plus, inject_Z_opp. ring. }
  assert (Hup : Qfloor p <= c).
  { assert (Hlt : (p < inject_Z (c + 1))%Q).
    { apply Qlt_le_trans with (q + v)%Q; [exact Hhigh |].
      rewrite Hqa. apply Hmulv. nia. }
    pose proof (Qfloor_le p) as Hfl.
    assert (Hz : (inject_Z (Qfloor p) < inject_Z (c + 1))%Q)
      by (eapply Qle_lt_trans; eassumption).
    rewrite <- Zlt_Qlt in Hz. lia. }
  assert (Hfloor_ge : forall w : Z, (inject_Z w <= p)%Q -> w <= Qfloor p).
  { intros w Hw. pose proof (Qlt_floor p) as Hfl.
    assert (Hz : (inject_Z w < inject_Z (Qfloor p + 1))%Q)
      by (eapply Qle_lt_trans; eassumption).
    rewrite <- Zlt_Qlt in Hz. lia. }
  assert (Hdown : c - 1 <= Qfloor p).
  { apply Hfloor_ge. apply Qlt_le_weak.
    apply Qle_lt_trans with (q - v)%Q; [| exact Hlow].
    rewrite Hqb. apply Hmulv'. nia. }
  assert (Hexact : r <> 0 -> c <= Qfloor p).
  { intro Hr0. apply Hfloor_ge. apply Qlt_le_weak.
    apply Qle_lt_trans with (q - v)%Q; [| exact Hlow].
    rewrite Hqb. apply Hmulv'. nia. }
  assert (Hto : ToUint32 p = Qfloor p).
  { unfold ToUint32.
    destruct (Qle_bool 0 p) eqn:Hb.
    - apply Z.mod_small.
      assert (0 <= Qfloor p) by (apply Hfloor_ge; exact Hp0).
      change (2 ^ 32) with 4294967296. lia.
    - exfalso. rewrite <- Qle_bool_iff in Hp0. congruence. }
  rewrite Hto. split; [split; assumption |].
  split.
  { intro Hr0. apply Z.le_antisymm; [exact Hup | apply Hexact; exact Hr0]. }
  assert (Hqdiv : (inject_Z a / inject_Z L == q)%Q)
    by (subst q v; field; lra).
  split.
  { unfold twiceRounded. fold a. rewrite Hqdiv. split; assumption. }
  split; [exact Hp0 |].
  assert (Hq1081 : (q * 1081 <= 1080 * inject_Z S)%Q).
  { assert (Hle : (inject_Z (a * 1081) * v <= inject_Z (1080 * S))%Q)
      by (apply Hmulv; subst a; nia).
    rewrite !inject_Z_mult in Hle. fold a in Hle.
    change (inject_Z 1081) with 1081%Q in Hle.
    change (inject_Z 1080) with 1080%Q in Hle.
    subst q. lra. }
  unfold u53 in *. lra.
Qed.

Lemma ToUint32_inject_Z (z : Z) :
  0 <= z < 2 ^ 32 -> ToUint32 (inject_Z z) = z.
Proof.
  intro Hz. unfold ToUint32.
  assert (Hb : Qle_bool 0 (inject_Z z) = true).
  { apply Qle_bool_iff. unfold Qle. cbn [Qnum Qden inject_Z]. lia. }
  rewrite Hb, Qfloor_Z. apply Z.mod_small. exact Hz.
Qed.

Lemma gtb_inject_Z (a b : Z) :
  gtb (N := Q) (inject_Z a) (inject_Z b) = (b <? a).
Proof.
  cbn [gtb Number_binary64].
  destruct (Z.ltb_spec b a) as [Hlt | Hge].
  - apply negb_true_iff. apply not_true_is_false. intro Hle.
    apply Qle_bool_iff in Hle. rewrite <- Zle_Qle in Hle. lia.
  - apply negb_false_iff. apply Qle_bool_iff. rewrite <- Zle_Qle. exact Hge.
Qed.

Lemma ToUint32_range (x : Q) : 0 <= ToUint32 x < 2 ^ 32.
Proof. unfold ToUint32. apply Z.mod_pos_bound. reflexivity. Qed.

Lemma ToUint32_nonneg (x : Q) : 0 <= ToUint32 x.
Proof. apply ToUint32_range. Qed.

(** The canvas keeps the integer parts of the Numbers drawn. *)
Lemma drawing_canvas (W H : Z) :
  ImageFile.canvas_width (ImageFile.drawing W H)
  = ToUint32 (ImageFile.drawn_width (ImageFile.drawing W H))
  /\ ImageFile.canvas_height (ImageFile.drawing W H)
     = ToUint32 (ImageFile.drawn_height (ImageFile.drawing W H)).
Proof.
  unfold ImageFile.drawing.
  destruct (maxDimension _ _). split; reflexivity.
Qed.

(** The three outcomes of the dimension logic on a natural size: the
    Numbers handed to [drawImage] and the whole pixels of the canvas. *)
Lemma drawing_cases (W H : Z) :
  0 <= W < 2 ^ 32 -> 0 <= H < 2 ^ 32 ->
  let d := ImageFile.drawing W H in
  (H < W /\ 1080 < W
   /\ ImageFile.drawn_width d = inject_Z 1080
   /\ ImageFile.canvas_width d = 1080
   /\ twiceRounded (inject_Z (1080 * H) / inject_Z W)
        (ImageFile.drawn_height d)
   /\ (0 <= ImageFile.drawn_height d <= inject_Z H)%Q
   /\ (1080 * H) / W - 1 <= ImageFile.canvas_height d <= (1080 * H) / W
   /\ ((1080 * H) mod W <> 0 -> ImageFile.canvas_height d = (1080 * H) / W))
  \/ (W <= H /\ 1080 < H
      /\ ImageFile.drawn_height d = inject_Z 1080
      /\ ImageFile.canvas_height d = 1080
      /\ twiceRounded (inject_Z (1080 * W) / inject_Z H)
           (ImageFile.drawn_width d)
      /\ (0 <= ImageFile.drawn_width d <= inject_Z W)%Q
      /\ (1080 * W) / H - 1 <= ImageFile.canvas_width d <= (1080 * W) / H
      /\ ((1080 * W) mod H <> 0 ->
          ImageFile.canvas_width d = (1080 * W) / H))
  \/ (W <= 1080 /\ H <= 1080
      /\ ImageFile.drawn_width d = inject_Z W
      /\ ImageFile.drawn_height d = inject_Z H
      /\ ImageFile.canvas_width d = W /\ ImageFile.canvas_height d = H).
Proof.
  intros HW HH. cbv zeta.
  unfold ImageFile.drawing, maxDimension, MAX_SIZE.
  cbn [of_Z Number_binary64].
  change (@gtb Q Number_binary64) with (gtb (N := Q)).
  rewrite !gtb_inject_Z.
  destruct (Z.ltb_spec H W) as [Hlt | Hge].
  - destruct (Z.ltb_spec 1080 W) as [Hbig | Hsmall].
    + left. cbn [ImageFile.canvas_width ImageFile.canvas_height
                 ImageFile.drawn_width ImageFile.drawn_height
                 mul div Number_binary64].
      destruct (scaled_side W H ltac:(lia) ltac:(lia))
        as (Hbounds & Hexact & Hnear & Hside).
      repeat (split; [first [assumption | reflexivity] |]). exact Hexact.
    + right. right.
      cbn [ImageFile.canvas_width ImageFile.canvas_height
           ImageFile.drawn_width ImageFile.drawn_height].
      rewrite !ToUint32_inject_Z by assumption.
      repeat split; lia.
  - destruct (Z.ltb_spec 1080 H) as [Hbig | Hsmall].
    + right. left. cbn [ImageFile.canvas_width ImageFile.canvas_height
                        ImageFile.drawn_width ImageFile.drawn_height
                        mul div Number_binary64].
      destruct (scaled_side H W ltac:(lia) ltac:(lia))
        as (Hbounds & Hexact & Hnear & Hside).
      repeat (split; [first [assumption | reflexivity] |]). exact Hexact.
    + right. right.
      cbn [ImageFile.canvas_width ImageFile.canvas_height
           ImageFile.drawn_width ImageFile.drawn_height].
      rewrite !ToUint32_inject_Z by assumption.
      repeat split; lia.
Qed.

End Binary64.

(** What the two wrappers return. *)

(** What [suggestCategory] returns. *)
Lemma suggestCategory_result (svc : GeminiService.Service) (file : File.t) :
  exists v trace,
    GeminiService.suggestCategory svc file tt = (Normal v, tt, trace)
    /\ GeminiService.ToBoolean v = true
    /\ (forall e t0,
          GeminiService.suggestCategory_try svc file tt = (Throw e, tt, t0) ->
          v = GeminiService.JString "Unknown").
Proof.
  unfold GeminiService.suggestCategory, Effect.try_catch.
  destruct (GeminiService.suggestCategory_try svc file tt)
    as [[[v | e] []] t] eqn:Htry.
  - exists v, t. split; [reflexivity |]. split; [| discriminate].
    unfold GeminiService.suggestCategory_try,
      GeminiService.fileToGenerativePart, Effect.bind, Effect.call,
      Effect.await, Effect.ret in Htry.
    destruct (GeminiService.readAsDataURL_result svc file);
      simpl in Htry; [| discriminate].
    destruct (GeminiService.generateContent_result svc _);
      simpl in Htry; [| discriminate].
    destruct (GeminiService.JSON_parse svc _) as [data |];
      simpl in Htry; [| discriminate].
    destruct (GeminiService.getProperty data "category") as [c |];
      simpl in Htry; [| discriminate].
    injection Htry as <- _.
    destruct (GeminiService.ToBoolean c) eqn:Hc; [exact Hc | reflexivity].
  - eexists _, _. split; [reflexivity |]. split; [reflexivity |].
    intros. reflexivity.
Qed.

(** What [identifyDoll] returns. *)
Lemma identifyDoll_result (svc : GeminiService.Service) (file : File.t) :
  exists v trace,
    GeminiService.identifyDoll svc file tt = (Normal v, tt, trace)
    /\ (forall e t0,
          GeminiService.identifyDoll_try svc file tt = (Throw e, tt, t0) ->
          v = GeminiService.identifyDoll_fallback).
Proof.
  unfold GeminiService.identifyDoll, Effect.try_catch.
  destruct (GeminiService.identifyDoll_try svc file tt)
    as [[[v | e] []] t] eqn:Htry.
  - exists v, t. split; [reflexivity | discriminate].
  - eexists _, _. split; [reflexivity |]. intros. reflexivity.
Qed.

Lemma newSizes_reads (current result : list string)
    (aiData : GeminiService.JsValue) (key : string) :
  HomeViewSizes.newSizes current aiData = Normal result ->
  exists x, GeminiService.getProperty aiData key = Normal x.
Proof.
  destruct aiData; simpl; try discriminate; eauto.
Qed.

(** * The properties of the specification *)

(** C1.  An item is classified "new", by the badge of [DollCard] and by
    the NEW filter alike, exactly when its age in whole days,
    [ceil(|now - created_at| / 86400 s)], is at most 30.  An item created
    exactly 30 x 86400 seconds before [now] is new; one created
    30 x 86400 + 1 seconds before [now] is not. *)
Theorem new_classification {H : Host} (now : Z) (d : Doll.t) :
  HomeView.newPredicate now d = DollCard.isNew now d
  /\ (DollCard.isNew now d = true <->
      exists created,
        createdTime d = Some created /\
        (Qceiling (inject_Z (Z.abs (now - created)) / inject_Z (86400 * 1000))
         <= 30)%Z)
  /\ (forall created,
        createdTime d = Some created ->
        now - created = 30 * 86400 * 1000 ->
        DollCard.isNew now d = true)
  /\ (forall created,
        createdTime d = Some created ->
        now - created = (30 * 86400 + 1) * 1000 ->
        DollCard.isNew now d = false).
Proof.
  split; [apply newPredicate_isNew |]. split; [| split].
  - rewrite isNew_iff. unfold createdTime.
    split; intros (created & Hc & Hle); exists created; (split; [exact Hc |]).
    + apply Z.leb_le.
      apply (proj2 (ceil_days_le_30 (Z.abs (now - created)))). exact Hle.
    + apply (proj1 (ceil_days_le_30 (Z.abs (now - created)))).
      apply Z.leb_le. exact Hle.
  - intros created Hc Hage. apply isNew_iff. exists created.
    split; [exact Hc | lia].
  - intros created Hc Hage.
    destruct (DollCard.isNew now d) eqn:Hnew; [| reflexivity].
    apply isNew_iff in Hnew. destruct Hnew as (c & Hc' & Hle).
    unfold createdTime in Hc. rewrite Hc in Hc'. injection Hc' as <-. lia.
Qed.

Lemma new_classification_witness :
  DollCard.isNew (H := SimpleHost.host) 1717113600000 Sample.bella = true
  /\ DollCard.isNew (H := SimpleHost.host) 1717113601000 Sample.bella = false.
Proof.
  split.
  - apply (proj1 (proj2 (proj2
             (new_classification (H := SimpleHost.host)
                1717113600000 Sample.bella))) 1714521600000);
      reflexivity.
  - apply (proj2 (proj2 (proj2
             (new_classification (H := SimpleHost.host)
                1717113601000 Sample.bella))) 1714521600000);
      reflexivity.
Defined.

(** C2.  For an image of natural size [W] x [H] (whole numbers
    below [2^32]) the pipeline encodes the canvas of [drawing W H] and
    resolves with that blob.  The target follows the rule of the
    specification up to the rounding of binary64 and the whole pixels of
    the canvas: when the width exceeds the height and 1080, the width
    becomes 1080 and the height becomes [1080 * H / W] rounded twice, which
    the canvas keeps as the integer part of [1080 * H / W], or as one pixel
    less, and that only where [1080 * H / W] is a whole number; otherwise,
    when the height exceeds 1080, the same with the sides exchanged (this
    is the branch taken when the sides are equal); otherwise both sides
    are unchanged, so a small image is never enlarged.  In exact arithmetic
    the branches of the code are the rule of the specification.  2000 x
    1000 gives 1080 x 540 and 800 x 600 stays as it is. *)
Theorem max_dimension_rule (W H : Z) (canvas : ImageFile.Canvas)
    (file : File.t) :
  0 <= W < 2 ^ 32 -> 0 <= H < 2 ^ 32 ->
  let d := ImageFile.drawing W H in
  (ImageFile.hasContext canvas = true ->
   forall blob, ImageFile.toBlob canvas d = Some blob ->
     ImageFile.onload canvas file W H
     = Normal {| File.name :=
                   (ImageFile.stripExtension (File.name file) ++ ".jpg")%string;
                 File.type := "image/jpeg";
                 File.content := blob |})
  /\ (forall out, ImageFile.onload canvas file W H = Normal out ->
        ImageFile.toBlob canvas d = Some (File.content out))
  /\ ImageFile.canvas_width d = ImageUtils.ToUint32 (ImageFile.drawn_width d)
  /\ ImageFile.canvas_height d
     = ImageUtils.ToUint32 (ImageFile.drawn_height d)
  /\ (H < W -> 1080 < W ->
      ImageFile.drawn_width d = inject_Z 1080
      /\ ImageFile.canvas_width d = 1080
      /\ ImageUtils.twiceRounded (inject_Z (1080 * H) / inject_Z W)
           (ImageFile.drawn_height d)
      /\ (1080 * H) / W - 1 <= ImageFile.canvas_height d <= (1080 * H) / W
      /\ ((1080 * H) mod W <> 0 ->
          ImageFile.canvas_height d = (1080 * H) / W))
  /\ (W <= H -> 1080 < H ->
      ImageFile.drawn_height d = inject_Z 1080
      /\ ImageFile.canvas_height d = 1080
      /\ ImageUtils.twiceRounded (inject_Z (1080 * W) / inject_Z H)
           (ImageFile.drawn_width d)
      /\ (1080 * W) / H - 1 <= ImageFile.canvas_width d <= (1080 * W) / H
      /\ ((1080 * W) mod H <> 0 ->
          ImageFile.canvas_width d = (1080 * W) / H))
  /\ (W <= 1080 -> H <= 1080 ->
      ImageFile.drawn_width d = inject_Z W
      /\ ImageFile.drawn_height d = inject_Z H
      /\ ImageFile.canvas_width d = W
      /\ ImageFile.canvas_height d = H)
  /\ (forall w h : Qc,
        ImageUtils.maxDimension w h = ImageUtils.specDimensions w h)
  /\ (ImageFile.canvas_width (ImageFile.drawing 2000 1000) = 1080
      /\ ImageFile.canvas_height (ImageFile.drawing 2000 1000) = 540
      /\ (ImageFile.drawn_width (ImageFile.drawing 2000 1000) == 1080)%Q
      /\ (ImageFile.drawn_height (ImageFile.drawing 2000 1000) == 540)%Q)
  /\ ImageFile.drawing 800 600
     = {| ImageFile.canvas_width := 800; ImageFile.canvas_height := 600;
          ImageFile.drawn_width := inject_Z 800;
          ImageFile.drawn_height := inject_Z 600 |}
  /\ ImageUtils.maxDimension (N := float)
       (ImageUtils.of_Z 2000) (ImageUtils.of_Z 1000)
     = (ImageUtils.of_Z 1080, ImageUtils.of_Z 540)
  /\ ImageUtils.maxDimension (N := float)
       (ImageUtils.of_Z 800) (ImageUtils.of_Z 600)
     = (ImageUtils.of_Z 800, ImageUtils.of_Z 600).
Proof.
  intros HW HH d.
  split.
  { intros Hctx blob Hblob. unfold ImageFile.onload.
    rewrite Hctx. cbn [negb]. fold d. rewrite Hblob. reflexivity. }
  split.
  { intros out. unfold ImageFile.onload.
    destruct (negb (ImageFile.hasContext canvas)); [discriminate |].
    fold d. destruct (ImageFile.toBlob canvas d) as [blob |];
      [| discriminate].
    intro Hout. injection Hout as <-. reflexivity. }
  split.
  { subst d. unfold ImageFile.drawing.
    destruct (ImageUtils.maxDimension _ _). reflexivity. }
  split.
  { subst d. unfold ImageFile.drawing.
    destruct (ImageUtils.maxDimension _ _). reflexivity. }
  pose proof (drawing_cases W H HW HH) as Hcases. cbv zeta in Hcases.
  fold d in Hcases.
  split.
  { intros Hwide Hbig.
    destruct Hcases
      as [(_ & _ & Hdw & Hcw & Hnear & _ & Hbounds & Hexact)
         | [(Hle & _) | (Hw & _)]]; [| lia | lia].
    repeat (split; [assumption |]). exact Hexact. }
  split.
  { intros Htall Hbig.
    destruct Hcases
      as [(Hlt & _)
         | [(_ & _ & Hdh & Hch & Hnear & _ & Hbounds & Hexact)
           | (_ & Hh & _)]]; [lia | | lia].
    repeat (split; [assumption |]). exact Hexact. }
  split.
  { intros Hw Hh.
    destruct Hcases
      as [(_ & Hbig & _) | [(_ & Hbig & _) | (_ & _ & Hsame)]];
      [lia | lia | exact Hsame]. }
  split; [exact maxDimension_specDimensions |].
  split; [vm_compute; repeat split; reflexivity |].
  split; [reflexivity |].
  split; vm_compute; reflexivity.
Qed.

Lemma max_dimension_rule_witness :
  ImageFile.canvas_width (ImageFile.drawing 4000 3001) = 1080
  /\ ImageFile.canvas_height (ImageFile.drawing 4000 3001) = 810
  /\ ImageFile.onload ImageSample.canvas Sample.photo 4000 3001
     = Normal {| File.name := "photo.jpg"; File.type := "image/jpeg";
                 File.content := "1080x810" |}.
Proof.
  destruct (max_dimension_rule 4000 3001 ImageSample.canvas Sample.photo
              ltac:(split; [discriminate | reflexivity])
              ltac:(split; [discriminate | reflexivity]))
    as (Hload & _ & _ & _ & Hwide & _).
  destruct (Hwide eq_refl eq_refl) as (_ & Hcw & _ & _ & Hexact).
  split; [exact Hcw |].
  split; [exact (Hexact ltac:(discriminate)) |].
  apply (Hload eq_refl). reflexivity.
Defined.

(** The rule as the specification states it fails at 2140 x 1070: it gives
    1080 x 540, and the pipeline encodes a canvas of 1080 x 539, because
    the height computed in binary64 is the number just below 540.  At the
    tie 2140 x 2140 the code scales the width, and the canvas is 1079 x
    1080. *)
Lemma max_dimension_rule_counterexample :
  ImageUtils.specDimensions (N := Qc)
    (ImageUtils.of_Z 2140) (ImageUtils.of_Z 1070)
  = (ImageUtils.of_Z 1080, ImageUtils.of_Z 540)
  /\ ImageFile.canvas_width (ImageFile.drawing 2140 1070) = 1080
  /\ ImageFile.canvas_height (ImageFile.drawing 2140 1070) = 539
  /\ (ImageFile.drawn_height (ImageFile.drawing 2140 1070) < 540)%Q
  /\ ImageUtils.maxDimension (N := float)
       (ImageUtils.of_Z 2140) (ImageUtils.of_Z 1070)
     = (ImageUtils.of_Z 1080, PrimFloat.next_down (ImageUtils.of_Z 540))
  /\ ImageFile.onload ImageSample.canvas Sample.photo 2140 1070
     = Normal {| File.name := "photo.jpg"; File.type := "image/jpeg";
                 File.content := "1080x539" |}
  /\ ImageUtils.specDimensions (N := Qc)
       (ImageUtils.of_Z 2140) (ImageUtils.of_Z 2140)
     = (ImageUtils.of_Z 1080, ImageUtils.of_Z 1080)
  /\ ImageFile.canvas_width (ImageFile.drawing 2140 2140) = 1079
  /\ ImageFile.canvas_height (ImageFile.drawing 2140 2140) = 1080
  /\ ImageUtils.maxDimension (N := float)
       (ImageUtils.of_Z 2140) (ImageUtils.of_Z 2140)
     = (PrimFloat.next_down (ImageUtils.of_Z 1080), ImageUtils.of_Z 1080).
Proof.
  split.
  { unfold ImageUtils.specDimensions, ImageUtils.scaleBoth.
    match goal with
    | |- (if ?c then _ else _) = _ => change c with true
    end.
    cbv iota. f_equal; apply Qc_is_canon; reflexivity. }
  split; [vm_compute; reflexivity |].
  split; [vm_compute; reflexivity |].
  split; [vm_compute; reflexivity |].
  split; [vm_compute; reflexivity |].
  split; [vm_compute; reflexivity |].
  split.
  { unfold ImageUtils.specDimensions, ImageUtils.scaleBoth.
    match goal with
    | |- (if ?c then _ else _) = _ => change c with true
    end.
    cbv iota. f_equal; apply Qc_is_canon; reflexivity. }
  split; [vm_compute; reflexivity |].
  split; vm_compute; reflexivity.
Qed.

(** The rounding on the rationals and the binary64 arithmetic of the
    machine give the same dimensions, on a grid of sizes on both sides of
    the cap and of the diagonal. *)
Remark binary64_models_agree :
  forallb (fun '(w, h) => ImageUtils.sameDimensions w h) ImageSample.sizes
  = true.
Proof. vm_compute. reflexivity. Qed.

(** C3.  Under DATE_FILTER with a value set, an item is kept exactly when
    its catch date is present and starts with the value; an item without a
    catch date is never kept; with no value set every item passes.  With
    the value 2024-05, of two items caught on 2024-05-03 and on 2024-06-01
    only the first is kept. *)
Theorem date_filter_prefix {H : Host} (dateFilterValue : string)
    (clock : nat -> Z) (items : list Doll.t) :
  (dateFilterValue <> "" ->
   exists result,
     HomeView.filterStage "DATE_FILTER" dateFilterValue clock items
     = Normal result
     /\ result = filter (dateMatches dateFilterValue) items
     /\ (forall d, In d result <->
                   In d items /\
                   exists date, Doll.catch_date d = Some date /\
                                startsWith date dateFilterValue = true)
     /\ (forall d, Doll.catch_date d = None -> ~ In d result))
  /\ HomeView.filterStage "DATE_FILTER" "" clock items = Normal items
  /\ (forall d1 d2,
        Doll.catch_date d1 = Some "2024-05-03" ->
        Doll.catch_date d2 = Some "2024-06-01" ->
        HomeView.filterStage "DATE_FILTER" "2024-05" clock [d1; d2]
        = Normal [d1]).
Proof.
  assert (Hstage : forall v l, v <> "" ->
            HomeView.filterStage "DATE_FILTER" v clock l
            = Normal (filter (dateMatches v) l)).
  { intros v l Hset. unfold HomeView.filterStage.
    change (String.eqb "DATE_FILTER" "NEW") with false.
    change (String.eqb "DATE_FILTER" "DATE_FILTER") with true.
    cbv iota. rewrite truthy_Some.
    destruct (String.eqb_spec v "") as [-> | _]; [congruence |]. simpl.
    apply Array_filter_pure. intro d. apply datePredicate_total. exact Hset. }
  assert (Hin : forall v d, In d (filter (dateMatches v) items) <->
            In d items /\
            exists date, Doll.catch_date d = Some date /\
                         startsWith date v = true).
  { intros v d. rewrite filter_In. unfold dateMatches, startsWith.
    split.
    - intros [Hd Hm]. split; [exact Hd |].
      destruct (Doll.catch_date d) as [date |]; [| discriminate].
      exists date. split; [reflexivity | exact Hm].
    - intros [Hd (date & Hdate & Hm)]. split; [exact Hd |].
      rewrite Hdate. exact Hm. }
  split; [| split].
  - intro Hset. exists (filter (dateMatches dateFilterValue) items).
    split; [apply Hstage; exact Hset |]. split; [reflexivity |].
    split; [apply Hin |].
    intros d Hnull Hd. apply Hin in Hd.
    destruct Hd as [_ (date & Hdate & _)]. congruence.
  - reflexivity.
  - intros d1 d2 H1 H2. rewrite Hstage by discriminate.
    simpl. unfold dateMatches. rewrite H1, H2. reflexivity.
Qed.

Lemma date_filter_prefix_witness :
  HomeView.filterStage (H := SimpleHost.host) "DATE_FILTER" "2024-05"
    (Sample.clock 0) [Sample.bella; Sample.apollo]
  = Normal [Sample.bella]
  /\ exists result,
       HomeView.filterStage (H := SimpleHost.host) "DATE_FILTER" "2024-06"
         (Sample.clock 0) [Sample.bella; Sample.undated; Sample.apollo]
       = Normal result
       /\ ~ In Sample.undated result.
Proof.
  split.
  - apply (proj2 (proj2
             (date_filter_prefix (H := SimpleHost.host) "2024-05"
                (Sample.clock 0) []))); reflexivity.
  - destruct (proj1
                (date_filter_prefix (H := SimpleHost.host) "2024-06"
                   (Sample.clock 0)
                   [Sample.bella; Sample.undated; Sample.apollo]))
      as (result & Hrun & _ & _ & Hnull); [discriminate |].
    exists result. split; [exact Hrun |]. apply Hnull. reflexivity.
Defined.

(** C4.  The sort step orders the list by the comparator named by
    [sortOption]: the result is a rearrangement of the input in which every
    item stands in that order to every later one (more recently created
    first for DATE_DESC, older first for DATE_ASC, names ascending for
    NAME_ASC, descending for NAME_DESC).  For Bella created at [T0] and
    Apollo created one day later, NAME_ASC and DATE_DESC both give Apollo,
    Bella.  Creation timestamps are taken to be valid dates and the
    collation to be consistent, as ECMAScript requires. *)
Theorem sort_step_orders {H : Host} (HC : ConsistentCollation H) :
  (forall sortOption l,
      (sortsByDate sortOption = true -> Forall hasCreatedTime l) ->
      Permutation (HomeView.sortStep sortOption l) l
      /\ StronglySorted (inSortOrder sortOption)
                        (HomeView.sortStep sortOption l))
  /\ (forall bella apollo T0,
        Doll.name bella = "Bella" ->
        Doll.name apollo = "Apollo" ->
        localeCompare "Apollo" "Bella" < 0 ->
        createdTime bella = Some T0 ->
        createdTime apollo = Some (T0 + 86400 * 1000) ->
        HomeView.sortStep NAME_ASC [bella; apollo] = [apollo; bella]
        /\ HomeView.sortStep DATE_DESC [bella; apollo] = [apollo; bella]).
Proof.
  split.
  - intros sortOption l Hvalid. split.
    + apply sortStep_perm.
    + apply sortStep_StronglySorted; assumption.
  - intros bella apollo T0 Hb Ha Hlt Htb Hta.
    unfold HomeView.sortStep, createdTime in *. simpl.
    unfold SortCompare, HomeView.compareFn, num_sub.
    rewrite Hb, Ha, Htb, Hta.
    pose proof (collation_lt_gt H HC _ _ Hlt) as Hgt.
    split.
    + destruct (Z.leb_spec (localeCompare "Bella" "Apollo") 0);
        [lia | reflexivity].
    + destruct (Z.leb_spec (T0 + 86400 * 1000 - T0) 0); [lia | reflexivity].
Qed.

Lemma sort_step_orders_witness :
  (HomeView.sortStep (H := SimpleHost.host) NAME_ASC
     [Sample.bella; Sample.apollo] = [Sample.apollo; Sample.bella]
   /\ HomeView.sortStep (H := SimpleHost.host) DATE_DESC
        [Sample.bella; Sample.apollo] = [Sample.apollo; Sample.bella])
  /\ StronglySorted (inSortOrder (H := SimpleHost.host) DATE_ASC)
       (HomeView.sortStep (H := SimpleHost.host) DATE_ASC
          [Sample.apollo; Sample.undated; Sample.bella]).
Proof.
  split.
  - apply (proj2 (sort_step_orders SimpleHost_consistent)
             Sample.bella Sample.apollo 1714521600000); reflexivity.
  - apply (proj1 (sort_step_orders SimpleHost_consistent) DATE_ASC).
    intros _. repeat constructor; discriminate.
Defined.

(** C5.  The sort step is stable: for every [sortOption] and every list
    whose creation timestamps are valid dates (when sorting by date), the
    items that share a sort key appear in the result in the order they had
    in the input; in particular, of two items with equal keys, the one that
    came first still comes first.  The collation is taken to be consistent,
    as ECMAScript requires.  These are the conditions under which the
    comparator is consistent, so that the order is the same in every
    engine. *)
Theorem sort_step_stable {H : Host} (HC : ConsistentCollation H)
    (sortOption : SortOption) (l : list Doll.t) :
  (sortsByDate sortOption = true -> Forall hasCreatedTime l) ->
  Js.consistentOn (HomeView.compareFn sortOption) l
  /\ (forall x,
        filter (sameSortKey sortOption x) (HomeView.sortStep sortOption l)
        = filter (sameSortKey sortOption x) l)
  /\ (forall l1 a l2 b l3,
        l = (l1 ++ a :: l2 ++ b :: l3)%list ->
        sameSortKey sortOption a b = true ->
        exists m1 m2 m3,
          HomeView.sortStep sortOption l = (m1 ++ a :: m2 ++ b :: m3)%list).
Proof.
  intro Hvalid.
  split; [apply compareFn_consistentOn; assumption |].
  split.
  - intro x. apply sortStep_filter_sameSortKey. exact HC.
  - intros l1 a l2 b l3 -> Hab.
    apply (filter_order_inv (sameSortKey sortOption a) _
             (filter (sameSortKey sortOption a) l1)
             (filter (sameSortKey sortOption a) l2)
             (filter (sameSortKey sortOption a) l3)).
    rewrite (sortStep_filter_sameSortKey HC).
    rewrite filter_app. simpl. rewrite (sameSortKey_refl HC).
    rewrite filter_app. simpl. rewrite Hab. reflexivity.
Qed.

Lemma sort_step_stable_witness :
  filter (sameSortKey (H := SimpleHost.host) DATE_DESC Sample.undated)
    (HomeView.sortStep (H := SimpleHost.host) DATE_DESC
       [Sample.bella; Sample.undated; Sample.apollo])
  = [Sample.undated; Sample.apollo]
  /\ exists m1 m2 m3,
       HomeView.sortStep (H := SimpleHost.host) NAME_ASC
         [Sample.bella; Sample.apollo; Sample.undated; Sample.bella]
       = (m1 ++ Sample.bella :: m2 ++ Sample.bella :: m3)%list.
Proof.
  split.
  - rewrite (proj1 (proj2 (sort_step_stable SimpleHost_consistent DATE_DESC
                             [Sample.bella; Sample.undated; Sample.apollo]
                             (fun _ => ltac:(repeat constructor;
                                             discriminate))))).
    reflexivity.
  - apply (proj2 (proj2 (sort_step_stable SimpleHost_consistent NAME_ASC
                           [Sample.bella; Sample.apollo; Sample.undated;
                            Sample.bella]
                           (fun Hdate => ltac:(discriminate Hdate))))
             [] Sample.bella [Sample.apollo; Sample.undated] Sample.bella []);
      reflexivity.
Defined.

(** C6.  Sorting is idempotent: a list already sorted under [sortOption]
    is returned unchanged by the sort step under the same [sortOption];
    so sorting twice is sorting once.  As for the order itself, the
    creation timestamps are taken to be valid dates (when sorting by date)
    and the collation to be consistent: then the comparator is consistent
    on the list and the result is the same in every engine. *)
Theorem sort_step_idempotent {H : Host} (HC : ConsistentCollation H)
    (sortOption : SortOption) (l : list Doll.t) :
  (sortsByDate sortOption = true -> Forall hasCreatedTime l) ->
  Js.consistentOn (HomeView.compareFn sortOption) l
  /\ (sortedUnder sortOption l -> HomeView.sortStep sortOption l = l)
  /\ HomeView.sortStep sortOption (HomeView.sortStep sortOption l)
     = HomeView.sortStep sortOption l.
Proof.
  intro Hvalid.
  split; [apply compareFn_consistentOn; assumption |].
  split.
  - apply sort_of_sorted.
  - apply sort_of_sorted. apply sortStep_sortedUnder. exact HC.
Qed.

Lemma sort_step_idempotent_witness :
  HomeView.sortStep (H := SimpleHost.host) NAME_ASC
    [Sample.apollo; Sample.bella; Sample.undated]
  = [Sample.apollo; Sample.bella; Sample.undated]
  /\ HomeView.sortStep (H := SimpleHost.host) DATE_DESC
       (HomeView.sortStep (H := SimpleHost.host) DATE_DESC
          [Sample.bella; Sample.undated; Sample.apollo])
     = HomeView.sortStep (H := SimpleHost.host) DATE_DESC
         [Sample.bella; Sample.undated; Sample.apollo].
Proof.
  split.
  - apply (proj1 (proj2 (sort_step_idempotent SimpleHost_consistent NAME_ASC
                           [Sample.apollo; Sample.bella; Sample.undated]
                           (fun Hdate => ltac:(discriminate Hdate))))).
    repeat constructor; vm_compute; discriminate.
  - exact (proj2 (proj2 (sort_step_idempotent SimpleHost_consistent DATE_DESC
                           [Sample.bella; Sample.undated; Sample.apollo]
                           (fun _ => ltac:(repeat constructor;
                                           discriminate))))).
Defined.

(** C7.  For every list of items, search text and filter, the search and
    filter stages return, without error, a list whose items all come from
    the input and that is no longer than the input; so does the whole memo.
    An empty input gives an empty result. *)
Theorem search_filter_subset {H : Host} (items : list Doll.t)
    (searchQuery activeFilter dateFilterValue : string)
    (sortOption : SortOption) (clock : nat -> Z) :
  (exists result,
      Js.bind (HomeView.searchStage searchQuery items)
              (HomeView.filterStage activeFilter dateFilterValue clock)
      = Normal result
      /\ incl result items
      /\ (List.length result <= List.length items)%nat)
  /\ (exists result,
        HomeView.processedDolls items activeFilter dateFilterValue
          sortOption searchQuery clock = Normal result
        /\ incl result items
        /\ (List.length result <= List.length items)%nat)
  /\ Js.bind (HomeView.searchStage searchQuery [])
             (HomeView.filterStage activeFilter dateFilterValue clock)
     = Normal []
  /\ HomeView.processedDolls [] activeFilter dateFilterValue
       sortOption searchQuery clock = Normal [].
Proof.
  assert (Hstages : forall l, exists result,
            Js.bind (HomeView.searchStage searchQuery l)
                    (HomeView.filterStage activeFilter dateFilterValue clock)
            = Normal result
            /\ incl result l
            /\ (List.length result <= List.length l)%nat).
  { intro l. rewrite searchStage_total. simpl.
    set (found := if String.eqb searchQuery "" then l
                  else filter (searchMatches searchQuery) l).
    assert (Hfound : incl found l
                     /\ (List.length found <= List.length l)%nat).
    { subst found. destruct (String.eqb searchQuery "").
      - split; [apply incl_refl | lia].
      - split; [apply incl_filter | apply filter_length_le]. }
    destruct (filterStage_total activeFilter dateFilterValue clock found)
      as (result & Hrun & Hincl & Hlen).
    exists result. split; [exact Hrun |]. destruct Hfound as [Hi Hl].
    split; [| lia]. eapply incl_tran; eassumption. }
  assert (Hmemo : forall l, exists result,
            HomeView.processedDolls l activeFilter dateFilterValue
              sortOption searchQuery clock = Normal result
            /\ incl result l
            /\ (List.length result <= List.length l)%nat).
  { intro l. destruct (Hstages l) as (r & Hrun & Hincl & Hlen).
    exists (HomeView.sortStep sortOption r).
    unfold HomeView.processedDolls. cbv zeta.
    unfold Js.bind in Hrun |- *.
    destruct (HomeView.searchStage searchQuery l) as [found | e];
      [| discriminate].
    rewrite Hrun. split; [reflexivity |]. split.
    - intros d Hd. apply Hincl.
      apply (sort_In (HomeView.compareFn sortOption) r d). exact Hd.
    - rewrite (Permutation_length (sortStep_perm sortOption r)). exact Hlen. }
  assert (Hnil : forall r : list Doll.t, incl r [] -> r = []).
  { intros r Hr. destruct r as [| d r]; [reflexivity |].
    destruct (Hr d (or_introl eq_refl)). }
  split; [apply Hstages |]. split; [apply Hmemo |]. split.
  - destruct (Hstages []) as (r & Hrun & Hincl & _).
    rewrite Hrun. f_equal. apply Hnil. exact Hincl.
  - destruct (Hmemo []) as (r & Hrun & Hincl & _).
    rewrite Hrun. f_equal. apply Hnil. exact Hincl.
Qed.

(** C8.  When the form is submitted without an image or with an empty
    size set, the create operation ends with a validation message before
    any collaborator is called: the only calls are [preventDefault] and the
    [alert], there is no compression, upload or insert, and the component
    state is unchanged. *)
Theorem submit_validation (collab : HomeView.Collaborators)
    (currentTopic_id : string) (st : HomeView.State) :
  NewDollForm.imageFile (HomeView.formData st) = None
  \/ NewDollForm.size (HomeView.formData st) = [] ->
  exists message,
    HomeView.handleSubmit collab currentTopic_id st
    = (Normal tt, st, [HomeView.preventDefault; HomeView.alert message])
    /\ (message = "Image is required."
        \/ message = "Please select at least one size.")
    /\ forallb (fun c => negb (HomeView.isCollaboratorCall c))
               [HomeView.preventDefault; HomeView.alert message] = true.
Proof.
  intro Hinvalid. unfold HomeView.handleSubmit, Effect.bind, Effect.call,
    Effect.get.
  destruct (NewDollForm.imageFile (HomeView.formData st)) as [imageFile |]
    eqn:Himage.
  - destruct Hinvalid as [Hnone | Hsize]; [discriminate |].
    rewrite Hsize. simpl. eexists. split; [reflexivity |].
    split; [right; reflexivity | reflexivity].
  - simpl. eexists. split; [reflexivity |].
    split; [left; reflexivity | reflexivity].
Qed.

Lemma submit_validation_witness :
  (exists message,
     HomeView.handleSubmit Sample.collaborators "topic-1"
       (Sample.state (Sample.form [] (Some Sample.photo)))
     = (Normal tt, Sample.state (Sample.form [] (Some Sample.photo)),
        [HomeView.preventDefault; HomeView.alert message]))
  /\ (exists message,
        HomeView.handleSubmit Sample.collaborators "topic-1"
          (Sample.state (Sample.form ["Normal"] None))
        = (Normal tt, Sample.state (Sample.form ["Normal"] None),
           [HomeView.preventDefault; HomeView.alert message])).
Proof.
  split.
  - destruct (submit_validation Sample.collaborators "topic-1"
                (Sample.state (Sample.form [] (Some Sample.photo)))
                (or_intror eq_refl)) as (message & Hrun & _).
    exists message. exact Hrun.
  - destruct (submit_validation Sample.collaborators "topic-1"
                (Sample.state (Sample.form ["Normal"] None))
                (or_introl eq_refl)) as (message & Hrun & _).
    exists message. exact Hrun.
Defined.

(** A valid form does reach the collaborators, in the order compression,
    upload, public URL, insert, refetch. *)
Example submit_valid_form :
  HomeView.handleSubmit Sample.collaborators "topic-1"
    (Sample.state (Sample.form ["Normal"; "Small"] (Some Sample.photo)))
  = (Normal tt,
     {| HomeView.loading := false; HomeView.isAddModalOpen := false;
        HomeView.formData :=
          {| NewDollForm.name := ""; NewDollForm.description := "";
             NewDollForm.size := ["Normal"]; NewDollForm.category_id := "";
             NewDollForm.catch_date := "2024-05-01";
             NewDollForm.imageFile := None |} |},
     [HomeView.preventDefault;
      HomeView.compressImage Sample.photo;
      HomeView.storage_upload "images" "1714521600000.jpg"
        {| File.name := "photo.jpg"; File.type := "image/jpeg";
           File.content := "" |};
      HomeView.storage_getPublicUrl "images" "1714521600000.jpg";
      HomeView.dolls_insert
        {| HomeView.row_name := "Bella"; HomeView.row_description := "";
           HomeView.row_size := "Normal, Small";
           HomeView.row_category_id := None;
           HomeView.row_topic_id := "topic-1";
           HomeView.row_catch_date := "2024-05-03";
           HomeView.row_image_url := "https://example.org/1714521600000.jpg" |};
      HomeView.fetchData]).
Proof. vm_compute. reflexivity. Qed.

(** C9.  Whatever fails inside [identifyDoll] or [suggestCategory] (reading
    the file, the request to the model, parsing the answer, reading a
    property of the parsed answer), the function returns normally after
    logging the error: with the placeholder object of empty name, empty
    description and size "Normal", respectively with the category
    "Unknown".  No exception reaches the caller, and the surrounding flow
    goes on: [handleAiAutofill] and [handleAiScan] return normally with
    their loading flag back to false whatever the service does, and after
    a failure of the service neither shows its failure alert;
    [handleAiAutofill] then keeps the name and the description of the form
    and sets the size Normal, [handleAiScan] puts "Unknown" into the name
    field. *)
Theorem ai_failures_absorbed (svc : GeminiService.Service) (file : File.t) :
  (exists v trace,
      GeminiService.identifyDoll svc file tt = (Normal v, tt, trace))
  /\ (exists v trace,
        GeminiService.suggestCategory svc file tt = (Normal v, tt, trace))
  /\ (forall e trace,
        GeminiService.identifyDoll_try svc file tt = (Throw e, tt, trace) ->
        GeminiService.identifyDoll svc file tt
        = (Normal
             (GeminiService.JObject
                [("name", GeminiService.JString "");
                 ("description", GeminiService.JString "");
                 ("size", GeminiService.JString "Normal")]),
           tt,
           (trace ++ [GeminiService.console_error "Gemini Error:" e])%list))
  /\ (forall e trace,
        GeminiService.suggestCategory_try svc file tt = (Throw e, tt, trace) ->
        GeminiService.suggestCategory svc file tt
        = (Normal (GeminiService.JString "Unknown"), tt,
           (trace ++ [GeminiService.console_error "Gemini Error:" e])%list))
  /\ (forall whileWaiting st,
        HomeViewAutofill.imageFile (HomeViewAutofill.formData st)
        = Some file ->
        exists st' trace,
          HomeViewAutofill.handleAiAutofill svc whileWaiting st
          = (Normal tt, st', trace)
          /\ HomeViewAutofill.isAiLoading st' = false
          /\ (forall e t0,
                GeminiService.identifyDoll_try svc file tt
                = (Throw e, tt, t0) ->
                (forall message,
                    ~ In (HomeViewAutofill.alert message) trace)
                /\ HomeViewAutofill.name (HomeViewAutofill.formData st')
                   = HomeViewAutofill.name
                       (whileWaiting (HomeViewAutofill.formData st))
                /\ HomeViewAutofill.description
                     (HomeViewAutofill.formData st')
                   = HomeViewAutofill.description
                       (whileWaiting (HomeViewAutofill.formData st))
                /\ HomeViewAutofill.size (HomeViewAutofill.formData st')
                   = ["Normal"]))
  /\ (forall st,
        exists suggestion trace,
          CategoryView.handleAiScan svc file st
          = (Normal tt,
             CategoryView.setIsAiLoading false
               (CategoryView.setNewCategoryName suggestion st),
             trace)
          /\ (forall message, ~ In (CategoryView.alert message) trace)
          /\ (forall e t0,
                GeminiService.suggestCategory_try svc file tt
                = (Throw e, tt, t0) ->
                suggestion = GeminiService.JString "Unknown")).
Proof.
  split; [| split; [| split; [| split; [| split]]]].
  - destruct (identifyDoll_result svc file) as (v & t & Hrun & _).
    exists v, t. exact Hrun.
  - destruct (suggestCategory_result svc file) as (v & t & Hrun & _).
    exists v, t. exact Hrun.
  - intros e trace Hthrow.
    unfold GeminiService.identifyDoll, Effect.try_catch. rewrite Hthrow.
    reflexivity.
  - intros e trace Hthrow.
    unfold GeminiService.suggestCategory, Effect.try_catch. rewrite Hthrow.
    reflexivity.
  - intros whileWaiting st Himage.
    destruct (identifyDoll_result svc file) as (v & t & Hrun & Hfallback).
    assert (Hquiet : forall message,
              ~ In (HomeViewAutofill.alert message)
                  (map HomeViewAutofill.gemini t)).
    { intros message Hin.
      apply in_map_iff in Hin. destruct Hin as (c & Hc & _). discriminate. }
    unfold HomeViewAutofill.handleAiAutofill.
    unfold Effect.bind at 1. unfold Effect.get at 1. cbv zeta.
    rewrite Himage.
    unfold Effect.try_catch_finally, Effect.bind, Effect.call, Effect.await,
      Effect.modify, HomeViewAutofill.liftGemini.
    rewrite Hrun.
    destruct (HomeViewSizes.newSizes
                (HomeViewAutofill.size (HomeViewAutofill.formData st)) v)
      as [sizes | e] eqn:Hsizes.
    + destruct (newSizes_reads _ _ _ "name" Hsizes) as (aiName & Hname).
      destruct (newSizes_reads _ _ _ "description" Hsizes)
        as (aiDescription & Hdescription).
      rewrite Hname, Hdescription. cbn.
      do 2 eexists. split; [reflexivity |]. split; [reflexivity |].
      intros e t0 Hthrow. specialize (Hfallback e t0 Hthrow). subst v.
      cbn in Hname, Hdescription, Hsizes.
      injection Hname as <-. injection Hdescription as <-.
      injection Hsizes as <-.
      split; [| repeat split].
      intros message Hin. rewrite !app_nil_r in Hin. exact (Hquiet _ Hin).
    + cbn. do 2 eexists. split; [reflexivity |]. split; [reflexivity |].
      intros e0 t0 Hthrow. specialize (Hfallback e0 t0 Hthrow). subst v.
      cbn in Hsizes. discriminate.
  - intro st.
    destruct (suggestCategory_result svc file)
      as (v & t & Hrun & _ & Hunknown).
    exists v, (map CategoryView.gemini t ++ [] ++ [])%list.
    split; [| split; [| exact Hunknown]].
    + unfold CategoryView.handleAiScan, Effect.try_catch_finally,
        Effect.bind, Effect.modify, CategoryView.liftGemini.
      rewrite Hrun. cbn -[app]. rewrite app_nil_r. reflexivity.
    + intros message Hin. rewrite !app_nil_r in Hin.
      apply in_map_iff in Hin. destruct Hin as (c & Hc & _). discriminate.
Qed.

Lemma ai_failures_absorbed_witness :
  GeminiService.identifyDoll Sample.service_down Sample.photo tt
  = (Normal
       (GeminiService.JObject
          [("name", GeminiService.JString "");
           ("description", GeminiService.JString "");
           ("size", GeminiService.JString "Normal")]),
     tt,
     [GeminiService.readAsDataURL Sample.photo;
      GeminiService.generateContent
        (Sample.request ["name"; "description"; "size"]);
      GeminiService.console_error "Gemini Error:" (Rejected "503")])
  /\ GeminiService.suggestCategory Sample.service_null Sample.photo tt
     = (Normal (GeminiService.JString "Unknown"), tt,
        [GeminiService.readAsDataURL Sample.photo;
         GeminiService.generateContent (Sample.request ["category"]);
         GeminiService.console_error "Gemini Error:" TypeError])
  /\ exists st' trace,
       HomeViewAutofill.handleAiAutofill Sample.service_down (fun f => f)
         {| HomeViewAutofill.formData :=
              {| HomeViewAutofill.name := GeminiService.JString "Bella";
                 HomeViewAutofill.description := GeminiService.JString "";
                 HomeViewAutofill.size := ["Small"];
                 HomeViewAutofill.category_id := "";
                 HomeViewAutofill.catch_date := "2024-05-03";
                 HomeViewAutofill.imageFile := Some Sample.photo |};
            HomeViewAutofill.isAiLoading := false |}
       = (Normal tt, st', trace)
       /\ HomeViewAutofill.isAiLoading st' = false.
Proof.
  split; [| split].
  - apply (proj1 (proj2 (proj2
             (ai_failures_absorbed Sample.service_down Sample.photo)))
             (Rejected "503")
             [GeminiService.readAsDataURL Sample.photo;
              GeminiService.generateContent
                (Sample.request ["name"; "description"; "size"])]).
    reflexivity.
  - apply (proj1 (proj2 (proj2 (proj2
             (ai_failures_absorbed Sample.service_null Sample.photo))))
             TypeError
             [GeminiService.readAsDataURL Sample.photo;
              GeminiService.generateContent (Sample.request ["category"])]).
    reflexivity.
  - destruct (proj1 (proj2 (proj2 (proj2 (proj2
                (ai_failures_absorbed Sample.service_down Sample.photo)))))
                (fun f => f)
                {| HomeViewAutofill.formData :=
                     {| HomeViewAutofill.name :=
                          GeminiService.JString "Bella";
                        HomeViewAutofill.description :=
                          GeminiService.JString "";
                        HomeViewAutofill.size := ["Small"];
                        HomeViewAutofill.category_id := "";
                        HomeViewAutofill.catch_date := "2024-05-03";
                        HomeViewAutofill.imageFile := Some Sample.photo |};
                   HomeViewAutofill.isAiLoading := false |}
                eq_refl)
      as (st' & trace & Hrun & Hdone & _).
    exists st', trace. split; [exact Hrun | exact Hdone].
Defined.

(** C10.  The search stage is total over items whose description is
    [null]: for a non-empty query the callback returns normally on such an
    item, with the answer whether the lower-cased name contains the
    lower-cased query; the item is kept by the stage exactly in that case.
    On every item, whatever its description, the callback returns
    normally. *)
Theorem search_null_description {H : Host} (searchQuery : string)
    (d : Doll.t) :
  searchQuery <> "" ->
  Doll.description d = None ->
  HomeView.searchPredicate searchQuery d
  = Normal (includes (toLowerCase (Doll.name d)) (toLowerCase searchQuery))
  /\ (forall items, exists result,
        HomeView.searchStage searchQuery items = Normal result
        /\ (In d result <->
            In d items /\
            includes (toLowerCase (Doll.name d)) (toLowerCase searchQuery)
            = true))
  /\ (forall d', exists keep,
        HomeView.searchPredicate searchQuery d' = Normal keep).
Proof.
  intros Hquery Hnull.
  assert (Hmatch : searchMatches searchQuery d
                   = includes (toLowerCase (Doll.name d))
                              (toLowerCase searchQuery)).
  { unfold searchMatches. rewrite Hnull. simpl. apply orb_false_r. }
  split; [| split].
  - rewrite searchPredicate_total, Hmatch. reflexivity.
  - intro items. rewrite searchStage_total.
    destruct (String.eqb_spec searchQuery "") as [-> | _]; [congruence |].
    eexists. split; [reflexivity |].
    rewrite filter_In, Hmatch. reflexivity.
  - intro d'. eexists. apply searchPredicate_total.
Qed.

Lemma search_null_description_witness :
  HomeView.searchPredicate (H := SimpleHost.host) "BELL" Sample.bella
  = Normal true
  /\ HomeView.searchPredicate (H := SimpleHost.host) "bear" Sample.bella
     = Normal false.
Proof.
  split.
  - apply (proj1 (search_null_description (H := SimpleHost.host)
                    "BELL" Sample.bella ltac:(discriminate) eq_refl)).
  - apply (proj1 (search_null_description (H := SimpleHost.host)
                    "bear" Sample.bella ltac:(discriminate) eq_refl)).
Defined.

(** * Further properties of the code *)

(** ** The view engine *)

Section ViewEngine.
Context {H : Host}.

Lemma filter_filter {A : Type} (f g : A -> bool) (l : list A) :
  filter g (filter f l) = filter (fun x => f x && g x) l.
Proof.
  induction l as [| x l IH]; simpl; [reflexivity |].
  destruct (f x); simpl; [| exact IH].
  destruct (g x); rewrite IH; reflexivity.
Qed.

Lemma filter_true {A : Type} (l : list A) : filter (fun _ => true) l = l.
Proof. induction l as [| x l IH]; simpl; [| rewrite IH]; reflexivity. Qed.

Lemma filterNew_constant_clock (now : Z) (k : nat) (l : list Doll.t) :
  HomeView.filterNew (fun _ => now) k l = filter (DollCard.isNew now) l.
Proof.
  revert k. induction l as [| d l IH]; intro k; simpl; [reflexivity |].
  rewrite newPredicate_isNew, IH. reflexivity.
Qed.

Lemma filterStage_passesFilter (activeFilter dateFilterValue : string)
    (now : Z) (l : list Doll.t) :
  HomeView.filterStage activeFilter dateFilterValue (fun _ => now) l
  = Normal (filter (ViewRules.passesFilter activeFilter dateFilterValue now) l).
Proof.
  unfold HomeView.filterStage, ViewRules.passesFilter.
  destruct (String.eqb activeFilter "NEW").
  { rewrite filterNew_constant_clock. reflexivity. }
  destruct (String.eqb activeFilter "DATE_FILTER").
  { rewrite truthy_Some.
    destruct (String.eqb_spec dateFilterValue "") as [-> | Hset]; simpl.
    - rewrite filter_true. reflexivity.
    - apply Array_filter_pure. intro d. apply datePredicate_total.
      exact Hset. }
  destruct (String.eqb activeFilter "ALL"); simpl.
  - rewrite filter_true. reflexivity.
  - reflexivity.
Qed.

End ViewEngine.

(** X1.  Filtering by a category keeps exactly the items whose category
    identifier is the active filter; an item without a category is never
    kept.  The words NEW, DATE_FILTER and ALL are never read as category
    identifiers: under ALL every item is kept, whatever its category. *)
Theorem category_filter_exact {H : Host} (activeFilter dateFilterValue : string)
    (clock : nat -> Z) (items : list Doll.t) :
  ViewRules.isReserved activeFilter = false ->
  exists result,
    HomeView.filterStage activeFilter dateFilterValue clock items
    = Normal result
    /\ (forall d, In d result <->
                  In d items /\ Doll.category_id d = Some activeFilter)
    /\ (forall d, Doll.category_id d = None -> ~ In d result)
    /\ HomeView.filterStage "ALL" dateFilterValue clock items = Normal items.
Proof.
  unfold ViewRules.isReserved. intro Hfree.
  apply orb_false_iff in Hfree. destruct Hfree as [Hfree Hall].
  apply orb_false_iff in Hfree. destruct Hfree as [Hnew Hdate].
  assert (Hin : forall d,
            In d (filter (HomeView.categoryPredicate activeFilter) items) <->
            In d items /\ Doll.category_id d = Some activeFilter).
  { intro d. rewrite filter_In. unfold HomeView.categoryPredicate.
    destruct (Doll.category_id d) as [c |].
    - rewrite String.eqb_eq. split; intros [Hd Hc]; (split; [exact Hd |]);
        congruence.
    - split; intros [_ Hc]; discriminate. }
  exists (filter (HomeView.categoryPredicate activeFilter) items).
  split; [| split; [exact Hin | split]].
  - unfold HomeView.filterStage. rewrite Hnew, Hdate, Hall. reflexivity.
  - intros d Hnull Hd. apply Hin in Hd. destruct Hd as [_ Hc]. congruence.
  - reflexivity.
Qed.

Lemma category_filter_exact_witness :
  exists result,
    HomeView.filterStage (H := SimpleHost.host) "cat-7" "" (Sample.clock 0)
      [Sample.bella; Sample.apollo] = Normal result
    /\ ~ In Sample.bella result.
Proof.
  destruct (category_filter_exact (H := SimpleHost.host) "cat-7" ""
              (Sample.clock 0) [Sample.bella; Sample.apollo] eq_refl)
    as (result & Hrun & _ & Hnull & _).
  exists result. split; [exact Hrun |]. apply Hnull. reflexivity.
Defined.

(** X2.  When the clock does not advance while the view is computed, the
    view shows exactly the items that pass the search and the active
    filter, each as often as it occurs in the input, and it never fails:
    the three stages amount to one selection followed by the sort. *)
Theorem view_shows_exactly_the_matches {H : Host} (dolls : list Doll.t)
    (activeFilter dateFilterValue : string) (sortOption : SortOption)
    (searchQuery : string) (now : Z) :
  exists result,
    HomeView.processedDolls dolls activeFilter dateFilterValue sortOption
      searchQuery (fun _ => now) = Normal result
    /\ result
       = HomeView.sortStep sortOption
           (filter (ViewRules.shown searchQuery activeFilter dateFilterValue
                      now) dolls)
    /\ Permutation result
         (filter (ViewRules.shown searchQuery activeFilter dateFilterValue
                    now) dolls)
    /\ (forall d, In d result <->
                  In d dolls /\
                  ViewRules.shown searchQuery activeFilter dateFilterValue
                    now d = true).
Proof.
  eexists. split; [| split; [reflexivity | split]].
  - unfold HomeView.processedDolls. cbv zeta.
    rewrite searchStage_total. simpl.
    rewrite filterStage_passesFilter. simpl. f_equal. f_equal.
    unfold ViewRules.shown, ViewRules.passesSearch.
    destruct (String.eqb searchQuery ""); simpl.
    + reflexivity.
    + apply filter_filter.
  - apply sortStep_perm.
  - intro d. rewrite <- filter_In.
    split; apply Permutation_in;
      [apply sortStep_perm | apply Permutation_sym, sortStep_perm].
Qed.

Section ReverseOrder.
Context {A : Type}.

Lemma StronglySorted_snoc (R : A -> A -> Prop) (m : list A) (x : A) :
  StronglySorted R m -> Forall (fun y => R y x) m ->
  StronglySorted R (m ++ [x]).
Proof.
  induction 1 as [| y m Hsorted IH Hall]; intro Hx; simpl.
  - repeat constructor.
  - inversion Hx as [| ? ? Hyx Hmx]; subst. constructor.
    + apply IH. exact Hmx.
    + apply Forall_app. split; [exact Hall |]. constructor; [exact Hyx |].
      constructor.
Qed.

Lemma StronglySorted_rev (R : A -> A -> Prop) (l : list A) :
  StronglySorted R l -> StronglySorted (fun a b => R b a) (rev l).
Proof.
  induction 1 as [| x l Hsorted IH Hall]; simpl.
  - constructor.
  - apply StronglySorted_snoc; [exact IH |].
    apply Forall_rev. exact Hall.
Qed.

Lemma filter_none (f : A -> bool) (l : list A) :
  (forall z, In z l -> f z = false) -> filter f l = [].
Proof.
  induction l as [| z l IH]; intro Hnone; simpl; [reflexivity |].
  rewrite (Hnone z (or_introl eq_refl)). apply IH.
  intros z' Hz'. apply Hnone. right. exact Hz'.
Qed.

(** In a list whose elements pairwise fail [S], an element [x] is the only
    one selected by a test that implies [S _ x] and [S x _]. *)
Lemma filter_singleton (f : A -> bool) (S : A -> A -> Prop) (x : A)
    (l : list A) :
  (forall y, In y l -> f y = true -> S y x /\ S x y) ->
  f x = true ->
  ForallOrdPairs (fun a b => ~ S a b) l ->
  In x l -> filter f l = [x].
Proof.
  intros Hf Hfx Hpairs. induction Hpairs as [| y l Hy Hpairs IH]; intro Hx.
  - destruct Hx.
  - simpl. rewrite Forall_forall in Hy. destruct (f y) eqn:Hfy.
    + destruct (Hf y (or_introl eq_refl) Hfy) as [Hyx Hxy].
      destruct Hx as [-> | Hx].
      * rewrite filter_none; [reflexivity |].
        intros z Hz. destruct (f z) eqn:Hfz; [| reflexivity]. exfalso.
        destruct (Hf z (or_intror Hz) Hfz) as [_ Hxz].
        apply (Hy z Hz). exact Hxz.
      * exfalso. apply (Hy x Hx). exact Hyx.
    + destruct Hx as [-> | Hx]; [congruence |].
      apply IH; [| exact Hx].
      intros z Hz. apply Hf. right. exact Hz.
Qed.

End ReverseOrder.

Section ReverseOption.
Context {H : Host}.

Lemma compareFn_reverseOption (sortOption : SortOption) (a b : Doll.t) :
  SortCompare (HomeView.compareFn (ViewRules.reverseOption sortOption)) a b
  = SortCompare (HomeView.compareFn sortOption) b a.
Proof. destruct sortOption; reflexivity. Qed.

Lemma sortsByDate_reverseOption (sortOption : SortOption) :
  sortsByDate (ViewRules.reverseOption sortOption) = sortsByDate sortOption.
Proof. destruct sortOption; reflexivity. Qed.

End ReverseOption.

(** X3.  When no two items compare equal, sorting by the same key in the
    other direction gives the reversed list: DATE_DESC is the reverse of
    DATE_ASC and NAME_DESC the reverse of NAME_ASC.  (With ties this fails,
    since ties keep their input order in both directions.) *)
Theorem reverse_option_reverses {H : Host} (HC : ConsistentCollation H)
    (sortOption : SortOption) (l : list Doll.t) :
  (sortsByDate sortOption = true -> Forall hasCreatedTime l) ->
  ViewRules.distinctKeys sortOption l ->
  HomeView.sortStep (ViewRules.reverseOption sortOption) l
  = rev (HomeView.sortStep sortOption l).
Proof.
  intros Hvalid Hdistinct. symmetry.
  pose proof (compareFn_consistentOn HC sortOption l Hvalid) as Hcons.
  apply (sortStep_canonical HC).
  - rewrite sortsByDate_reverseOption. exact Hvalid.
  - eapply perm_trans; [apply Permutation_sym, Permutation_rev |].
    apply sortStep_perm.
  - apply (StronglySorted_weaken_on (fun _ => True)
             (fun a b =>
                SortCompare (HomeView.compareFn sortOption) b a <= 0)).
    + intros a b _ _ Hle. rewrite compareFn_reverseOption. exact Hle.
    + apply Forall_forall. trivial.
    + apply StronglySorted_rev. apply sort_StronglySorted. exact Hcons.
  - intros x Hx.
    set (f := fun y =>
                SortCompare
                  (HomeView.compareFn (ViewRules.reverseOption sortOption))
                  x y =? 0).
    assert (Hself : f x = true).
    { subst f. cbv beta. rewrite compareFn_reverseOption.
      apply (consistentOn_refl _ l x Hcons Hx). }
    assert (Hclass : forall y, In y l -> f y = true ->
              SortCompare (HomeView.compareFn sortOption) y x = 0
              /\ SortCompare (HomeView.compareFn sortOption) x y = 0).
    { intros y Hy Hfy. subst f. cbv beta in Hfy.
      rewrite compareFn_reverseOption in Hfy. apply Z.eqb_eq in Hfy.
      split; [exact Hfy |].
      destruct Hcons as (Hgt & Hlt & _).
      destruct (Z.lt_trichotomy
                  (SortCompare (HomeView.compareFn sortOption) x y) 0)
        as [L | [E | G]]; [| exact E |].
      - pose proof (Hlt x y Hx Hy L). lia.
      - pose proof (Hgt x y Hx Hy G). lia. }
    assert (Hl : filter f l = [x]).
    { apply (filter_singleton f
               (fun a b =>
                  SortCompare (HomeView.compareFn sortOption) a b = 0));
        assumption. }
    rewrite filter_rev. unfold HomeView.sortStep. rewrite sort_filter.
    + rewrite Hl. reflexivity.
    + intros y z Hy Hz Hfy Hfz.
      destruct (Hclass y Hy Hfy) as [Hyx _].
      destruct (Hclass z Hz Hfz) as [_ Hxz].
      destruct Hcons as (_ & _ & Htrans).
      apply (Htrans y x z); try assumption; lia.
Qed.

Lemma reverse_option_reverses_witness :
  HomeView.sortStep (H := SimpleHost.host) NAME_DESC
    [Sample.bella; Sample.undated; Sample.apollo]
  = rev (HomeView.sortStep (H := SimpleHost.host) NAME_ASC
           [Sample.bella; Sample.undated; Sample.apollo]).
Proof.
  apply (reverse_option_reverses SimpleHost_consistent NAME_ASC
           [Sample.bella; Sample.undated; Sample.apollo]).
  - discriminate.
  - repeat constructor; vm_compute; discriminate.
Defined.

(** ** The dimension logic, in whole pixels *)

(** The exact quotient of the shorter side is at most the cap. *)
Lemma exact_side_le_cap (L S : Z) :
  0 < L -> S <= L -> (inject_Z (1080 * S) / inject_Z L <= 1080)%Q.
Proof.
  intros HL HS.
  apply Qle_shift_div_r.
  - unfold Qlt. cbn [Qnum Qden inject_Z]. lia.
  - change 1080%Q with (inject_Z 1080).
    rewrite <- inject_Z_mult, <- Zle_Qle. nia.
Qed.

(** X4.  Whatever the natural size, neither side of the canvas exceeds
    1080 pixels, and the Numbers passed to [drawImage] exceed 1080 by two
    roundings at most; when a side of the input exceeds 1080, the longer
    side of the canvas is exactly 1080; and the logic applied to the size
    of the canvas changes nothing. *)
Theorem max_dimension_capped (W H : Z) :
  0 <= W < 2 ^ 32 -> 0 <= H < 2 ^ 32 ->
  let d := ImageFile.drawing W H in
  0 <= ImageFile.canvas_width d <= 1080
  /\ 0 <= ImageFile.canvas_height d <= 1080
  /\ (ImageFile.drawn_width d
      <= 1080 * (1 + ImageUtils.u53) * (1 + ImageUtils.u53))%Q
  /\ (ImageFile.drawn_height d
      <= 1080 * (1 + ImageUtils.u53) * (1 + ImageUtils.u53))%Q
  /\ (1080 < W \/ 1080 < H ->
      Z.max (ImageFile.canvas_width d) (ImageFile.canvas_height d) = 1080)
  /\ ImageFile.drawing (ImageFile.canvas_width d) (ImageFile.canvas_height d)
     = {| ImageFile.canvas_width := ImageFile.canvas_width d;
          ImageFile.canvas_height := ImageFile.canvas_height d;
          ImageFile.drawn_width := inject_Z (ImageFile.canvas_width d);
          ImageFile.drawn_height := inject_Z (ImageFile.canvas_height d) |}.
Proof.
  intros HW HH d.
  assert (Hsmall : forall a b : Z,
            0 <= a <= 1080 -> 0 <= b <= 1080 ->
            ImageFile.drawing a b
            = {| ImageFile.canvas_width := a; ImageFile.canvas_height := b;
                 ImageFile.drawn_width := inject_Z a;
                 ImageFile.drawn_height := inject_Z b |}).
  { intros a b Ha Hb.
    assert (Ha32 : 0 <= a < 2 ^ 32)
      by (change (2 ^ 32) with 4294967296; lia).
    assert (Hb32 : 0 <= b < 2 ^ 32)
      by (change (2 ^ 32) with 4294967296; lia).
    pose proof (drawing_cases a b Ha32 Hb32) as Hab. cbv zeta in Hab.
    destruct Hab as [(_ & Hbig & _) | [(_ & Hbig & _) | Hsame]];
      [lia | lia |].
    destruct Hsame as (_ & _ & Hdw & Hdh & Hcw & Hch).
    destruct (ImageFile.drawing a b) as [cw ch dw dh].
    cbn [ImageFile.canvas_width ImageFile.canvas_height
         ImageFile.drawn_width ImageFile.drawn_height] in *.
    congruence. }
  assert (Hcap : forall e p : Q,
            ImageUtils.twiceRounded e p -> (e <= 1080)%Q ->
            (p <= 1080 * (1 + ImageUtils.u53) * (1 + ImageUtils.u53))%Q).
  { intros e p [_ Hp] He. unfold ImageUtils.u53 in *. lra. }
  assert (Hint : forall z : Z,
            z <= 1080 ->
            (inject_Z z
             <= 1080 * (1 + ImageUtils.u53) * (1 + ImageUtils.u53))%Q).
  { intros z Hz.
    assert (Hq : (inject_Z z <= 1080)%Q)
      by (change 1080%Q with (inject_Z 1080); rewrite <- Zle_Qle; exact Hz).
    unfold ImageUtils.u53. lra. }
  pose proof (ToUint32_nonneg (ImageFile.drawn_width d)) as Hw0.
  pose proof (ToUint32_nonneg (ImageFile.drawn_height d)) as Hh0.
  pose proof (drawing_canvas W H) as [Hcw Hch]. fold d in Hcw, Hch.
  rewrite <- Hcw in Hw0. rewrite <- Hch in Hh0.
  pose proof (drawing_cases W H HW HH) as Hcases. cbv zeta in Hcases.
  fold d in Hcases.
  assert (Hfacts :
            ImageFile.canvas_width d <= 1080
            /\ ImageFile.canvas_height d <= 1080
            /\ (ImageFile.drawn_width d
                <= 1080 * (1 + ImageUtils.u53) * (1 + ImageUtils.u53))%Q
            /\ (ImageFile.drawn_height d
                <= 1080 * (1 + ImageUtils.u53) * (1 + ImageUtils.u53))%Q
            /\ (1080 < W \/ 1080 < H ->
                Z.max (ImageFile.canvas_width d) (ImageFile.canvas_height d)
                = 1080)).
  { destruct Hcases
      as [(Hlt & Hbig & Hdw & Hcw' & Hnear & _ & Hbounds & _)
         | [(Hle & Hbig & Hdh & Hch' & Hnear & _ & Hbounds & _)
           | (Hw & Hh & Hdw & Hdh & Hcw' & Hch')]].
    - assert (Hc : (1080 * H) / W <= 1080)
        by (apply Z.div_le_upper_bound; nia).
      split; [lia |]. split; [lia |].
      split; [rewrite Hdw; apply Hint; lia |].
      split; [apply (Hcap _ _ Hnear); apply exact_side_le_cap; lia |].
      intros _. lia.
    - assert (Hc : (1080 * W) / H <= 1080)
        by (apply Z.div_le_upper_bound; nia).
      split; [lia |]. split; [lia |].
      split; [apply (Hcap _ _ Hnear); apply exact_side_le_cap; lia |].
      split; [rewrite Hdh; apply Hint; lia |].
      intros _. lia.
    - split; [lia |]. split; [lia |].
      split; [rewrite Hdw; apply Hint; lia |].
      split; [rewrite Hdh; apply Hint; lia |].
      intros [Hbig | Hbig]; lia. }
  destruct Hfacts as (Hw1 & Hh1 & Hdw & Hdh & Hmax).
  split; [lia |]. split; [lia |].
  split; [exact Hdw |]. split; [exact Hdh |]. split; [exact Hmax |].
  apply Hsmall; lia.
Qed.

Lemma max_dimension_capped_witness :
  Z.max (ImageFile.canvas_width (ImageFile.drawing 1000 4000))
        (ImageFile.canvas_height (ImageFile.drawing 1000 4000)) = 1080
  /\ ImageFile.canvas_width (ImageFile.drawing 1000 4000) <= 1080.
Proof.
  destruct (max_dimension_capped 1000 4000
              ltac:(split; [discriminate | reflexivity])
              ltac:(split; [discriminate | reflexivity]))
    as ((_ & Hcw) & _ & _ & _ & Hmax & _).
  split; [apply Hmax; right; reflexivity | exact Hcw].
Defined.

(** X5.  The canvas keeps the aspect ratio of the input up to one pixel of
    the scaled side: with [w'] x [h'] the canvas, [w' * H - h' * W] lies
    between 0 and [W] when the width is the longer side, and
    [h' * W - w' * H] between 0 and [H] otherwise; it is 0 when no side
    exceeds 1080.  The Numbers passed to [drawImage] keep the ratio up to
    two roundings. *)
Theorem max_dimension_keeps_aspect_ratio (W H : Z) :
  0 <= W < 2 ^ 32 -> 0 <= H < 2 ^ 32 ->
  let d := ImageFile.drawing W H in
  (H < W ->
   0 <= ImageFile.canvas_width d * H - ImageFile.canvas_height d * W <= W
   /\ ImageUtils.twiceRounded (ImageFile.drawn_width d * inject_Z H)
        (ImageFile.drawn_height d * inject_Z W))
  /\ (W <= H ->
      0 <= ImageFile.canvas_height d * W - ImageFile.canvas_width d * H <= H
      /\ ImageUtils.twiceRounded (ImageFile.drawn_height d * inject_Z W)
           (ImageFile.drawn_width d * inject_Z H))
  /\ (W <= 1080 -> H <= 1080 ->
      ImageFile.canvas_width d * H = ImageFile.canvas_height d * W)
  /\ Z.abs (ImageFile.canvas_width d * H - ImageFile.canvas_height d * W)
     <= Z.max W H.
Proof.
  intros HW HH d.
  assert (Hscaled : forall (L S : Z) (p : Q),
            1080 < L ->
            ImageUtils.twiceRounded (inject_Z (1080 * S) / inject_Z L) p ->
            ImageUtils.twiceRounded (inject_Z 1080 * inject_Z S)
              (p * inject_Z L)).
  { intros L S p HL [Hp1 Hp2].
    assert (HLq : (0 < inject_Z L)%Q)
      by (unfold Qlt; cbn [Qnum Qden inject_Z]; lia).
    assert (He : (inject_Z (1080 * S) / inject_Z L * inject_Z L
                  == inject_Z 1080 * inject_Z S)%Q)
      by (rewrite inject_Z_mult; field; lra).
    unfold ImageUtils.twiceRounded. rewrite <- He.
    set (e := (inject_Z (1080 * S) / inject_Z L)%Q) in *.
    split.
    - setoid_replace (e * inject_Z L * (1 - ImageUtils.u53)
                      * (1 - ImageUtils.u53))%Q
        with (e * (1 - ImageUtils.u53) * (1 - ImageUtils.u53)
              * inject_Z L)%Q by ring.
      apply Qmult_le_compat_r; [exact Hp1 | apply Qlt_le_weak; exact HLq].
    - setoid_replace (e * inject_Z L * (1 + ImageUtils.u53)
                      * (1 + ImageUtils.u53))%Q
        with (e * (1 + ImageUtils.u53) * (1 + ImageUtils.u53)
              * inject_Z L)%Q by ring.
      apply Qmult_le_compat_r; [exact Hp2 | apply Qlt_le_weak; exact HLq]. }
  assert (Hsame : forall a b : Q,
            (0 <= a * b)%Q -> ImageUtils.twiceRounded (a * b) (b * a)).
  { intros a b Hx. unfold ImageUtils.twiceRounded.
    assert (Hcomm : (b * a == a * b)%Q) by ring.
    rewrite Hcomm. set (x := (a * b)%Q) in *.
    unfold ImageUtils.u53. split; nra. }
  pose proof (drawing_cases W H HW HH) as Hcases. cbv zeta in Hcases.
  fold d in Hcases.
  assert (Hnonneg : forall a b : Z, 0 <= a -> 0 <= b ->
            (0 <= inject_Z a * inject_Z b)%Q).
  { intros a b Ha Hb. rewrite <- inject_Z_mult.
    change 0%Q with (inject_Z 0). rewrite <- Zle_Qle. nia. }
  destruct Hcases
    as [(Hlt & Hbig & Hdw & Hcw & Hnear & _ & Hbounds & Hexact)
       | [(Hle & Hbig & Hdh & Hch & Hnear & _ & Hbounds & Hexact)
         | (Hw & Hh & Hdw & Hdh & Hcw & Hch)]].
  - pose proof (Z.div_mod (1080 * H) W ltac:(lia)) as Hdiv.
    pose proof (Z.mod_pos_bound (1080 * H) W ltac:(lia)) as Hmod.
    assert (Hpix : 0 <= ImageFile.canvas_width d * H
                        - ImageFile.canvas_height d * W <= W).
    { rewrite Hcw.
      destruct (Z.eq_dec ((1080 * H) mod W) 0) as [Hzero | Hrest].
      - rewrite Hzero in Hdiv. nia.
      - rewrite (Hexact Hrest). nia. }
    split.
    { intros _. split; [exact Hpix |].
      rewrite Hdw. apply Hscaled; assumption. }
    split; [intro; lia |]. split; [intros; lia |]. lia.
  - pose proof (Z.div_mod (1080 * W) H ltac:(lia)) as Hdiv.
    pose proof (Z.mod_pos_bound (1080 * W) H ltac:(lia)) as Hmod.
    assert (Hpix : 0 <= ImageFile.canvas_height d * W
                        - ImageFile.canvas_width d * H <= H).
    { rewrite Hch.
      destruct (Z.eq_dec ((1080 * W) mod H) 0) as [Hzero | Hrest].
      - rewrite Hzero in Hdiv. nia.
      - rewrite (Hexact Hrest). nia. }
    split; [intro; lia |].
    split.
    { intros _. split; [exact Hpix |].
      rewrite Hdh. apply Hscaled; assumption. }
    split; [intros; lia |]. lia.
  - rewrite Hcw, Hch, Hdw, Hdh.
    split.
    { intros _. split; [lia |]. apply Hsame, Hnonneg; lia. }
    split.
    { intros _. split; [lia |]. apply Hsame, Hnonneg; lia. }
    split; [intros; lia |]. lia.
Qed.

Lemma max_dimension_keeps_aspect_ratio_witness :
  0 <= ImageFile.canvas_width (ImageFile.drawing 2140 1070) * 1070
       - ImageFile.canvas_height (ImageFile.drawing 2140 1070) * 2140
    <= 2140.
Proof.
  destruct (max_dimension_keeps_aspect_ratio 2140 1070
              ltac:(split; [discriminate | reflexivity])
              ltac:(split; [discriminate | reflexivity]))
    as (Hwide & _).
  exact (proj1 (Hwide eq_refl)).
Defined.

(** X6.  An image is never enlarged: neither side of the canvas, and
    neither of the Numbers passed to [drawImage], exceeds the
    corresponding side of the input. *)
Theorem max_dimension_never_enlarges (W H : Z) :
  0 <= W < 2 ^ 32 -> 0 <= H < 2 ^ 32 ->
  let d := ImageFile.drawing W H in
  ImageFile.canvas_width d <= W
  /\ ImageFile.canvas_height d <= H
  /\ (ImageFile.drawn_width d <= inject_Z W)%Q
  /\ (ImageFile.drawn_height d <= inject_Z H)%Q.
Proof.
  intros HW HH d.
  pose proof (drawing_cases W H HW HH) as Hcases. cbv zeta in Hcases.
  fold d in Hcases.
  destruct Hcases
    as [(Hlt & Hbig & Hdw & Hcw & _ & Hside & Hbounds & _)
       | [(Hle & Hbig & Hdh & Hch & _ & Hside & Hbounds & _)
         | (Hw & Hh & Hdw & Hdh & Hcw & Hch)]].
  - assert (Hc : (1080 * H) / W <= H)
      by (apply Z.div_le_upper_bound; nia).
    split; [lia |]. split; [lia |].
    split; [rewrite Hdw, <- Zle_Qle; lia | apply Hside].
  - assert (Hc : (1080 * W) / H <= W)
      by (apply Z.div_le_upper_bound; nia).
    split; [lia |]. split; [lia |].
    split; [apply Hside | rewrite Hdh, <- Zle_Qle; lia].
  - rewrite Hcw, Hch, Hdw, Hdh. repeat split; try lia; apply Qle_refl.
Qed.

Lemma max_dimension_never_enlarges_witness :
  ImageFile.canvas_width (ImageFile.drawing 3000 2000) <= 3000
  /\ ImageFile.canvas_height (ImageFile.drawing 3000 2000) <= 2000.
Proof.
  destruct (max_dimension_never_enlarges 3000 2000
              ltac:(split; [discriminate | reflexivity])
              ltac:(split; [discriminate | reflexivity]))
    as (Hcw & Hch & _).
  split; assumption.
Defined.

(** ** Strings *)

Section StringFacts.

Lemma prefix_cons (a b : ascii) (p s : string) :
  prefix (String a p) (String b s) = Ascii.eqb a b && prefix p s.
Proof.
  simpl. destruct (ascii_dec a b) as [-> | Hne].
  - rewrite Ascii.eqb_refl. reflexivity.
  - apply Ascii.eqb_neq in Hne. rewrite Hne. reflexivity.
Qed.

Lemma prefix_nil (s : string) : prefix "" s = true.
Proof. destruct s; reflexivity. Qed.

Lemma prefix_app_iff (p s : string) :
  prefix p s = true <-> exists r, s = (p ++ r)%string.
Proof.
  revert s. induction p as [| a p IH]; intro s.
  - rewrite prefix_nil. split; [intros _; exists s; reflexivity | trivial].
  - destruct s as [| b s].
    + split; [discriminate | intros (r & Hr); discriminate].
    + rewrite prefix_cons, andb_true_iff, Ascii.eqb_eq, IH. split.
      * intros [-> (r & ->)]. exists r. reflexivity.
      * intros (r & Hr). simpl in Hr. injection Hr as -> ->.
        split; [reflexivity | exists r; reflexivity].
Qed.

Lemma includes_cons (c : ascii) (s p : string) :
  includes (String c s) p = prefix p (String c s) || includes s p.
Proof. reflexivity. Qed.

Lemma includes_false_tail (c : ascii) (s p : string) :
  includes (String c s) p = false -> includes s p = false.
Proof.
  rewrite includes_cons. intro Hf. apply orb_false_iff in Hf. apply Hf.
Qed.

Lemma includes_false_prefix (s p : string) :
  includes s p = false -> prefix p s = false.
Proof.
  destruct s; simpl; intro Hf; apply orb_false_iff in Hf; apply Hf.
Qed.

Lemma append_assoc (a b c : string) :
  ((a ++ b) ++ c)%string = (a ++ (b ++ c))%string.
Proof. induction a as [| x a IH]; simpl; [| rewrite IH]; reflexivity. Qed.

Lemma append_nil_r (a : string) : (a ++ "")%string = a.
Proof. induction a as [| x a IH]; simpl; [| rewrite IH]; reflexivity. Qed.

Lemma includes_app_l (a u p : string) :
  includes a p = true -> includes (a ++ u) p = true.
Proof.
  induction a as [| c a IH]; simpl.
  - rewrite orb_false_r. intro Hp. destruct p; [| discriminate].
    destruct u; reflexivity.
  - intro Hinc. apply orb_true_iff in Hinc. apply orb_true_iff.
    destruct Hinc as [Hp | Hinc].
    + left. apply (prefix_app_iff p (String c a)) in Hp.
      destruct Hp as (r & Hr).
      apply (prefix_app_iff p (String c (a ++ u))).
      exists (r ++ u)%string.
      change (String c (a ++ u)) with (String c a ++ u)%string.
      rewrite Hr. apply append_assoc.
    + right. apply IH. exact Hinc.
Qed.

End StringFacts.

(** ** [trim] and the removal of Markdown fences *)

Section TrimFacts.
Import GeminiService.

Lemma trimStart_suffix (s : string) :
  exists u, s = (u ++ trimStart s)%string /\ Text.allWhiteSpace u = true.
Proof.
  induction s as [| c s IH]; simpl.
  - exists "". split; reflexivity.
  - destruct (isWhiteSpace c) eqn:Hc.
    + destruct IH as (u & Hu & Hws). exists (String c u). split.
      * simpl. rewrite <- Hu. reflexivity.
      * simpl. rewrite Hc. exact Hws.
    + exists "". split; reflexivity.
Qed.

Lemma trimEnd_prefix (s : string) :
  exists u, s = (trimEnd s ++ u)%string /\ Text.allWhiteSpace u = true.
Proof.
  induction s as [| c s IH]; simpl.
  - exists "". split; reflexivity.
  - destruct IH as (u & Hu & Hws).
    destruct (trimEnd s) as [| d t] eqn:Ht.
    + simpl in Hu. subst u. destruct (isWhiteSpace c) eqn:Hc.
      * exists (String c s). split; [reflexivity |].
        simpl. rewrite Hc. exact Hws.
      * exists s. split; [reflexivity | exact Hws].
    + exists u. split; [| exact Hws]. simpl. simpl in Hu. rewrite <- Hu.
      reflexivity.
Qed.

Lemma includes_false_trimStart (s p : string) :
  includes s p = false -> includes (trimStart s) p = false.
Proof.
  induction s as [| c s IH]; intro Hf; simpl; [exact Hf |].
  destruct (isWhiteSpace c); [| exact Hf].
  apply IH. eapply includes_false_tail. exact Hf.
Qed.

Lemma includes_false_trimEnd (s p : string) :
  includes s p = false -> includes (trimEnd s) p = false.
Proof.
  intro Hf. destruct (includes (trimEnd s) p) eqn:Hinc; [| reflexivity].
  destruct (trimEnd_prefix s) as (u & Hu & _).
  apply (includes_app_l _ u) in Hinc. rewrite <- Hu in Hinc. congruence.
Qed.

Lemma includes_false_trim (s p : string) :
  includes s p = false -> includes (trim s) p = false.
Proof.
  intro Hf. apply includes_false_trimEnd, includes_false_trimStart. exact Hf.
Qed.

Lemma trimStart_allWhiteSpace (u s : string) :
  Text.allWhiteSpace u = true -> trimStart (u ++ s) = trimStart s.
Proof.
  induction u as [| c u IH]; simpl; [reflexivity |].
  intro Hws. apply andb_true_iff in Hws. destruct Hws as [Hc Hu].
  rewrite Hc. apply IH. exact Hu.
Qed.

Lemma trimEnd_allWhiteSpace (u : string) :
  Text.allWhiteSpace u = true -> trimEnd u = "".
Proof.
  induction u as [| c u IH]; simpl; [reflexivity |].
  intro Hws. apply andb_true_iff in Hws. destruct Hws as [Hc Hu].
  rewrite (IH Hu), Hc. reflexivity.
Qed.

Lemma trimEnd_app_allWhiteSpace (s u : string) :
  Text.allWhiteSpace u = true -> trimEnd (s ++ u) = trimEnd s.
Proof.
  intro Hws. induction s as [| c s IH]; simpl.
  - apply trimEnd_allWhiteSpace. exact Hws.
  - rewrite IH. reflexivity.
Qed.

(** A string that does not start with white space is its own
    [trimStart]; the first character of [trimStart] is never white
    space. *)
Lemma trimStart_head (s : string) :
  match trimStart s with
  | EmptyString => True
  | String c _ => isWhiteSpace c = false
  end.
Proof.
  induction s as [| c s IH]; simpl; [trivial |].
  destruct (isWhiteSpace c) eqn:Hc; [exact IH | exact Hc].
Qed.

Lemma trimEnd_head (s : string) :
  match s with
  | EmptyString => True
  | String c _ => isWhiteSpace c = false
  end ->
  match trimEnd s with
  | EmptyString => s = ""
  | String c _ => isWhiteSpace c = false
  end.
Proof.
  destruct s as [| c s]; simpl; [reflexivity |].
  intro Hc. destruct (trimEnd s); [rewrite Hc |]; exact Hc.
Qed.

Lemma trimStart_fixed (s : string) :
  match s with
  | EmptyString => True
  | String c _ => isWhiteSpace c = false
  end -> trimStart s = s.
Proof. destruct s as [| c s]; simpl; [| intros ->]; reflexivity. Qed.

Lemma trimEnd_idempotent (s : string) : trimEnd (trimEnd s) = trimEnd s.
Proof.
  induction s as [| c s IH]; simpl; [reflexivity |].
  destruct (trimEnd s) as [| d t] eqn:Ht.
  - destruct (isWhiteSpace c) eqn:Hc; simpl; [| rewrite Hc]; reflexivity.
  - change (trimEnd (String c (String d t)))
      with (match trimEnd (String d t) with
            | EmptyString =>
                if isWhiteSpace c then EmptyString else String c EmptyString
            | rest' => String c rest'
            end).
    rewrite IH. reflexivity.
Qed.

Lemma trim_idempotent (s : string) : trim (trim s) = trim s.
Proof.
  unfold trim.
  pose proof (trimEnd_head (trimStart s) (trimStart_head s)) as Hhead.
  rewrite (trimStart_fixed (trimEnd (trimStart s))).
  - apply trimEnd_idempotent.
  - destruct (trimEnd (trimStart s)); [trivial | exact Hhead].
Qed.

Lemma length_trimStart (s : string) :
  (String.length (trimStart s) <= String.length s)%nat.
Proof.
  induction s as [| c s IH]; simpl; [lia |].
  destruct (isWhiteSpace c); simpl; lia.
Qed.

Lemma length_trimEnd (s : string) :
  (String.length (trimEnd s) <= String.length s)%nat.
Proof.
  induction s as [| c s IH]; simpl; [lia |].
  destruct (trimEnd s); [destruct (isWhiteSpace c) |]; simpl in *; lia.
Qed.

(** A trimmed string is fixed by both halves of [trim]. *)
Lemma trim_fixed_halves (s : string) :
  trim s = s -> trimStart s = s /\ trimEnd s = s.
Proof.
  unfold trim. intro Hfix.
  assert (Hstart : trimStart s = s).
  { destruct s as [| c s]; [reflexivity |]. simpl in *.
    destruct (isWhiteSpace c); [| reflexivity]. exfalso.
    pose proof (length_trimEnd (trimStart s)) as H1.
    pose proof (length_trimStart s) as H2.
    rewrite Hfix in H1. simpl in H1. lia. }
  split; [exact Hstart |]. rewrite Hstart in Hfix. exact Hfix.
Qed.

End TrimFacts.

Section FenceFacts.
Import GeminiService.

Lemma removeAll_absent (pat s : string) :
  includes s pat = false -> removeAll pat s = s.
Proof.
  unfold removeAll. induction s as [| c s IH]; intro Hf; [reflexivity |].
  pose proof (includes_false_prefix _ _ Hf) as Hp.
  cbn [removeAll_from]. rewrite Hp, IH; [reflexivity |].
  eapply includes_false_tail. exact Hf.
Qed.

Lemma removeAll_keep (pat : string) (c : ascii) (s : string) :
  prefix pat (String c s) = false ->
  removeAll pat (String c s) = String c (removeAll pat s).
Proof. unfold removeAll. intro Hp. cbn [removeAll_from]. rewrite Hp. reflexivity. Qed.

Lemma removeAll_from_skip (pat p s : string) :
  removeAll_from pat (String.length p) (p ++ s) = removeAll_from pat 0 s.
Proof.
  induction p as [| c p IH]; simpl; [reflexivity | exact IH].
Qed.

(** An occurrence at the start is dropped. *)
Lemma removeAll_drop (a : ascii) (p s : string) :
  removeAll (String a p) (String a p ++ s) = removeAll (String a p) s.
Proof.
  unfold removeAll. cbn [append removeAll_from].
  assert (Hp : prefix (String a p) (String a (p ++ s)) = true).
  { apply prefix_app_iff. exists s. reflexivity. }
  rewrite Hp. cbn [String.length]. rewrite Nat.sub_succ, Nat.sub_0_r.
  apply removeAll_from_skip.
Qed.

Lemma removeAll_fence_drop (s : string) :
  removeAll fence (String Text.backquote
                    (String Text.backquote (String Text.backquote s)))
  = removeAll fence s.
Proof. apply (removeAll_drop "`" "``" s). Qed.

Lemma prefix_fence_inv (s : string) :
  prefix fence s = true ->
  exists r, s = String Text.backquote
                  (String Text.backquote (String Text.backquote r)).
Proof.
  intro Hp. apply prefix_app_iff in Hp. destruct Hp as (r & ->).
  exists r. reflexivity.
Qed.

Lemma removeAll_fence_empty : removeAll fence "" = "".
Proof. reflexivity. Qed.

(** What is kept never starts a fence. *)
Lemma kept_head_no_fence (c : ascii) (s : string) :
  prefix fence (String c s) = false ->
  prefix fence (String c (removeAll fence s)) = false.
Proof.
  intro Hp. unfold fence in *.
  rewrite prefix_cons in *.
  destruct (Ascii.eqb "`" c) eqn:Hc; [| reflexivity]. simpl in Hp |- *.
  destruct s as [| d s]; [reflexivity |].
  rewrite prefix_cons in Hp.
  destruct (Ascii.eqb "`" d) eqn:Hd; simpl in Hp.
  - apply Ascii.eqb_eq in Hd. subst d.
    destruct s as [| e s]; [reflexivity |].
    rewrite prefix_cons in Hp. rewrite prefix_nil, andb_true_r in Hp.
    rewrite removeAll_keep.
    + rewrite prefix_cons, Ascii.eqb_refl. simpl.
      rewrite removeAll_keep.
      * rewrite prefix_cons, Hp. reflexivity.
      * rewrite prefix_cons, Hp. reflexivity.
    + rewrite !prefix_cons, Hp, andb_false_r. reflexivity.
  - rewrite removeAll_keep.
    + rewrite prefix_cons, Hd. reflexivity.
    + rewrite prefix_cons, Hd. reflexivity.
Qed.

Lemma removeAll_fence_clean_bounded (n : nat) (s : string) :
  (String.length s <= n)%nat -> includes (removeAll fence s) fence = false.
Proof.
  revert s. induction n as [| n IH]; intros s Hlen.
  - destruct s; [reflexivity | simpl in Hlen; lia].
  - destruct s as [| c s]; [reflexivity |].
    destruct (prefix fence (String c s)) eqn:Hp.
    + destruct (prefix_fence_inv _ Hp) as (r & Hr). rewrite Hr.
      rewrite removeAll_fence_drop. apply IH.
      rewrite Hr in Hlen. simpl in Hlen. lia.
    + rewrite (removeAll_keep _ _ _ Hp), includes_cons.
      rewrite (kept_head_no_fence _ _ Hp). simpl.
      apply IH. simpl in Hlen. lia.
Qed.

Lemma removeAll_fence_clean (s : string) :
  includes (removeAll fence s) fence = false.
Proof. apply (removeAll_fence_clean_bounded (String.length s)). lia. Qed.

(** Where there is no fence there is no opening fence either. *)
Lemma no_fence_no_fence_json (s : string) :
  includes s fence = false -> includes s fence_json = false.
Proof.
  induction s as [| c s IH]; intro Hf.
  - reflexivity.
  - rewrite includes_cons. apply orb_false_iff.
    pose proof (includes_false_prefix _ _ Hf) as Hp. split.
    + destruct (prefix fence_json (String c s)) eqn:Hj; [| reflexivity].
      apply prefix_app_iff in Hj. destruct Hj as (r & Hr).
      assert (Hp' : prefix fence (String c s) = true).
      { apply prefix_app_iff. exists ("json" ++ r)%string. rewrite Hr.
        reflexivity. }
      congruence.
    + apply IH. eapply includes_false_tail. exact Hf.
Qed.

Lemma noBackquote_no_fence (s : string) :
  Text.noBackquote s = true -> includes s fence = false.
Proof.
  induction s as [| c s IH]; simpl; [reflexivity |].
  intro Hnb. apply andb_true_iff in Hnb. destruct Hnb as [Hc Hs].
  rewrite (IH Hs), orb_false_r.
  change (prefix fence (String c s) = false).
  unfold fence. rewrite prefix_cons.
  apply negb_true_iff in Hc. rewrite Ascii.eqb_sym in Hc.
  unfold Text.backquote in Hc. rewrite Hc. reflexivity.
Qed.

Lemma noBackquote_app (a b : string) :
  Text.noBackquote (a ++ b) = Text.noBackquote a && Text.noBackquote b.
Proof.
  induction a as [| c a IH]; simpl; [reflexivity |].
  rewrite IH. apply andb_assoc.
Qed.

Lemma allWhiteSpace_noBackquote (u : string) :
  Text.allWhiteSpace u = true -> Text.noBackquote u = true.
Proof.
  induction u as [| c u IH]; simpl; [reflexivity |].
  intro Hws. apply andb_true_iff in Hws. destruct Hws as [Hc Hu].
  rewrite (IH Hu), andb_true_r. apply negb_true_iff.
  destruct (Ascii.eqb_spec c Text.backquote) as [-> | _]; [| reflexivity].
  discriminate.
Qed.

(** Removal skips over text without backquotes. *)
Lemma removeAll_app_noBackquote (pat a b : string) (p : string) :
  pat = String Text.backquote p ->
  Text.noBackquote a = true ->
  removeAll pat (a ++ b) = (a ++ removeAll pat b)%string.
Proof.
  intros -> Hnb. induction a as [| c a IH]; simpl; [reflexivity |].
  simpl in Hnb. apply andb_true_iff in Hnb. destruct Hnb as [Hc Ha].
  rewrite removeAll_keep.
  - rewrite (IH Ha). reflexivity.
  - rewrite prefix_cons. apply negb_true_iff in Hc.
    rewrite Ascii.eqb_sym in Hc. rewrite Hc. reflexivity.
Qed.

End FenceFacts.

(** X7.  The text handed to [JSON.parse] never contains a Markdown fence
    (three backquotes) and has no white space at either end; cleaning a
    cleaned text changes nothing. *)
Theorem clean_json_text_has_no_fence (text : string) :
  includes (GeminiService.cleanJsonText text) GeminiService.fence = false
  /\ GeminiService.trim (GeminiService.cleanJsonText text)
     = GeminiService.cleanJsonText text
  /\ GeminiService.cleanJsonText (GeminiService.cleanJsonText text)
     = GeminiService.cleanJsonText text.
Proof.
  assert (Hclean : includes (GeminiService.cleanJsonText text)
                            GeminiService.fence = false).
  { unfold GeminiService.cleanJsonText. cbv zeta.
    apply includes_false_trim. apply removeAll_fence_clean. }
  assert (Htrim : GeminiService.trim (GeminiService.cleanJsonText text)
                  = GeminiService.cleanJsonText text).
  { unfold GeminiService.cleanJsonText. cbv zeta. apply trim_idempotent. }
  split; [exact Hclean |]. split; [exact Htrim |].
  unfold GeminiService.cleanJsonText at 1. cbv zeta.
  rewrite (removeAll_absent GeminiService.fence_json)
    by (apply no_fence_no_fence_json; exact Hclean).
  rewrite (removeAll_absent GeminiService.fence) by exact Hclean.
  exact Htrim.
Qed.

(** X8.  A text without a fence is only trimmed; a trimmed text without a
    fence, such as a bare JSON document, is passed on unchanged. *)
Theorem clean_json_text_without_fence (text : string) :
  includes text GeminiService.fence = false ->
  GeminiService.cleanJsonText text = GeminiService.trim text
  /\ (GeminiService.trim text = text ->
      GeminiService.cleanJsonText text = text).
Proof.
  intro Hf.
  assert (Heq : GeminiService.cleanJsonText text = GeminiService.trim text).
  { unfold GeminiService.cleanJsonText. cbv zeta.
    rewrite (removeAll_absent GeminiService.fence_json)
      by (apply no_fence_no_fence_json; exact Hf).
    rewrite (removeAll_absent GeminiService.fence) by exact Hf.
    reflexivity. }
  split; [exact Heq |]. intro Htrim. rewrite Heq. exact Htrim.
Qed.

Lemma clean_json_text_without_fence_witness :
  GeminiService.cleanJsonText "  {}  " = "{}".
Proof.
  rewrite (proj1 (clean_json_text_without_fence "  {}  " eq_refl)).
  reflexivity.
Defined.

(** X9.  A fenced answer is unwrapped: for a body without backquotes and
    without white space at its ends, surrounded by white space inside an
    opening [```json] fence and a closing fence, the cleaned text is the
    body. *)
Theorem clean_json_text_unwraps (before after body : string) :
  Text.allWhiteSpace before = true ->
  Text.allWhiteSpace after = true ->
  Text.noBackquote body = true ->
  GeminiService.trim body = body ->
  GeminiService.cleanJsonText
    (GeminiService.fence_json ++ before ++ body ++ after
     ++ GeminiService.fence)%string
  = body.
Proof.
  intros Hbefore Hafter Hbody Htrim.
  unfold GeminiService.cleanJsonText. cbv zeta.
  set (inner := (before ++ body ++ after)%string).
  assert (Hinner : Text.noBackquote inner = true).
  { subst inner. rewrite !noBackquote_app, Hbody.
    rewrite (allWhiteSpace_noBackquote _ Hbefore).
    rewrite (allWhiteSpace_noBackquote _ Hafter). reflexivity. }
  assert (Hopen : GeminiService.removeAll GeminiService.fence_json
                    (GeminiService.fence_json ++ before ++ body ++ after
                     ++ GeminiService.fence)
                  = (inner ++ GeminiService.fence)%string).
  { unfold GeminiService.fence_json at 2.
    rewrite (removeAll_drop "`" "``json").
    replace (before ++ body ++ after ++ GeminiService.fence)%string
      with (inner ++ GeminiService.fence)%string
      by (subst inner; rewrite !append_assoc; reflexivity).
    rewrite (removeAll_app_noBackquote "```json" inner
               GeminiService.fence "``json" eq_refl Hinner).
    reflexivity. }
  rewrite Hopen.
  rewrite (removeAll_app_noBackquote GeminiService.fence inner
             GeminiService.fence "``" eq_refl Hinner).
  change (GeminiService.removeAll GeminiService.fence GeminiService.fence)
    with "".
  rewrite append_nil_r. subst inner.
  unfold GeminiService.trim.
  rewrite (trimStart_allWhiteSpace before _ Hbefore).
  destruct (trim_fixed_halves body Htrim) as [Hstart Hend].
  destruct body as [| c body].
  - simpl. rewrite <- (append_nil_r after).
    rewrite (trimStart_allWhiteSpace after "" Hafter). reflexivity.
  - assert (Hhead : GeminiService.isWhiteSpace c = false).
    { simpl in Hstart. destruct (GeminiService.isWhiteSpace c);
        [| reflexivity]. exfalso.
      pose proof (length_trimStart body) as Hlen.
      rewrite Hstart in Hlen. simpl in Hlen. lia. }
    rewrite (trimStart_fixed (String c body ++ after)) by exact Hhead.
    rewrite (trimEnd_app_allWhiteSpace _ _ Hafter). exact Hend.
Qed.

Lemma clean_json_text_unwraps_witness :
  GeminiService.cleanJsonText
    (GeminiService.fence_json ++ " " ++ "{}" ++ "  " ++ GeminiService.fence)
  = "{}".
Proof.
  apply (clean_json_text_unwraps " " "  " "{}"); reflexivity.
Defined.

(** ** The size check boxes *)

Section SizeToggle.
Import HomeViewSizes.

Lemma Array_includes_app (l1 l2 : list string) (x : string) :
  Array_includes (l1 ++ l2) x = Array_includes l1 x || Array_includes l2 x.
Proof. apply existsb_app. Qed.

Lemma Array_includes_In (l : list string) (x : string) :
  Array_includes l x = true <-> In x l.
Proof.
  unfold Array_includes. rewrite existsb_exists. split.
  - intros (y & Hy & Heq). apply String.eqb_eq in Heq. subst. exact Hy.
  - intro Hx. exists x. split; [exact Hx | apply String.eqb_refl].
Qed.

Lemma Array_includes_remove (l : list string) (s x : string) :
  Array_includes (filter (fun y => negb (String.eqb y s)) l) x
  = Array_includes l x && negb (String.eqb x s).
Proof.
  induction l as [| y l IH]; simpl; [reflexivity |].
  destruct (String.eqb y s) eqn:Hys; simpl.
  - rewrite IH. apply String.eqb_eq in Hys. subst y.
    destruct (String.eqb x s); simpl;
      rewrite ?andb_false_r, ?andb_true_r; reflexivity.
  - rewrite IH. destruct (String.eqb x y) eqn:Hxy; simpl; [| reflexivity].
    apply String.eqb_eq in Hxy. subst x. rewrite Hys. reflexivity.
Qed.

Lemma toggled_flips (s : string) (current : list string) :
  Array_includes (toggled s current) s = negb (Array_includes current s).
Proof.
  unfold toggled. destruct (Array_includes current s) eqn:Hin.
  - rewrite Array_includes_remove, String.eqb_refl. apply andb_false_r.
  - rewrite Array_includes_app, Hin. simpl. rewrite String.eqb_refl.
    reflexivity.
Qed.

Lemma toggled_other (s x : string) (current : list string) :
  x <> s ->
  Array_includes (toggled s current) x = Array_includes current x.
Proof.
  intro Hne. apply String.eqb_neq in Hne. unfold toggled.
  destruct (Array_includes current s).
  - rewrite Array_includes_remove, Hne. apply andb_true_r.
  - rewrite Array_includes_app. simpl. rewrite Hne. rewrite !orb_false_r.
    reflexivity.
Qed.

Lemma toggled_NoDup (s : string) (current : list string) :
  NoDup current -> NoDup (toggled s current).
Proof.
  intro Hnd. unfold toggled. destruct (Array_includes current s) eqn:Hin.
  - apply NoDup_filter. exact Hnd.
  - apply NoDup_app; [exact Hnd | repeat constructor; intros [] |].
    intros x Hx Hs. destruct Hs as [<- | []].
    apply Array_includes_In in Hx. congruence.
Qed.

End SizeToggle.

(** X10.  Ticking a size box flips that box and no other: after
    [handleSizeChange(size)] the form's sizes contain [size] exactly when
    they did not before, every other size is present exactly when it was,
    no size becomes duplicated, and the other fields of the form are
    untouched.  [handleEditSizeChange] does the same on [sizeArray],
    reading an absent [sizeArray] as empty. *)
Theorem size_toggle_flips_one_box (size : string) (prev : NewDollForm.t)
    (edit : EditDollData.t) :
  let form' := HomeViewSizes.handleSizeChange size prev in
  let edit' := HomeViewSizes.handleEditSizeChange size edit in
  let current := match EditDollData.sizeArray edit with
                 | Some a => a
                 | None => []
                 end in
  HomeViewSizes.Array_includes (NewDollForm.size form') size
  = negb (HomeViewSizes.Array_includes (NewDollForm.size prev) size)
  /\ (forall other, other <> size ->
        HomeViewSizes.Array_includes (NewDollForm.size form') other
        = HomeViewSizes.Array_includes (NewDollForm.size prev) other)
  /\ (NoDup (NewDollForm.size prev) -> NoDup (NewDollForm.size form'))
  /\ HomeViewSizes.with_size form' (NewDollForm.size prev) = prev
  /\ (exists after,
        EditDollData.sizeArray edit' = Some after
        /\ HomeViewSizes.Array_includes after size
           = negb (HomeViewSizes.Array_includes current size)
        /\ (forall other, other <> size ->
              HomeViewSizes.Array_includes after other
              = HomeViewSizes.Array_includes current other)
        /\ (NoDup current -> NoDup after)).
Proof.
  cbv zeta.
  assert (Hform : NewDollForm.size (HomeViewSizes.handleSizeChange size prev)
                  = HomeViewSizes.toggled size (NewDollForm.size prev)).
  { unfold HomeViewSizes.handleSizeChange, HomeViewSizes.toggled.
    destruct (HomeViewSizes.Array_includes (NewDollForm.size prev) size);
      reflexivity. }
  rewrite Hform. split; [apply toggled_flips |].
  split; [intros other Hne; apply toggled_other; exact Hne |].
  split; [apply toggled_NoDup |]. split.
  - unfold HomeViewSizes.handleSizeChange.
    destruct (HomeViewSizes.Array_includes (NewDollForm.size prev) size);
      destruct prev; reflexivity.
  - exists (HomeViewSizes.toggled size
              match EditDollData.sizeArray edit with
              | Some a => a
              | None => []
              end).
    split.
    + unfold HomeViewSizes.handleEditSizeChange, HomeViewSizes.toggled.
      destruct (HomeViewSizes.Array_includes _ size); reflexivity.
    + split; [apply toggled_flips |].
      split; [intros other Hne; apply toggled_other; exact Hne |].
      apply toggled_NoDup.
Qed.

Lemma size_toggle_flips_one_box_witness :
  HomeViewSizes.Array_includes
    (NewDollForm.size
       (HomeViewSizes.handleSizeChange "Small"
          (Sample.form ["Normal"] None))) "Normal" = true
  /\ NoDup (NewDollForm.size
              (HomeViewSizes.handleSizeChange "Small"
                 (Sample.form ["Normal"] None))).
Proof.
  destruct (size_toggle_flips_one_box "Small" (Sample.form ["Normal"] None)
              (HomeViewSizes.with_sizeArray
                 (snd (fst (HomeViewSizes.openDetailModal Sample.bella)))
                 []))
    as (_ & Hother & Hnodup & _).
  split.
  - rewrite (Hother "Normal"); [reflexivity | discriminate].
  - apply Hnodup. repeat constructor. intros [].
Defined.

(** ** The sizes proposed by the AI *)

Section NewSizes.
Import HomeViewSizes.

Lemma newSizes_shape (current : list string)
    (aiData : GeminiService.JsValue) (result : list string) :
  newSizes current aiData = Normal result ->
  result = current \/ result = ["Normal"] \/ result = ["Small"]
  \/ result = ["Normal"; "Small"].
Proof.
  intro Hrun. unfold newSizes in Hrun. cbv zeta in Hrun.
  destruct (GeminiService.getProperty aiData "size") as [v | e];
    simpl in Hrun; [| discriminate].
  destruct (GeminiService.ToBoolean v).
  - destruct (call_includes v "Normal") as [n | e];
      simpl in Hrun; [| discriminate].
    destruct (call_includes v "Small") as [s | e];
      simpl in Hrun; [| discriminate].
    destruct n, s; simpl in Hrun; injection Hrun as <-; auto.
  - injection Hrun as <-. left. reflexivity.
Qed.

End NewSizes.



(** ** The size string *)

Section SizeString.
Import HomeViewSizes TextComma.

Lemma split_comma_noComma (a : string) :
  noComma a = true -> split_comma a = [a].
Proof.
  induction a as [| c a IH]; simpl; [reflexivity |].
  intro Hnc. apply andb_true_iff in Hnc. destruct Hnc as [Hc Ha].
  apply negb_true_iff in Hc. rewrite Hc, (IH Ha). reflexivity.
Qed.

Lemma split_comma_app (a r : string) :
  noComma a = true ->
  split_comma (a ++ String "," r) = a :: split_comma r.
Proof.
  induction a as [| c a IH]; simpl; [reflexivity |].
  intro Hnc. apply andb_true_iff in Hnc. destruct Hnc as [Hc Ha].
  apply negb_true_iff in Hc. rewrite Hc, (IH Ha). reflexivity.
Qed.

Lemma noComma_app (a b : string) :
  noComma (a ++ b) = noComma a && noComma b.
Proof.
  induction a as [| c a IH]; simpl; [reflexivity |].
  rewrite IH. apply andb_assoc.
Qed.

Lemma allWhiteSpace_noComma (u : string) :
  Text.allWhiteSpace u = true -> noComma u = true.
Proof.
  induction u as [| c u IH]; simpl; [reflexivity |].
  intro Hws. apply andb_true_iff in Hws. destruct Hws as [Hc Hu].
  rewrite (IH Hu), andb_true_r. apply negb_true_iff.
  destruct (Ascii.eqb_spec c ",") as [-> | _]; [| reflexivity].
  discriminate.
Qed.

Lemma trim_after_allWhiteSpace (u s : string) :
  Text.allWhiteSpace u = true ->
  GeminiService.trim (u ++ s) = GeminiService.trim s.
Proof.
  intro Hws. unfold GeminiService.trim.
  rewrite trimStart_allWhiteSpace by exact Hws. reflexivity.
Qed.

Lemma split_trim_concat (l : list string) (u : string) :
  l <> [] -> Forall isTag l -> Text.allWhiteSpace u = true ->
  map GeminiService.trim (split_comma (u ++ String.concat ", " l)) = l.
Proof.
  revert u. induction l as [| x l IH]; intros u Hne Htags Hws;
    [congruence |].
  inversion Htags as [| ? ? (Hx0 & Hxc & Hxt) Hrest]; subst.
  destruct l as [| y l].
  - simpl. rewrite split_comma_noComma.
    + simpl. rewrite trim_after_allWhiteSpace, Hxt by exact Hws.
      reflexivity.
    + rewrite noComma_app, Hxc, (allWhiteSpace_noComma _ Hws). reflexivity.
  - change (String.concat ", " (x :: y :: l))
      with (x ++ String "," (" " ++ String.concat ", " (y :: l)))%string.
    rewrite <- append_assoc, split_comma_app.
    + rewrite map_cons, trim_after_allWhiteSpace, Hxt by exact Hws.
      f_equal. apply (IH " "); [discriminate | exact Hrest | reflexivity].
    + rewrite noComma_app, Hxc, (allWhiteSpace_noComma _ Hws). reflexivity.
Qed.

Lemma concat_nonempty (sep x : string) (l : list string) :
  x <> "" -> String.concat sep (x :: l) <> "".
Proof.
  intro Hx. destruct x as [| c x]; [congruence |].
  destruct l; discriminate.
Qed.

Lemma sizeArray_of_concat (l : list string) :
  Forall isTag l -> sizeArray_of (String.concat ", " l) = l.
Proof.
  intro Htags. unfold sizeArray_of. rewrite truthy_Some.
  destruct l as [| x l]; [reflexivity |].
  inversion Htags as [| ? ? (Hx0 & _) _]; subst.
  pose proof (concat_nonempty ", " x l Hx0) as Hne.
  apply String.eqb_neq in Hne. rewrite Hne. simpl negb. cbv iota.
  apply (split_trim_concat (x :: l) ""); [discriminate | exact Htags |].
  reflexivity.
Qed.

End SizeString.

(** X12.  The size tags survive the round trip through the stored size
    string: for a doll whose size is the tags of the form joined by
    [", "], as [handleSubmit] writes it, [openDetailModal] recovers exactly
    those tags in [sizeArray], and saving them without change gives the
    stored string back.  The tags are non-empty, free of commas and of
    white space at their ends. *)
Theorem size_string_round_trip (tags : list string) (doll : Doll.t) :
  Forall TextComma.isTag tags ->
  Doll.size doll = String.concat ", " tags ->
  EditDollData.sizeArray (snd (fst (HomeViewSizes.openDetailModal doll)))
  = Some tags
  /\ HomeViewSizes.sizeString
       (snd (fst (HomeViewSizes.openDetailModal doll)))
     = Doll.size doll.
Proof.
  intros Htags Hsize. unfold HomeViewSizes.openDetailModal,
    HomeViewSizes.sizeString. simpl.
  rewrite Hsize, (sizeArray_of_concat tags Htags). split; reflexivity.
Qed.

Lemma size_string_round_trip_witness :
  EditDollData.sizeArray
    (snd (fst (HomeViewSizes.openDetailModal
                 (Sample.doll "9" "Momo" None None "2024-05-01T00:00:00Z"))))
  = Some ["Normal"].
Proof.
  apply (proj1 (size_string_round_trip ["Normal"]
                  (Sample.doll "9" "Momo" None None "2024-05-01T00:00:00Z")
                  ltac:(repeat constructor; discriminate) eq_refl)).
Defined.

(** ** The size bar of the card *)

Section SizeBar.
Import HomeViewSizes DollCardSizes.

Lemma includes_tag_then (tag rest x : string) :
  isSizeName tag -> isSizeName x ->
  includes (tag ++ String "," (String " " rest)) x
  = String.eqb x tag || includes rest x.
Proof.
  intros [-> | ->] [-> | ->]; simpl append;
    repeat (rewrite includes_cons, prefix_cons;
            cbn [Ascii.eqb Bool.eqb andb orb]);
    rewrite ?prefix_nil; reflexivity.
Qed.

Lemma includes_concat_sizes (l : list string) (x : string) :
  Forall isSizeName l -> isSizeName x ->
  includes (String.concat ", " l) x = Array_includes l x.
Proof.
  intros Hl Hx. induction Hl as [| tag l Htag Hl IH].
  - destruct Hx as [-> | ->]; reflexivity.
  - destruct l as [| y l].
    + destruct Htag as [-> | ->], Hx as [-> | ->]; reflexivity.
    + change (String.concat ", " (tag :: y :: l))
        with (tag ++ String "," (String " " (String.concat ", " (y :: l))))
               %string.
      rewrite (includes_tag_then tag _ x Htag Hx), IH. reflexivity.
Qed.

End SizeBar.

(** X13.  The size bar of a card agrees with the boxes ticked when the
    doll was saved: for a size string made of the names Normal and Small
    joined by [", "], the Normal half is lit exactly when Normal is among
    them, and the Small half exactly when Small is. *)
Theorem size_bar_matches_boxes (sizes : list string) (doll : Doll.t) :
  Forall DollCardSizes.isSizeName sizes ->
  Doll.size doll = String.concat ", " sizes ->
  DollCardSizes.hasNormal doll = HomeViewSizes.Array_includes sizes "Normal"
  /\ DollCardSizes.hasSmall doll = HomeViewSizes.Array_includes sizes "Small".
Proof.
  intros Hsizes Hsize. unfold DollCardSizes.hasNormal, DollCardSizes.hasSmall.
  rewrite Hsize, truthy_Some.
  rewrite !includes_concat_sizes
    by (try exact Hsizes; try (left; reflexivity); right; reflexivity).
  destruct sizes as [| x l]; [split; reflexivity |].
  assert (Hne : String.concat ", " (x :: l) <> "").
  { apply concat_nonempty. inversion Hsizes as [| ? ? [-> | ->] _];
      discriminate. }
  apply String.eqb_neq in Hne. rewrite Hne. split; reflexivity.
Qed.

Lemma size_bar_matches_boxes_witness :
  DollCardSizes.hasNormal
    (Sample.doll "9" "Momo" None None "2024-05-01T00:00:00Z") = true
  /\ DollCardSizes.hasSmall
       (Sample.doll "9" "Momo" None None "2024-05-01T00:00:00Z") = false.
Proof.
  apply (size_bar_matches_boxes ["Normal"]
           (Sample.doll "9" "Momo" None None "2024-05-01T00:00:00Z"));
    [repeat constructor | reflexivity].
Defined.

(** X14.  The size selection never leaves the two names: if the form's
    sizes are among Normal and Small, they still are after a box is ticked
    or unticked and after AI autofill, whatever the AI answered. *)
Theorem sizes_stay_within_names (prev : NewDollForm.t) (size : string)
    (aiData : GeminiService.JsValue) :
  Forall DollCardSizes.isSizeName (NewDollForm.size prev) ->
  DollCardSizes.isSizeName size ->
  Forall DollCardSizes.isSizeName
    (NewDollForm.size (HomeViewSizes.handleSizeChange size prev))
  /\ (forall result,
        HomeViewSizes.newSizes (NewDollForm.size prev) aiData = Normal result ->
        Forall DollCardSizes.isSizeName result).
Proof.
  intros Hprev Hsize. split.
  - unfold HomeViewSizes.handleSizeChange.
    destruct (HomeViewSizes.Array_includes (NewDollForm.size prev) size);
      simpl.
    + apply Forall_forall. intros x Hx. apply filter_In in Hx.
      rewrite Forall_forall in Hprev. apply Hprev. apply Hx.
    + apply Forall_app. split; [exact Hprev |]. constructor; [exact Hsize |].
      constructor.
  - intros result Hrun.
    destruct (newSizes_shape _ _ _ Hrun) as [-> | [-> | [-> | ->]]];
      [exact Hprev | | |]; repeat constructor;
      try (left; reflexivity); right; reflexivity.
Qed.

Lemma sizes_stay_within_names_witness :
  Forall DollCardSizes.isSizeName
    (NewDollForm.size
       (HomeViewSizes.handleSizeChange "Small" (Sample.form ["Normal"] None))).
Proof.
  apply (proj1 (sizes_stay_within_names (Sample.form ["Normal"] None) "Small"
                  GeminiService.null
                  ltac:(repeat constructor; left; reflexivity)
                  ltac:(right; reflexivity))).
Defined.

(** ** Deleting a doll *)

Lemma processedDolls_incl {H : Host} (l : list Doll.t)
    (activeFilter dateFilterValue : string) (sortOption : SortOption)
    (searchQuery : string) (clock : nat -> Z) :
  exists r,
    HomeView.processedDolls l activeFilter dateFilterValue sortOption
      searchQuery clock = Normal r
    /\ incl r l.
Proof.
  unfold HomeView.processedDolls. cbv zeta. rewrite searchStage_total.
  set (found := if String.eqb searchQuery "" then l
                else filter (ViewSpec.searchMatches searchQuery) l).
  assert (Hfound : incl found l).
  { subst found. destruct (String.eqb searchQuery "");
      [apply incl_refl | apply incl_filter]. }
  destruct (filterStage_total activeFilter dateFilterValue clock found)
    as (r & Hrun & Hincl & _).
  exists (HomeView.sortStep sortOption r). simpl. rewrite Hrun. simpl.
  split; [reflexivity |].
  intros d Hd. apply Hfound, Hincl.
  apply (sort_In (HomeView.compareFn sortOption) r d). exact Hd.
Qed.

(** X15.  [handleDeleteDoll] always returns normally.  When the database
    reports success, exactly the dolls with the given identifier leave the
    list, the others keep their order, the selection is cleared exactly when
    it was the deleted doll, and the deleted doll can no longer appear in
    the view.  When the request fails or reports an error, the state is as
    it was and the user is told. *)
Theorem delete_doll_outcomes {H : Host}
    (delete_result : string -> completion (option exn)) (dollId : string)
    (st : HomeViewDelete.State) :
  exists st' trace,
    HomeViewDelete.handleDeleteDoll delete_result dollId st
    = (Normal tt, st', trace)
    /\ (delete_result dollId = Normal None ->
        HomeViewDelete.dolls st'
        = filter (fun d => negb (String.eqb (Doll.id d) dollId))
                 (HomeViewDelete.dolls st)
        /\ (forall d, In d (HomeViewDelete.dolls st') <->
                      In d (HomeViewDelete.dolls st) /\ Doll.id d <> dollId)
        /\ HomeViewDelete.selectedDoll st'
           = (if HomeViewDelete.isSelected (HomeViewDelete.selectedDoll st)
                   dollId
              then None else HomeViewDelete.selectedDoll st)
        /\ (forall activeFilter dateFilterValue sortOption searchQuery clock
                   shown d,
              HomeView.processedDolls (HomeViewDelete.dolls st') activeFilter
                dateFilterValue sortOption searchQuery clock = Normal shown ->
              In d shown -> Doll.id d <> dollId))
    /\ (delete_result dollId <> Normal None ->
        st' = st
        /\ In (HomeViewDelete.alert "Could not delete item.") trace).
Proof.
  unfold HomeViewDelete.handleDeleteDoll, Effect.bind, Effect.try_catch,
    Effect.call, Effect.await, Effect.get, Effect.modify, Effect.throw,
    Effect.ret.
  destruct (delete_result dollId) as [[err |] | e] eqn:Hdel; simpl.
  - do 2 eexists. split; [reflexivity |]. split; [discriminate |].
    intros _. split; [reflexivity |]. simpl. auto.
  - assert (Hin : forall d,
              In d (filter (fun d => negb (String.eqb (Doll.id d) dollId))
                           (HomeViewDelete.dolls st)) <->
              In d (HomeViewDelete.dolls st) /\ Doll.id d <> dollId).
    { intro d. rewrite filter_In, negb_true_iff, String.eqb_neq.
      reflexivity. }
    destruct (HomeViewDelete.isSelected (HomeViewDelete.selectedDoll st)
                dollId) eqn:Hsel; simpl;
      (do 2 eexists; split; [reflexivity |]; split; [| congruence];
       intros _; split; [reflexivity |]; split; [exact Hin |];
       split; [try reflexivity |]).
    + intros af dv so q clock shown d Hrun Hd.
      destruct (processedDolls_incl
                  (filter (fun d => negb (String.eqb (Doll.id d) dollId))
                     (HomeViewDelete.dolls st)) af dv so q clock)
        as (r & Hr & Hincl).
      simpl in Hrun. rewrite Hr in Hrun. injection Hrun as <-.
      apply Hincl, Hin in Hd. apply Hd.
    + intros af dv so q clock shown d Hrun Hd.
      destruct (processedDolls_incl
                  (filter (fun d => negb (String.eqb (Doll.id d) dollId))
                     (HomeViewDelete.dolls st)) af dv so q clock)
        as (r & Hr & Hincl).
      simpl in Hrun. rewrite Hr in Hrun. injection Hrun as <-.
      apply Hincl, Hin in Hd. apply Hd.
  - do 2 eexists. split; [reflexivity |]. split; [discriminate |].
    intros _. split; [reflexivity |]. simpl. auto.
Qed.

Lemma delete_doll_outcomes_witness :
  exists st' trace,
    HomeViewDelete.handleDeleteDoll (fun _ => Normal None) "1"
      {| HomeViewDelete.dolls := [Sample.bella; Sample.apollo];
         HomeViewDelete.selectedDoll := Some Sample.bella |}
    = (Normal tt, st', trace)
    /\ HomeViewDelete.dolls st' = [Sample.apollo]
    /\ HomeViewDelete.selectedDoll st' = None.
Proof.
  destruct (delete_doll_outcomes (H := SimpleHost.host)
              (fun _ => Normal None) "1"
              {| HomeViewDelete.dolls := [Sample.bella; Sample.apollo];
                 HomeViewDelete.selectedDoll := Some Sample.bella |})
    as (st' & trace & Hrun & Hok & _).
  destruct (Hok eq_refl) as (Hdolls & _ & Hsel & _).
  exists st', trace. split; [exact Hrun |]. split; assumption.
Defined.

(** ** The compressed file *)

Section CompressedFile.
Import ImageFile.

Lemma isExtension_app_dot (a b : string) :
  isExtension (a ++ String "." b) = false.
Proof.
  unfold isExtension. apply andb_false_iff. right.
  induction a as [| c a IH]; simpl.
  - reflexivity.
  - rewrite IH. apply andb_false_r.
Qed.

(** Whatever the base, appending [.jpg] and stripping gives it back. *)
Lemma stripExtension_jpg (base : string) :
  stripExtension (base ++ ".jpg") = base.
Proof.
  induction base as [| c base IH]; [reflexivity |].
  change (String c base ++ ".jpg")%string with (String c (base ++ ".jpg")).
  cbn [stripExtension].
  change (base ++ ".jpg")%string with (base ++ String "." "jpg")%string.
  rewrite isExtension_app_dot, andb_false_r.
  change (base ++ String "." "jpg")%string with (base ++ ".jpg")%string.
  rewrite IH. reflexivity.
Qed.

Lemma includes_dot_app (a b : string) :
  includes (a ++ String "." b) "." = true.
Proof.
  induction a as [| c a IH].
  - simpl. destruct b; reflexivity.
  - change (String c a ++ String "." b)%string
      with (String c (a ++ String "." b)).
    rewrite includes_cons, IH. apply orb_true_r.
Qed.

Lemma split_pop_jpg (base : string) :
  HomeView.split_pop (base ++ ".jpg") = "jpg".
Proof.
  induction base as [| c base IH]; [reflexivity |].
  change (String c base ++ ".jpg")%string with (String c (base ++ ".jpg")).
  cbn [HomeView.split_pop].
  change (base ++ ".jpg")%string with (base ++ String "." "jpg")%string.
  rewrite includes_dot_app. exact IH.
Qed.

Lemma onload_name (canvas : Canvas) (file f : File.t) (w h : Z) :
  onload canvas file w h = Normal f ->
  File.name f = (stripExtension (File.name file) ++ ".jpg")%string
  /\ File.type f = "image/jpeg".
Proof.
  unfold onload. destruct (negb (hasContext canvas)); [discriminate |].
  destruct (toBlob canvas (drawing w h)); [| discriminate].
  intro Heq. injection Heq as <-. split; reflexivity.
Qed.

End CompressedFile.

(** X16.  Whenever [compressImage] produces a file, that file is a JPEG
    whose name is the original name with its last extension, if any,
    replaced by [.jpg]; compressing it again would keep the name.  The
    upload code therefore always derives the extension [jpg]: the blob
    that [handleSubmit] uploads for a valid form is named after the clock,
    with the extension [.jpg]. *)
Theorem compressed_file_is_jpg (canvas : ImageFile.Canvas)
    (file compressed : File.t) (w h : Z) :
  ImageFile.onload canvas file w h = Normal compressed ->
  File.type compressed = "image/jpeg"
  /\ File.name compressed
     = (ImageFile.stripExtension (File.name file) ++ ".jpg")%string
  /\ (ImageFile.stripExtension (File.name compressed) ++ ".jpg")%string
     = File.name compressed
  /\ HomeView.split_pop (File.name compressed) = "jpg"
  /\ (forall collab currentTopic_id st image,
        NewDollForm.imageFile (HomeView.formData st) = Some image ->
        NewDollForm.size (HomeView.formData st) <> [] ->
        HomeView.compressImage_result collab image = Normal compressed ->
        exists st' rest,
          HomeView.handleSubmit collab currentTopic_id st
          = (Normal tt, st',
             [HomeView.preventDefault; HomeView.compressImage image;
              HomeView.storage_upload "images"
                (HomeView.Number_toString (HomeView.Date_now collab) ++ ".jpg")
                compressed] ++ rest)%list).
Proof.
  intro Hload. destruct (onload_name _ _ _ _ _ Hload) as [Hname Htype].
  assert (Hext : HomeView.split_pop (File.name compressed) = "jpg")
    by (rewrite Hname; apply split_pop_jpg).
  split; [exact Htype |]. split; [exact Hname |]. split.
  { rewrite Hname at 1. rewrite stripExtension_jpg. symmetry. exact Hname. }
  split; [exact Hext |].
  intros collab topic st image Himage Hsize Hcompress.
  unfold HomeView.handleSubmit, Effect.bind, Effect.call, Effect.get,
    Effect.modify, Effect.try_catch_finally, Effect.await, Effect.throw.
  rewrite Himage.
  destruct (NewDollForm.size (HomeView.formData st)) as [| s sizes] eqn:Hs;
    [congruence |].
  cbn [List.length Nat.eqb]. cbv iota. rewrite Hcompress, Hext.
  destruct (HomeView.upload_result collab _ compressed) as [[err |] | e];
    cbn -[HomeView.Number_toString String.append String.concat].
  - do 2 eexists. reflexivity.
  - destruct (HomeView.insert_result collab _) as [[err |] | e];
      cbn -[HomeView.Number_toString String.append String.concat];
      do 2 eexists; reflexivity.
  - do 2 eexists. reflexivity.
Qed.

Lemma compressed_file_is_jpg_witness :
  HomeView.split_pop
    (File.name {| File.name := "my.photo.jpg"; File.type := "image/jpeg";
                  File.content := "bytes" |}) = "jpg".
Proof.
  assert (Hload :
            ImageFile.onload
              {| ImageFile.hasContext := true;
                 ImageFile.toBlob := fun _ => Some "bytes" |}
              {| File.name := "my.photo.png"; File.type := "image/png";
                 File.content := "raw" |}
              800 600
            = Normal {| File.name := "my.photo.jpg";
                        File.type := "image/jpeg";
                        File.content := "bytes" |})
    by (vm_compute; reflexivity).
  exact (proj1 (proj2 (proj2 (proj2
           (compressed_file_is_jpg _ _ _ _ _ Hload))))).
Defined.

(** ** The serverless proxy *)



(** ** The two-step delete control of a card *)

Section DollCardDeleteFacts.
Import DollCardDelete.

Lemma last_cons_default {A : Type} (x d : A) (l : list A) :
  last (x :: l) d = last l x.
Proof.
  revert x d. induction l as [| y l IH]; intros x d; [reflexivity |].
  change (last (x :: y :: l) d) with (last (y :: l) d).
  rewrite (IH y d), (IH y x). reflexivity.
Qed.

Lemma run_invariant (onDelete : bool) (dollId : string)
    (events : list Event) (previous : option Event) (s s' : State)
    (calls : list Call) :
  armedWithOneTimeout s ->
  isDeleting s = match previous with Some Click => true | _ => false end ->
  run onDelete dollId events s = Some (s', calls) ->
  armedWithOneTimeout s'
  /\ isDeleting s'
     = match last (map Some events) previous with
       | Some Click => true
       | _ => false
       end
  /\ List.length (filter isDeleteCall calls)
     = (if onDelete then clicksAfterClick previous events else 0)%nat.
Proof.
  revert previous s s' calls.
  induction events as [| ev rest IH]; intros previous s s' calls Hinv Hprev Hrun.
  - simpl in Hrun. injection Hrun as <- <-. simpl.
    split; [exact Hinv |]. split; [exact Hprev |].
    destruct onDelete; reflexivity.
  - simpl in Hrun. destruct (enabled ev s) eqn:Hen; [| discriminate].
    destruct (step onDelete dollId ev s) as [s1 calls1] eqn:Hstep.
    destruct (run onDelete dollId rest s1) as [[s2 calls2] |] eqn:Hrest;
      [| discriminate].
    injection Hrun as <- <-.
    assert (Hs1 : armedWithOneTimeout s1
                  /\ isDeleting s1
                     = match ev with Click => true | _ => false end
                  /\ List.length (filter isDeleteCall calls1)
                     = (if onDelete
                        then match previous, ev with
                             | Some Click, Click => 1
                             | _, _ => 0
                             end
                        else 0)%nat).
    { unfold armedWithOneTimeout in *. destruct ev; simpl in Hstep, Hen.
      - unfold handleDeleteClick in Hstep.
        destruct (isDeleting s) eqn:Harmed.
        + injection Hstep as <- <-. rewrite Harmed.
          split; [exact Hinv |]. split; [reflexivity |].
          destruct previous as [[|] |]; try discriminate.
          destruct onDelete; reflexivity.
        + injection Hstep as <- <-. simpl. rewrite Hinv.
          split; [reflexivity |]. split; [reflexivity |].
          destruct previous as [[|] |]; try discriminate;
            destruct onDelete; reflexivity.
      - injection Hstep as <- <-. simpl.
        apply Nat.ltb_lt in Hen.
        destruct (isDeleting s); [| lia].
        rewrite Hinv. split; [reflexivity |]. split; [reflexivity |].
        destruct onDelete, previous as [[|] |]; reflexivity. }
    destruct Hs1 as (Hinv1 & Harm1 & Hcount1).
    destruct (IH (Some ev) s1 s2 calls2 Hinv1) as (Hinv2 & Harm2 & Hcount2).
    { rewrite Harm1. destruct ev; reflexivity. }
    { exact Hrest. }
    split; [exact Hinv2 |]. split.
    + rewrite Harm2, map_cons, last_cons_default. reflexivity.
    + rewrite filter_app, length_app, Hcount1, Hcount2.
      destruct onDelete; [| reflexivity].
      simpl. destruct previous as [[|] |], ev; reflexivity.
Qed.

End DollCardDeleteFacts.

(** X18.  The card asks for the deletion only on a click that directly
    follows another click.  In every sequence of clicks and timeouts from
    the idle card, the number of [onDelete] calls is the number of clicks
    whose preceding event is a click (none when the prop is absent); the
    card is armed exactly when the last event was a click; and while it is
    armed exactly one timeout is pending, none while it is idle, so the
    timeout of one arming never cuts a later one short. *)
Theorem card_delete_needs_two_clicks (onDelete : bool) (dollId : string)
    (events : list DollCardDelete.Event) (s' : DollCardDelete.State)
    (calls : list DollCardDelete.Call) :
  DollCardDelete.run onDelete dollId events DollCardDelete.initial
  = Some (s', calls) ->
  DollCardDelete.armedWithOneTimeout s'
  /\ (DollCardDelete.isDeleting s' = true <->
      last (map Some events) None = Some DollCardDelete.Click)
  /\ List.length (filter DollCardDelete.isDeleteCall calls)
     = (if onDelete then DollCardDelete.clicksAfterClick None events
        else 0)%nat.
Proof.
  intro Hrun.
  destruct (run_invariant onDelete dollId events None DollCardDelete.initial
              s' calls eq_refl eq_refl Hrun) as (Hinv & Harm & Hcount).
  split; [exact Hinv |]. split; [| exact Hcount].
  rewrite Harm.
  destruct (last (map Some events) None) as [[|] |];
    split; congruence.
Qed.

Lemma card_delete_needs_two_clicks_witness :
  List.length
    (filter DollCardDelete.isDeleteCall
       [DollCardDelete.stopPropagation; DollCardDelete.setTimeout 3000;
        DollCardDelete.stopPropagation; DollCardDelete.setTimeout 3000;
        DollCardDelete.stopPropagation; DollCardDelete.onDelete_call "7"])
  = 1%nat.
Proof.
  apply (proj2 (proj2
           (card_delete_needs_two_clicks true "7"
              [DollCardDelete.Click; DollCardDelete.TimeoutFires;
               DollCardDelete.Click; DollCardDelete.Click]
              {| DollCardDelete.isDeleting := true;
                 DollCardDelete.pendingTimeouts := 1 |}
              _ eq_refl))).
Defined.

(** ** The category view *)

Section CategoryViewFacts.
Import CategoryView.

Lemma isSet_assign_same (inherited : string -> bool) (flags : Flags)
    (key : string) (value : bool) :
  isSet inherited (assign flags key value) key = value.
Proof. unfold isSet, assign. simpl. rewrite String.eqb_refl. reflexivity. Qed.

Lemma isSet_assign_other (inherited : string -> bool) (flags : Flags)
    (key other : string) (value : bool) :
  other <> key ->
  isSet inherited (assign flags key value) other = isSet inherited flags other.
Proof.
  intro Hne. unfold isSet, assign. simpl.
  destruct (String.eqb_spec key other) as [-> | _]; [congruence |].
  reflexivity.
Qed.


End CategoryViewFacts.

(** X19.  Deleting a category takes two clicks.  A click on a category
    that is not armed sends nothing to the database: it arms that category,
    leaves every other one as it was, and sets the timeout; from the
    initial state the first click is always of this kind.  Only a click on
    an armed category sends the delete request; on success exactly the
    entries of that category leave the list, on failure the state is as it
    was and the user is told.  The timeout disarms its own category and no
    other.  (The identifier is assumed not to name a property that every
    object inherits.) *)
Theorem category_delete_two_steps (collab : CategoryView.Collaborators)
    (inherited : string -> bool) (catId : string) (st : CategoryView.State) :
  inherited catId = false ->
  exists st' trace,
    CategoryView.handleDeleteCategory collab inherited catId st
    = (Normal tt, st', trace)
    /\ (In (CategoryView.categories_delete catId) trace <->
        CategoryView.isSet inherited (CategoryView.deletingStates st) catId
        = true)
    /\ (CategoryView.deletingStates st = [] ->
        ~ In (CategoryView.categories_delete catId) trace)
    /\ (CategoryView.isSet inherited (CategoryView.deletingStates st) catId
        = false ->
        trace = [CategoryView.stopPropagation;
                 CategoryView.setTimeout 3000 catId]
        /\ CategoryView.categories st' = CategoryView.categories st
        /\ CategoryView.isSet inherited (CategoryView.deletingStates st')
             catId = true
        /\ (forall other, other <> catId ->
              CategoryView.isSet inherited (CategoryView.deletingStates st')
                other
              = CategoryView.isSet inherited (CategoryView.deletingStates st)
                  other))
    /\ (CategoryView.isSet inherited (CategoryView.deletingStates st) catId
        = true ->
        (CategoryView.delete_result collab catId = Normal None ->
         CategoryView.categories st'
         = filter (fun c =>
                     negb (String.eqb
                             (Category.id (CategoryView.category c)) catId))
                  (CategoryView.categories st))
        /\ (CategoryView.delete_result collab catId <> Normal None ->
            st' = st
            /\ In (CategoryView.alert "Failed to delete category.") trace))
    /\ CategoryView.isSet inherited
         (CategoryView.deletingStates (CategoryView.disarm catId st')) catId
       = false
    /\ (forall other, other <> catId ->
          CategoryView.isSet inherited
            (CategoryView.deletingStates (CategoryView.disarm catId st'))
            other
          = CategoryView.isSet inherited (CategoryView.deletingStates st')
              other).
Proof.
  intro Hown.
  assert (Hdisarm : forall s,
            CategoryView.isSet inherited
              (CategoryView.deletingStates (CategoryView.disarm catId s))
              catId = false
            /\ (forall other, other <> catId ->
                  CategoryView.isSet inherited
                    (CategoryView.deletingStates (CategoryView.disarm catId s))
                    other
                  = CategoryView.isSet inherited
                      (CategoryView.deletingStates s) other)).
  { intro s. split; [apply isSet_assign_same |].
    intros other Hne. apply isSet_assign_other. exact Hne. }
  assert (Hinitial : CategoryView.deletingStates st = [] ->
            CategoryView.isSet inherited (CategoryView.deletingStates st)
              catId = false).
  { intros ->. exact Hown. }
  unfold CategoryView.handleDeleteCategory, Effect.bind, Effect.call,
    Effect.get, Effect.try_catch, Effect.await, Effect.modify, Effect.throw.
  destruct (CategoryView.isSet inherited (CategoryView.deletingStates st)
              catId) eqn:Harmed.
  - destruct (CategoryView.delete_result collab catId) as [[err |] | e]
      eqn:Hdel; simpl;
      (do 2 eexists; split; [reflexivity |]);
      (split; [split; [reflexivity | simpl; auto] |]);
      (split; [intro Hnil; specialize (Hinitial Hnil); discriminate |]);
      (split; [discriminate |]);
      (split; [| apply Hdisarm]); intros _.
    + split; [discriminate |]. intros _. split; [reflexivity |].
      simpl. auto.
    + split; [reflexivity | congruence].
    + split; [discriminate |]. intros _. split; [reflexivity |].
      simpl. auto.
  - simpl. do 2 eexists. split; [reflexivity |].
    split; [split; [| discriminate] |].
    { simpl. intros [Hf | [Hf | []]]; discriminate. }
    split; [simpl; intros _ [Hf | [Hf | []]]; discriminate |].
    split; [| split; [discriminate | apply Hdisarm]].
    intros _. split; [reflexivity |]. split; [reflexivity |].
    split; [apply isSet_assign_same |].
    intros other Hne. apply isSet_assign_other. exact Hne.
Qed.

Lemma category_delete_two_steps_witness :
  exists st' trace,
    CategoryView.handleDeleteCategory
      {| CategoryView.delete_result := fun _ => Normal None;
         CategoryView.compressImage_result := fun f => Some (Normal f);
         CategoryView.Date_now := 0;
         CategoryView.upload_result := fun _ _ => Normal None;
         CategoryView.publicUrl_of := fun n => n;
         CategoryView.insert_result := fun _ => Normal None |}
      (fun key => String.eqb key "constructor") "cat-7"
      {| CategoryView.categories := [];
         CategoryView.deletingStates := [];
         CategoryView.newCategoryName := GeminiService.JString "";
         CategoryView.imageFile := None;
         CategoryView.isAiLoading := false;
         CategoryView.isCreating := false |}
    = (Normal tt, st', trace)
    /\ ~ In (CategoryView.categories_delete "cat-7") trace.
Proof.
  destruct (category_delete_two_steps
              {| CategoryView.delete_result := fun _ => Normal None;
                 CategoryView.compressImage_result := fun f => Some (Normal f);
                 CategoryView.Date_now := 0;
                 CategoryView.upload_result := fun _ _ => Normal None;
                 CategoryView.publicUrl_of := fun n => n;
                 CategoryView.insert_result := fun _ => Normal None |}
              (fun key => String.eqb key "constructor") "cat-7"
              {| CategoryView.categories := [];
                 CategoryView.deletingStates := [];
                 CategoryView.newCategoryName := GeminiService.JString "";
                 CategoryView.imageFile := None;
                 CategoryView.isAiLoading := false;
                 CategoryView.isCreating := false |} eq_refl)
    as (st' & trace & Hrun & _ & Hfirst & _).
  exists st', trace. split; [exact Hrun |]. apply Hfirst. reflexivity.
Defined.

(** X20.  [createCategory] validates before it does anything.  With a
    text in the name field that is blank once trimmed, or with no image
    chosen, it reaches no collaborator and leaves the state as it was; the
    alert asking for an image appears exactly when the image is missing,
    so a blank name with an image is refused silently.  When the name
    field holds a value that is not a string (which [handleAiScan] can
    store there), the call of [trim] raises a TypeError before anything
    else happens. *)
Theorem create_category_validation (collab : CategoryView.Collaborators)
    (topic name : string) (st : CategoryView.State) :
  CategoryView.newCategoryName st = GeminiService.JString name ->
  GeminiService.trim name = "" \/ CategoryView.imageFile st = None ->
  (exists trace,
     CategoryView.createCategory collab topic st
     = (Async.Settled (Normal tt), st, trace)
     /\ forallb (fun c => negb (CategoryView.isCollaboratorCall c)) trace
        = true
     /\ (CategoryView.imageFile st = None ->
         trace = [CategoryView.alert "Please add an image for the category."])
     /\ (CategoryView.imageFile st <> None -> trace = []))
  /\ (forall st2,
        (forall s, CategoryView.newCategoryName st2
                   <> GeminiService.JString s) ->
        CategoryView.createCategory collab topic st2
        = (Async.Settled (Throw TypeError), st2, [])).
Proof.
  intros Hname Hbad. split.
  - unfold CategoryView.createCategory, Async.bind, Async.get,
      Async.await, Async.call, Async.ret.
    rewrite Hname. unfold CategoryView.call_trim.
    destruct (CategoryView.imageFile st) as [image |] eqn:Himage.
    + destruct Hbad as [Hblank | Hnone]; [| discriminate].
      rewrite Hblank. simpl.
      exists []. repeat split; congruence.
    + simpl. eexists. split; [reflexivity |]. split; [reflexivity |].
      split; [reflexivity | congruence].
  - intros st2 Hother.
    unfold CategoryView.createCategory, Async.bind, Async.get,
      Async.await.
    destruct (CategoryView.newCategoryName st2) as [| | b | x | s | l | l]
      eqn:Hvalue; try reflexivity.
    exfalso. exact (Hother s eq_refl).
Qed.

Lemma create_category_validation_witness :
  exists trace,
    CategoryView.createCategory
      {| CategoryView.delete_result := fun _ => Normal None;
         CategoryView.compressImage_result := fun f => Some (Normal f);
         CategoryView.Date_now := 0;
         CategoryView.upload_result := fun _ _ => Normal None;
         CategoryView.publicUrl_of := fun n => n;
         CategoryView.insert_result := fun _ => Normal None |}
      "topic-1"
      {| CategoryView.categories := [];
         CategoryView.deletingStates := [];
         CategoryView.newCategoryName := GeminiService.JString "  ";
         CategoryView.imageFile := Some Sample.photo;
         CategoryView.isAiLoading := false;
         CategoryView.isCreating := false |}
    = (Async.Settled (Normal tt),
       {| CategoryView.categories := [];
          CategoryView.deletingStates := [];
          CategoryView.newCategoryName := GeminiService.JString "  ";
          CategoryView.imageFile := Some Sample.photo;
          CategoryView.isAiLoading := false;
          CategoryView.isCreating := false |}, trace)
    /\ trace = [].
Proof.
  destruct (proj1 (create_category_validation
              {| CategoryView.delete_result := fun _ => Normal None;
                 CategoryView.compressImage_result := fun f => Some (Normal f);
                 CategoryView.Date_now := 0;
                 CategoryView.upload_result := fun _ _ => Normal None;
                 CategoryView.publicUrl_of := fun n => n;
                 CategoryView.insert_result := fun _ => Normal None |}
              "topic-1" "  "
              {| CategoryView.categories := [];
                 CategoryView.deletingStates := [];
                 CategoryView.newCategoryName := GeminiService.JString "  ";
                 CategoryView.imageFile := Some Sample.photo;
                 CategoryView.isAiLoading := false;
                 CategoryView.isCreating := false |}
              eq_refl (or_introl eq_refl)))
    as (trace & Hrun & _ & _ & Hsilent).
  exists trace. split; [exact Hrun |]. apply Hsilent. discriminate.
Defined.



(** X22.  [handleAiScan] always returns normally with the loading flag
    back to false, and its alert "Could not scan." is never shown: every
    failure of the AI service is already absorbed inside
    [suggestCategory].  The name it stores is never empty, and it is
    "Unknown" whenever the request to the service failed; nothing else of
    the state changes. *)
Theorem ai_scan_never_alerts (svc : GeminiService.Service) (file : File.t)
    (st : CategoryView.State) :
  exists suggestion trace,
    CategoryView.handleAiScan svc file st
    = (Normal tt,
       CategoryView.setIsAiLoading false
         (CategoryView.setNewCategoryName suggestion st),
       trace)
    /\ GeminiService.ToBoolean suggestion = true
    /\ (forall message, ~ In (CategoryView.alert message) trace)
    /\ (forall e t0,
          GeminiService.suggestCategory_try svc file tt = (Throw e, tt, t0) ->
          suggestion = GeminiService.JString "Unknown").
Proof.
  destruct (suggestCategory_result svc file)
    as (v & t & Hrun & Htruthy & Hunknown).
  exists v, (map CategoryView.gemini t ++ [] ++ [])%list.
  split.
  - unfold CategoryView.handleAiScan, Effect.try_catch_finally, Effect.bind,
      Effect.modify, CategoryView.liftGemini.
    rewrite Hrun. cbn -[app]. rewrite app_nil_r. reflexivity.
  - split; [exact Htruthy |]. split; [| exact Hunknown].
    intros message Hin. rewrite !app_nil_r in Hin.
    apply in_map_iff in Hin. destruct Hin as (c & Hc & _). discriminate.
Qed.


(** ** Reading the image for the AI service *)

Lemma until_comma_noComma (p : string) :
  TextComma.noComma p = true -> GeminiService.until_comma p = p.
Proof.
  induction p as [| c p IH]; simpl; [reflexivity |].
  intro Hnc. apply andb_true_iff in Hnc. destruct Hnc as [Hc Hp].
  apply negb_true_iff in Hc. rewrite Hc, (IH Hp). reflexivity.
Qed.

Lemma split_comma_1_app (header rest : string) :
  TextComma.noComma header = true ->
  GeminiService.split_comma_1 (header ++ String "," rest)
  = Some (GeminiService.until_comma rest).
Proof.
  induction header as [| c h IH]; simpl; [reflexivity |].
  intro Hnc. apply andb_true_iff in Hnc. destruct Hnc as [Hc Hh].
  apply negb_true_iff in Hc. rewrite Hc. exact (IH Hh).
Qed.

Lemma split_comma_1_noComma (s : string) :
  TextComma.noComma s = true -> GeminiService.split_comma_1 s = None.
Proof.
  induction s as [| c s IH]; simpl; [reflexivity |].
  intro Hnc. apply andb_true_iff in Hnc. destruct Hnc as [Hc Hs].
  apply negb_true_iff in Hc. rewrite Hc. exact (IH Hs).
Qed.

(** X23.  From a data URL [<header>,<payload>], whose header and payload
    hold no comma, [fileToGenerativePart] extracts exactly the payload,
    and the request that [identifyDoll] sends carries that payload with
    the MIME type of the file.  When what the reader produced holds no
    comma at all, the part is [undefined] and no error is raised at that
    point. *)
Theorem data_url_payload (svc : GeminiService.Service) (file : File.t)
    (header payload : string) :
  TextComma.noComma header = true ->
  TextComma.noComma payload = true ->
  GeminiService.readAsDataURL_result svc file
  = Normal (header ++ String "," payload) ->
  GeminiService.fileToGenerativePart svc file tt
  = (Normal (Some payload), tt, [GeminiService.readAsDataURL file])
  /\ (exists r trace,
        GeminiService.identifyDoll svc file tt = (r, tt, trace)
        /\ In (GeminiService.generateContent
                 {| GeminiService.model := "gemini-3-flash-preview";
                    GeminiService.mimeType := File.type file;
                    GeminiService.data := Some payload;
                    GeminiService.required :=
                      ["name"; "description"; "size"] |}) trace)
  /\ (forall svc2 file2 s,
        TextComma.noComma s = true ->
        GeminiService.readAsDataURL_result svc2 file2 = Normal s ->
        GeminiService.fileToGenerativePart svc2 file2 tt
        = (Normal None, tt, [GeminiService.readAsDataURL file2])).
Proof.
  intros Hheader Hpayload Hread.
  assert (Hpart : GeminiService.fileToGenerativePart svc file tt
                  = (Normal (Some payload), tt,
                     [GeminiService.readAsDataURL file])).
  { unfold GeminiService.fileToGenerativePart, Effect.bind, Effect.call,
      Effect.await, Effect.ret.
    rewrite Hread. cbn [fst snd app].
    rewrite (split_comma_1_app _ _ Hheader),
      (until_comma_noComma _ Hpayload). reflexivity. }
  split; [exact Hpart |]. split.
  - unfold GeminiService.identifyDoll, Effect.try_catch,
      GeminiService.identifyDoll_try.
    unfold Effect.bind at 1. rewrite Hpart.
    unfold Effect.bind, Effect.call, Effect.await, Effect.ret.
    destruct (GeminiService.generateContent_result svc _) as [text | e].
    + destruct (GeminiService.JSON_parse svc _) as [v | e];
        do 2 eexists; (split; [reflexivity |]); simpl; auto.
    + do 2 eexists. split; [reflexivity |]. simpl. auto.
  - intros svc2 file2 s Hs Hread2.
    unfold GeminiService.fileToGenerativePart, Effect.bind, Effect.call,
      Effect.await, Effect.ret.
    rewrite Hread2. cbn [fst snd app].
    rewrite (split_comma_1_noComma _ Hs). reflexivity.
Qed.


Lemma data_url_payload_witness :
  GeminiService.fileToGenerativePart Sample.service_down Sample.photo tt
  = (Normal (Some "AAAA"), tt, [GeminiService.readAsDataURL Sample.photo]).
Proof.
  exact (proj1 (data_url_payload Sample.service_down Sample.photo
                  "data:image/png;base64" "AAAA" eq_refl eq_refl eq_refl)).
Defined.


(** ** The application shell *)

(** Splits a membership in a concrete trace into its cases and closes
    those that name a different call. *)
Ltac trace_cases H :=
  cbn in H;
  repeat match goal with
         | K : _ \/ _ |- _ => destruct K as [K | K]
         end;
  try discriminate; try contradiction.

(** X24.  [initTopic] always returns normally and always ends the initial
    loading, so the spinner is never shown afterwards.  It creates a topic
    only when the first query succeeded and found none, and then under the
    name "My Collection"; when the query found topics, the first becomes
    the current topic and nothing is created.  Whenever a failure is
    logged, the current topic is as it was. *)
Theorem init_topic_outcomes (backend : App.Backend) (st : App.State) :
  exists st' trace,
    App.initTopic backend st = (Normal tt, st', trace)
    /\ App.initLoading st' = false
    /\ App.renderView st' <> App.Spinner
    /\ App.currentView st' = App.currentView st
    /\ (forall name, In (App.topics_insert name) trace ->
          name = "My Collection"
          /\ exists selected,
               App.select_result backend = Normal selected
               /\ App.error selected = None
               /\ (App.data selected = None \/ App.data selected = Some []))
    /\ (forall selected first rest,
          App.select_result backend = Normal selected ->
          App.error selected = None ->
          App.data selected = Some (first :: rest) ->
          App.currentTopic st' = Some first
          /\ trace = [App.topics_select])
    /\ (forall label err, In (App.console_error label err) trace ->
          App.currentTopic st' = App.currentTopic st).
Proof.
  assert (Hleaf : forall r st' trace,
    r = Normal tt ->
    App.initLoading st' = false ->
    App.currentView st' = App.currentView st ->
    (forall name, In (App.topics_insert name) trace ->
          name = "My Collection"
          /\ exists selected,
               App.select_result backend = Normal selected
               /\ App.error selected = None
               /\ (App.data selected = None \/ App.data selected = Some [])) ->
    (forall selected first rest,
          App.select_result backend = Normal selected ->
          App.error selected = None ->
          App.data selected = Some (first :: rest) ->
          App.currentTopic st' = Some first
          /\ trace = [App.topics_select]) ->
    (forall label err, In (App.console_error label err) trace ->
          App.currentTopic st' = App.currentTopic st) ->
    exists st'' trace'',
      (r, st', trace) = (Normal tt, st'', trace'')
      /\ App.initLoading st'' = false
      /\ App.renderView st'' <> App.Spinner
      /\ App.currentView st'' = App.currentView st
      /\ (forall name, In (App.topics_insert name) trace'' ->
            name = "My Collection"
            /\ exists selected,
                 App.select_result backend = Normal selected
                 /\ App.error selected = None
                 /\ (App.data selected = None
                     \/ App.data selected = Some []))
      /\ (forall selected first rest,
            App.select_result backend = Normal selected ->
            App.error selected = None ->
            App.data selected = Some (first :: rest) ->
            App.currentTopic st'' = Some first
            /\ trace'' = [App.topics_select])
      /\ (forall label err, In (App.console_error label err) trace'' ->
            App.currentTopic st'' = App.currentTopic st)).
  { intros r st' trace -> Hdone Hview Hinsert Hfirst Hlog.
    exists st', trace. split; [reflexivity |]. split; [exact Hdone |].
    split.
    { unfold App.renderView. rewrite Hdone.
      destruct (App.currentTopic st'); [destruct (App.currentView st') |];
        discriminate. }
    auto. }
  unfold App.initTopic, Effect.try_catch_finally, Effect.bind, Effect.call,
    Effect.await, Effect.modify, Effect.throw.
  destruct (App.select_result backend) as [selected | e] eqn:Hselect; cbn.
  2:{ apply Hleaf; try reflexivity.
      - intros name Hin. trace_cases Hin.
      - intros sel first rest Heq. discriminate Heq. }
  destruct (App.error selected) as [err |] eqn:Herror; cbn.
  { apply Hleaf; try reflexivity.
    - intros name Hin. trace_cases Hin.
    - intros sel first rest Heq Herr. injection Heq as <-. congruence. }
  assert (Hcreate :
    App.data selected = None \/ App.data selected = Some [] ->
    forall name, name = "My Collection" ->
    name = "My Collection"
    /\ exists selected0,
         Normal selected = Normal selected0
         /\ App.error selected0 = None
         /\ (App.data selected0 = None \/ App.data selected0 = Some [])).
  { intros Hempty name ->. split; [reflexivity |].
    exists selected. auto. }
  assert (Hnone :
    App.data selected = None \/ App.data selected = Some [] ->
    forall (sel : App.QueryResult (list Topic.t)) first rest
           (st' : App.State) (trace : list App.Call),
      Normal selected = Normal sel -> App.error sel = None ->
      App.data sel = Some (first :: rest) ->
      App.currentTopic st' = Some first /\ trace = [App.topics_select]).
  { intros Hempty sel first rest st' trace Heq _ Hd.
    injection Heq as <-. destruct Hempty; congruence. }
  destruct (App.data selected) as [[| first rest] |] eqn:Hdata; cbn.
  2:{ apply Hleaf; try reflexivity.
      - intros name Hin. trace_cases Hin.
      - intros sel f r Heq _ Hd. injection Heq as <-.
        rewrite Hdata in Hd. injection Hd as <- <-.
        split; reflexivity.
      - intros label err Hin. trace_cases Hin. }
  all: destruct (App.insert_result backend "My Collection")
         as [created | e] eqn:Hins; cbn;
       [destruct (App.error created) as [createError |] eqn:Hcreated; cbn |];
       apply Hleaf; try reflexivity;
       try (intros name Hin; trace_cases Hin;
            match goal with
            | K : App.topics_insert _ = App.topics_insert _ |- _ =>
                injection K as <-
            end;
            apply Hcreate; auto);
       try (intros sel f r; apply Hnone; auto);
       try (intros label err Hin; trace_cases Hin).
Qed.


Lemma filterStage_category {H : Host} (categoryId dateFilterValue : string)
    (clock : nat -> Z) (items : list Doll.t) :
  ViewRules.isReserved categoryId = false ->
  HomeView.filterStage categoryId dateFilterValue clock items
  = Normal (filter (HomeView.categoryPredicate categoryId) items).
Proof.
  unfold ViewRules.isReserved. intro Hfree.
  apply orb_false_iff in Hfree. destruct Hfree as [Hfree Hall].
  apply orb_false_iff in Hfree. destruct Hfree as [Hnew Hdate].
  unfold HomeView.filterStage. rewrite Hnew, Hdate, Hall. reflexivity.
Qed.

Lemma categoryPredicate_true (categoryId : string) (d : Doll.t) :
  HomeView.categoryPredicate categoryId d = true
  <-> Doll.category_id d = Some categoryId.
Proof.
  unfold HomeView.categoryPredicate.
  destruct (Doll.category_id d) as [c |].
  - rewrite String.eqb_eq. split; congruence.
  - split; discriminate.
Qed.

(** X25.  Choosing a category in the category tab leads to the home view
    filtered by that category.  [handleSelectCategory] switches to the
    home view and hands the identifier over; the redirect effect of the
    home view makes it the active filter and clears the hand-over, so that
    running the effect again changes nothing; and the filter stage then
    keeps exactly the items of that category.  (The identifier is not
    empty and is none of the words NEW, DATE_FILTER, ALL.) *)
Theorem select_category_filters_home {H : Host} (categoryId : string)
    (st : App.State) (topic : Topic.t) (activeFilter dateFilterValue : string)
    (clock : nat -> Z) (items : list Doll.t) :
  categoryId <> "" ->
  ViewRules.isReserved categoryId = false ->
  App.initLoading st = false ->
  App.currentTopic st = Some topic ->
  let selected := App.handleSelectCategory categoryId st in
  let '(cleared, filter') := App.redirectEffect selected activeFilter in
  App.renderView selected = App.HomeScreen topic (Some categoryId)
  /\ filter' = categoryId
  /\ App.renderView cleared = App.HomeScreen topic None
  /\ App.redirectEffect cleared filter' = (cleared, filter')
  /\ exists shown,
       HomeView.filterStage filter' dateFilterValue clock items = Normal shown
       /\ forall d, In d shown <->
                    In d items /\ Doll.category_id d = Some categoryId.
Proof.
  intros Hfilled Hfree Hloaded Htopic. cbv zeta.
  unfold App.redirectEffect, App.handleSelectCategory.
  cbn [App.homeInitialCategoryId App.setCurrentView
       App.setHomeInitialCategoryId].
  rewrite truthy_Some.
  destruct (String.eqb_spec categoryId "") as [Hempty | _];
    [contradiction |].
  cbn [negb].
  split; [unfold App.renderView; cbn; rewrite Hloaded, Htopic; reflexivity |].
  split; [reflexivity |].
  split; [unfold App.renderView; cbn; rewrite Hloaded, Htopic; reflexivity |].
  split; [reflexivity |].
  exists (filter (HomeView.categoryPredicate categoryId) items).
  split; [apply filterStage_category; exact Hfree |].
  intro d. rewrite filter_In, categoryPredicate_true. reflexivity.
Qed.

Lemma select_category_filters_home_witness :
  exists shown,
    HomeView.filterStage (H := SimpleHost.host)
      (snd (App.redirectEffect
              (App.handleSelectCategory "cat-7"
                 {| App.currentView := ViewState.CATEGORY;
                    App.currentTopic :=
                      Some {| Topic.id := "topic-1";
                              Topic.name := "My Collection";
                              Topic.created_at := "2024-05-01T00:00:00Z" |};
                    App.initLoading := false;
                    App.homeInitialCategoryId := None |})
              "ALL"))
      "" (Sample.clock 0) [Sample.bella; Sample.apollo]
    = Normal shown
    /\ forall d, In d shown <->
                 In d [Sample.bella; Sample.apollo]
                 /\ Doll.category_id d = Some "cat-7".
Proof.
  assert (Hfilled : "cat-7" <> "") by discriminate.
  exact (proj2 (proj2 (proj2 (proj2
           (select_category_filters_home (H := SimpleHost.host) "cat-7"
              {| App.currentView := ViewState.CATEGORY;
                 App.currentTopic :=
                   Some {| Topic.id := "topic-1";
                           Topic.name := "My Collection";
                           Topic.created_at := "2024-05-01T00:00:00Z" |};
                 App.initLoading := false;
                 App.homeInitialCategoryId := None |}
              {| Topic.id := "topic-1"; Topic.name := "My Collection";
                 Topic.created_at := "2024-05-01T00:00:00Z" |}
              "ALL" "" (Sample.clock 0) [Sample.bella; Sample.apollo]
              Hfilled eq_refl eq_refl eq_refl))))).
Defined.


(** ** Editing a category *)




(** ** Loading the collection *)

(** X27.  [fetchData] replaces the items and the categories together or
    not at all.  It always returns normally with [loading] back to false.
    Both lists are replaced only when both queries answered without error
    (an answer without data counting as an empty list); in every other
    case both lists are as they were and the failure is logged.  The
    second query is sent even when the first answered with an error, and
    that first error is then the one logged; only a rejected first query
    stops the second from being sent.  Without a current topic nothing
    happens. *)
Theorem fetch_data_all_or_nothing (backend : HomeViewFetch.Backend)
    (topic : Topic.t) (st : HomeViewFetch.State) :
  exists st' trace,
    HomeViewFetch.fetchData backend (Some topic) st = (Normal tt, st', trace)
    /\ HomeViewFetch.loading st' = false
    /\ ((exists dollsAnswer catAnswer,
           HomeViewFetch.dolls_result backend (Topic.id topic)
           = Normal dollsAnswer
           /\ HomeViewFetch.categories_result backend (Topic.id topic)
              = Normal catAnswer
           /\ App.error dollsAnswer = None
           /\ App.error catAnswer = None
           /\ HomeViewFetch.dolls st'
              = HomeViewFetch.data_or_empty (App.data dollsAnswer)
           /\ HomeViewFetch.categories st'
              = HomeViewFetch.data_or_empty (App.data catAnswer)
           /\ forall label err,
                ~ In (HomeViewFetch.console_error label err) trace)
        \/
        (HomeViewFetch.dolls st' = HomeViewFetch.dolls st
         /\ HomeViewFetch.categories st' = HomeViewFetch.categories st
         /\ exists err,
              In (HomeViewFetch.console_error "Error fetching data:" err)
                 trace))
    /\ (forall dollsAnswer,
          HomeViewFetch.dolls_result backend (Topic.id topic)
          = Normal dollsAnswer ->
          In (HomeViewFetch.categories_select (Topic.id topic)) trace)
    /\ (forall e,
          HomeViewFetch.dolls_result backend (Topic.id topic) = Throw e ->
          ~ In (HomeViewFetch.categories_select (Topic.id topic)) trace)
    /\ (forall dollsAnswer catAnswer dollsError,
          HomeViewFetch.dolls_result backend (Topic.id topic)
          = Normal dollsAnswer ->
          HomeViewFetch.categories_result backend (Topic.id topic)
          = Normal catAnswer ->
          App.error dollsAnswer = Some dollsError ->
          In (HomeViewFetch.console_error "Error fetching data:" dollsError)
             trace)
    /\ HomeViewFetch.fetchData backend None st = (Normal tt, st, []).
Proof.
  unfold HomeViewFetch.fetchData, Effect.try_catch_finally, Effect.bind,
    Effect.call, Effect.await, Effect.modify, Effect.throw, Effect.ret.
  destruct (HomeViewFetch.dolls_result backend (Topic.id topic))
    as [dollsAnswer | e1] eqn:Hdolls; cbn.
  2:{ do 2 eexists. split; [reflexivity |]. split; [reflexivity |].
      split; [right; split; [reflexivity |]; split; [reflexivity |];
              eexists; cbn; auto |].
      split; [discriminate |].
      split; [intros e _ Hin; trace_cases Hin |].
      split; [discriminate | reflexivity]. }
  destruct (HomeViewFetch.categories_result backend (Topic.id topic))
    as [catAnswer | e2] eqn:Hcats; cbn.
  2:{ do 2 eexists. split; [reflexivity |]. split; [reflexivity |].
      split; [right; split; [reflexivity |]; split; [reflexivity |];
              eexists; cbn; auto |].
      split; [intros; cbn; auto |].
      split; [discriminate |].
      split; [discriminate | reflexivity]. }
  destruct (App.error dollsAnswer) as [dollsError |] eqn:Herr1; cbn.
  { do 2 eexists. split; [reflexivity |]. split; [reflexivity |].
    split; [right; split; [reflexivity |]; split; [reflexivity |];
            eexists; cbn; auto |].
    split; [intros; cbn; auto |].
    split; [discriminate |].
    split; [| reflexivity].
    intros da ca de Hda _ Hde. injection Hda as <-.
    rewrite Herr1 in Hde. injection Hde as <-. cbn. auto. }
  destruct (App.error catAnswer) as [catError |] eqn:Herr2; cbn.
  { do 2 eexists. split; [reflexivity |]. split; [reflexivity |].
    split; [right; split; [reflexivity |]; split; [reflexivity |];
            eexists; cbn; auto |].
    split; [intros; cbn; auto |].
    split; [discriminate |].
    split; [| reflexivity].
    intros da ca de Hda _ Hde. injection Hda as <-. congruence. }
  do 2 eexists. split; [reflexivity |]. split; [reflexivity |].
  split.
  { left. exists dollsAnswer, catAnswer.
    repeat (split; [reflexivity || assumption |]).
    intros label err Hin. trace_cases Hin. }
  split; [intros; cbn; auto |].
  split; [discriminate |].
  split; [| reflexivity].
  intros da ca de Hda _ Hde. injection Hda as <-. congruence.
Qed.


(** ** AI autofill of the form *)



(** X28.  [handleAiAutofill] without an image only shows the alert asking
    for one.  With an image it always returns normally with the loading
    flag back to false, and never touches the category, the date or the
    image of the form.  Whenever the user is told that the analysis
    failed, the form keeps what it held.  When the request to the service
    failed, no alert is shown: the name and the description of the form
    are kept, and the sizes are reset to Normal alone.  The sizes written
    are those the handler started from, or Normal, Small or both. *)
Theorem ai_autofill_outcomes (svc : GeminiService.Service)
    (whileWaiting : HomeViewAutofill.Form -> HomeViewAutofill.Form)
    (st : HomeViewAutofill.State) (file : File.t) :
  HomeViewAutofill.imageFile (HomeViewAutofill.formData st) = Some file ->
  let waited := whileWaiting (HomeViewAutofill.formData st) in
  (exists st' trace,
     HomeViewAutofill.handleAiAutofill svc whileWaiting st
     = (Normal tt, st', trace)
     /\ HomeViewAutofill.isAiLoading st' = false
     /\ HomeViewAutofill.category_id (HomeViewAutofill.formData st')
        = HomeViewAutofill.category_id waited
     /\ HomeViewAutofill.catch_date (HomeViewAutofill.formData st')
        = HomeViewAutofill.catch_date waited
     /\ HomeViewAutofill.imageFile (HomeViewAutofill.formData st')
        = HomeViewAutofill.imageFile waited
     /\ (In (HomeViewAutofill.alert "AI Analysis failed. Please try again.")
            trace ->
         HomeViewAutofill.formData st' = waited)
     /\ (forall e t0,
           GeminiService.identifyDoll_try svc file tt = (Throw e, tt, t0) ->
           HomeViewAutofill.name (HomeViewAutofill.formData st')
           = HomeViewAutofill.name waited
           /\ HomeViewAutofill.description (HomeViewAutofill.formData st')
              = HomeViewAutofill.description waited
           /\ HomeViewAutofill.size (HomeViewAutofill.formData st')
              = ["Normal"]
           /\ forall message, ~ In (HomeViewAutofill.alert message) trace)
     /\ (HomeViewAutofill.size (HomeViewAutofill.formData st')
         = HomeViewAutofill.size waited
         \/ HomeViewAutofill.size (HomeViewAutofill.formData st')
            = HomeViewAutofill.size (HomeViewAutofill.formData st)
         \/ HomeViewAutofill.size (HomeViewAutofill.formData st')
            = ["Normal"]
         \/ HomeViewAutofill.size (HomeViewAutofill.formData st')
            = ["Small"]
         \/ HomeViewAutofill.size (HomeViewAutofill.formData st')
            = ["Normal"; "Small"]))
  /\ (forall st0,
        HomeViewAutofill.imageFile (HomeViewAutofill.formData st0) = None ->
        HomeViewAutofill.handleAiAutofill svc whileWaiting st0
        = (Normal tt, st0,
           [HomeViewAutofill.alert "Please upload an image first."])).
Proof.
  intros Himage waited. split.
  2:{ intros st0 Hnone.
      unfold HomeViewAutofill.handleAiAutofill, Effect.bind, Effect.get,
        Effect.call.
      cbn [fst snd]. rewrite Hnone. reflexivity. }
  destruct (identifyDoll_result svc file) as (v & t & Hrun & Hfallback).
  unfold HomeViewAutofill.handleAiAutofill.
  unfold Effect.bind at 1. unfold Effect.get at 1. cbv zeta.
  rewrite Himage.
  unfold Effect.try_catch_finally, Effect.bind, Effect.call, Effect.await,
    Effect.modify, HomeViewAutofill.liftGemini.
  rewrite Hrun.
  destruct (HomeViewSizes.newSizes
              (HomeViewAutofill.size (HomeViewAutofill.formData st)) v)
    as [sizes | e] eqn:Hsizes.
  - destruct (newSizes_reads _ _ _ "name" Hsizes) as (aiName & Hname).
    destruct (newSizes_reads _ _ _ "description" Hsizes)
      as (aiDescription & Hdescription).
    rewrite Hname, Hdescription. cbn.
    do 2 eexists. split; [reflexivity |]. split; [reflexivity |].
    split; [reflexivity |]. split; [reflexivity |]. split; [reflexivity |].
    assert (Hquiet : forall message,
              ~ In (HomeViewAutofill.alert message)
                  (map HomeViewAutofill.gemini t)).
    { intros message Hin.
      apply in_map_iff in Hin. destruct Hin as (c & Hc & _). discriminate. }
    split; [intro Hin; exfalso; rewrite !app_nil_r in Hin;
            exact (Hquiet _ Hin) |].
    split.
    + intros e t0 Hthrow. specialize (Hfallback e t0 Hthrow). subst v.
      cbn in Hname, Hdescription, Hsizes.
      injection Hname as <-. injection Hdescription as <-.
      injection Hsizes as <-.
      split; [reflexivity |]. split; [reflexivity |].
      split; [reflexivity |].
      intros message Hin. rewrite !app_nil_r in Hin. exact (Hquiet _ Hin).
    + right. exact (newSizes_shape _ _ _ Hsizes).
  - cbn. do 2 eexists. split; [reflexivity |]. split; [reflexivity |].
    split; [reflexivity |]. split; [reflexivity |]. split; [reflexivity |].
    split; [reflexivity |]. split.
    + intros e0 t0 Hthrow. specialize (Hfallback e0 t0 Hthrow). subst v.
      cbn in Hsizes. discriminate.
    + left. reflexivity.
Qed.

Lemma ai_autofill_outcomes_witness :
  exists st' trace,
    HomeViewAutofill.handleAiAutofill Sample.service_down (fun f => f)
      {| HomeViewAutofill.formData :=
           {| HomeViewAutofill.name := GeminiService.JString "Bella";
              HomeViewAutofill.description := GeminiService.JString "";
              HomeViewAutofill.size := ["Small"];
              HomeViewAutofill.category_id := "";
              HomeViewAutofill.catch_date := "2024-05-03";
              HomeViewAutofill.imageFile := Some Sample.photo |};
         HomeViewAutofill.isAiLoading := false |}
    = (Normal tt, st', trace)
    /\ HomeViewAutofill.name (HomeViewAutofill.formData st')
       = GeminiService.JString "Bella"
    /\ HomeViewAutofill.size (HomeViewAutofill.formData st') = ["Normal"].
Proof.
  destruct (proj1 (ai_autofill_outcomes Sample.service_down (fun f => f)
              {| HomeViewAutofill.formData :=
                   {| HomeViewAutofill.name := GeminiService.JString "Bella";
                      HomeViewAutofill.description :=
                        GeminiService.JString "";
                      HomeViewAutofill.size := ["Small"];
                      HomeViewAutofill.category_id := "";
                      HomeViewAutofill.catch_date := "2024-05-03";
                      HomeViewAutofill.imageFile := Some Sample.photo |};
                 HomeViewAutofill.isAiLoading := false |}
              Sample.photo eq_refl))
    as (st' & trace & Hrun & _ & _ & _ & _ & _ & Hdown & _).
  exists st', trace. split; [exact Hrun |].
  destruct (Hdown (Rejected "503")
              [GeminiService.readAsDataURL Sample.photo;
               GeminiService.generateContent
                 {| GeminiService.model := "gemini-3-flash-preview";
                    GeminiService.mimeType := "image/png";
                    GeminiService.data := Some "AAAA";
                    GeminiService.required :=
                      ["name"; "description"; "size"] |}]
              eq_refl)
    as (Hname & _ & Hsize & _).
  split; [exact Hname | exact Hsize].
Defined.


(** ** Deleting a collection *)

(** X29.  After [handleDeleteTopic] has deleted a topic, the application
    never stays on the deleted topic: the list no longer holds it, and
    either the page is reloaded (exactly when no topic remains), or the
    current topic is one whose identifier differs from the deleted one.
    It switches topic only when the deleted topic was the current one,
    and then to the first remaining topic, in the home view.  When the
    request fails, nothing changes and the user is told. *)
Theorem delete_topic_leaves_current_valid
    (delete_result : string -> completion (option exn))
    (currentTopic : Topic.t) (topicId : string) (st : ProfileView.State) :
  App.currentTopic (ProfileView.app st) = Some currentTopic ->
  exists st' trace,
    ProfileView.handleDeleteTopic delete_result currentTopic topicId st
    = (Normal tt, st', trace)
    /\ (delete_result topicId <> Normal None ->
        st' = st /\ In (ProfileView.alert "Failed to delete.") trace)
    /\ (delete_result topicId = Normal None ->
        (forall t, In t (ProfileView.topics st') <->
                   In t (ProfileView.topics st) /\ Topic.id t <> topicId)
        /\ ProfileView.deletingTopicId st' = None
        /\ (In ProfileView.window_location_reload trace
            <-> ProfileView.topics st' = [])
        /\ (In ProfileView.window_location_reload trace
            \/ exists t,
                 App.currentTopic (ProfileView.app st') = Some t
                 /\ Topic.id t <> topicId)
        /\ (forall t, In (ProfileView.onSwitchTopic t) trace ->
              Topic.id currentTopic = topicId
              /\ hd_error (ProfileView.topics st') = Some t
              /\ App.currentTopic (ProfileView.app st') = Some t
              /\ App.currentView (ProfileView.app st') = ViewState.HOME)
        /\ (Topic.id currentTopic <> topicId ->
            ProfileView.app st' = ProfileView.app st)).
Proof.
  intro Hcurrent.
  unfold ProfileView.handleDeleteTopic.
  unfold Effect.bind at 1. unfold Effect.get at 1. cbv zeta.
  unfold Effect.try_catch, Effect.bind, Effect.call, Effect.await,
    Effect.modify, Effect.throw, Effect.ret.
  destruct (delete_result topicId) as [[err |] | e] eqn:Hdelete.
  1,3: cbn; do 2 eexists; (split; [reflexivity |]);
       (split; [intros _; split; [reflexivity | cbn; auto] |]);
       discriminate.
  assert (Hremaining : forall t,
            In t (filter (fun t => negb (String.eqb (Topic.id t) topicId))
                    (ProfileView.topics st)) <->
            In t (ProfileView.topics st) /\ Topic.id t <> topicId).
  { intro t. rewrite filter_In, negb_true_iff, String.eqb_neq.
    reflexivity. }
  destruct (filter (fun t => negb (String.eqb (Topic.id t) topicId))
              (ProfileView.topics st)) as [| first rest] eqn:Hfilter.
  - rewrite andb_false_r. cbn.
    do 2 eexists. split; [reflexivity |].
    split; [intro Hne; exfalso; apply Hne; reflexivity |]. intros _.
    split; [exact Hremaining |]. split; [reflexivity |].
    split; [split; [reflexivity | cbn; auto] |].
    split; [left; cbn; auto |].
    split; [intros t Hin; trace_cases Hin | reflexivity].
  - assert (Hfirst : Topic.id first <> topicId).
    { apply (Hremaining first). left. reflexivity. }
    destruct (String.eqb_spec (Topic.id currentTopic) topicId)
      as [Hsame | Hother]; cbn.
    + do 2 eexists. split; [reflexivity |].
      split; [intro Hne; exfalso; apply Hne; reflexivity |]. intros _.
      split; [exact Hremaining |]. split; [reflexivity |].
      split.
      { split; [intro Hin; trace_cases Hin | discriminate]. }
      split; [right; exists first; split; [reflexivity | exact Hfirst] |].
      split; [| intro Hne; contradiction].
      intros t Hin. trace_cases Hin.
      match goal with
      | K : ProfileView.onSwitchTopic _ = ProfileView.onSwitchTopic _ |- _ =>
          injection K as <-
      end.
      repeat split. exact Hsame.
    + do 2 eexists. split; [reflexivity |].
      split; [intro Hne; exfalso; apply Hne; reflexivity |]. intros _.
      split; [exact Hremaining |]. split; [reflexivity |].
      split.
      { split; [intro Hin; trace_cases Hin | discriminate]. }
      split.
      { right. exists currentTopic. split; [exact Hcurrent | exact Hother]. }
      split; [intros t Hin; trace_cases Hin | reflexivity].
Qed.

Lemma delete_topic_leaves_current_valid_witness :
  exists st' trace,
    ProfileView.handleDeleteTopic (fun _ => Normal None)
      {| Topic.id := "topic-1"; Topic.name := "My Collection";
         Topic.created_at := "2024-05-01T00:00:00Z" |}
      "topic-1"
      {| ProfileView.app :=
           {| App.currentView := ViewState.PROFILE;
              App.currentTopic :=
                Some {| Topic.id := "topic-1"; Topic.name := "My Collection";
                        Topic.created_at := "2024-05-01T00:00:00Z" |};
              App.initLoading := false;
              App.homeInitialCategoryId := None |};
         ProfileView.topics :=
           [ {| Topic.id := "topic-1"; Topic.name := "My Collection";
                Topic.created_at := "2024-05-01T00:00:00Z" |} ];
         ProfileView.deletingTopicId := Some "topic-1" |}
    = (Normal tt, st', trace)
    /\ (In ProfileView.window_location_reload trace
        <-> ProfileView.topics st' = []).
Proof.
  destruct (delete_topic_leaves_current_valid (fun _ => Normal None)
              {| Topic.id := "topic-1"; Topic.name := "My Collection";
                 Topic.created_at := "2024-05-01T00:00:00Z" |}
              "topic-1"
              {| ProfileView.app :=
                   {| App.currentView := ViewState.PROFILE;
                      App.currentTopic :=
                        Some {| Topic.id := "topic-1";
                                Topic.name := "My Collection";
                                Topic.created_at := "2024-05-01T00:00:00Z" |};
                      App.initLoading := false;
                      App.homeInitialCategoryId := None |};
                 ProfileView.topics :=
                   [ {| Topic.id := "topic-1"; Topic.name := "My Collection";
                        Topic.created_at := "2024-05-01T00:00:00Z" |} ];
                 ProfileView.deletingTopicId := Some "topic-1" |}
              eq_refl)
    as (st' & trace & Hrun & _ & Hdeleted).
  exists st', trace. split; [exact Hrun |].
  exact (proj1 (proj2 (proj2 (Hdeleted eq_refl)))).
Defined.


(** ** The AI service over the Perplexity API *)

Lemma bind_ret_l {S E A B : Type} (a : A) (k : A -> @Effect.M S E B) (s : S) :
  Effect.bind (Effect.ret a) k s = k a s.
Proof.
  unfold Effect.bind, Effect.ret. destruct (k a s) as [[r s2] t2].
  reflexivity.
Qed.

Lemma bind_await_normal {S E A B : Type} (a : A) (k : A -> @Effect.M S E B)
    (s : S) :
  Effect.bind (Effect.await (Normal a)) k s = k a s.
Proof.
  unfold Effect.bind, Effect.await. destruct (k a s) as [[r s2] t2].
  reflexivity.
Qed.

Lemma bind_normal {S E A B : Type} (m : @Effect.M S E A)
    (k : A -> @Effect.M S E B) (s s1 : S) (a : A) (t1 : list E) :
  m s = (Normal a, s1, t1) ->
  Effect.bind m k s
  = (let '(r, s2, t2) := k a s1 in (r, s2, (t1 ++ t2)%list)).
Proof. intro Hm. unfold Effect.bind. rewrite Hm. reflexivity. Qed.

Lemma bind_throw {S E A B : Type} (m : @Effect.M S E A)
    (k : A -> @Effect.M S E B) (s s1 : S) (e : exn) (t1 : list E) :
  m s = (Throw e, s1, t1) ->
  Effect.bind m k s = (Throw e, s1, t1).
Proof. intro Hm. unfold Effect.bind. rewrite Hm. reflexivity. Qed.

Lemma bind_await_throw {S E A B : Type} (e : exn) (k : A -> @Effect.M S E B)
    (s : S) :
  Effect.bind (Effect.await (Throw e)) k s = (Throw e, s, []).
Proof. reflexivity. Qed.

Section Perplexity.
Import PerplexityService.

(** One run of [callPerplexity] with a single message and a schema: the
    request it sends, and what it does with the response. *)
Lemma callPerplexity_run (svc : Service) (m : Message)
    (imageBase64 : option string) (mimeType : string) (schema : list string) :
  exists items,
    (forall d mt, In (image_item d mt) items <->
                  imageBase64 = Some d /\ d <> "" /\ mt = mimeType
                  /\ mimeType <> "")
    /\ (forall p, ~ In (text_item p) items)
    /\ exists r t,
         let payload :=
           {| model := "sonar-pro";
              messages :=
                [ {| role := role m;
                     content := (content m ++ items)%list |} ];
              stream := false;
              tools := Some schema |} in
         callPerplexity svc [m] imageBase64 (Some mimeType) (Some schema) tt
         = (r, tt,
            fetch PERPLEXITY_API_URL
              ("Bearer " ++ PERPLEXITY_API_KEY svc)%string payload :: t)
         /\ (forall u a q, ~ In (fetch u a q) t)
         /\ (forall l e, ~ In (console_error l e) t)
         /\ (In res_json t ->
             exists res, fetch_result svc payload = Normal res
                         /\ ok res = true)
         /\ (forall res, fetch_result svc payload = Normal res ->
             ok res = false ->
             r = Throw (Rejected "Perplexity API error")).
Proof.
  assert (Hrest : forall payload,
    exists r t,
      Effect.bind
        (Effect.call
           (fetch PERPLEXITY_API_URL
              ("Bearer " ++ PERPLEXITY_API_KEY svc)%string payload))
        (fun _ =>
           Effect.bind (Effect.await (fetch_result svc payload)) (fun res =>
           if negb (ok res)
           then Effect.throw (Rejected "Perplexity API error")
           else
             Effect.bind (Effect.call res_json) (fun _ =>
             Effect.bind (Effect.await (json res)) (fun data =>
             Effect.bind
               (Effect.await (GeminiService.getProperty data "choices"))
               (fun choices =>
                  let answer :=
                    optional_property
                      (optional_property (optional_index0 choices) "message")
                      "content" in
                  Effect.ret
                    (if GeminiService.ToBoolean answer then answer
                     else GeminiService.JString "{}")))))) tt
      = (r, tt,
         fetch PERPLEXITY_API_URL
           ("Bearer " ++ PERPLEXITY_API_KEY svc)%string payload :: t)
      /\ (forall u a q, ~ In (fetch u a q) t)
      /\ (forall l e, ~ In (console_error l e) t)
      /\ (In res_json t ->
          exists res, fetch_result svc payload = Normal res
                      /\ ok res = true)
      /\ (forall res, fetch_result svc payload = Normal res ->
          ok res = false ->
          r = Throw (Rejected "Perplexity API error"))).
  { intro payload.
    unfold Effect.bind at 1. unfold Effect.call at 1.
    unfold Effect.bind at 1. unfold Effect.await at 1.
    destruct (fetch_result svc payload) as [res | e] eqn:Hfetch.
    2:{ do 2 eexists. split; [reflexivity |].
        split; [intros u a q [] |]. split; [intros l e0 [] |].
        split; [intros [] | discriminate]. }
    destruct (ok res) eqn:Hok; cbn [negb].
    2:{ unfold Effect.throw. do 2 eexists. split; [reflexivity |].
        split; [intros u a q [] |]. split; [intros l e0 [] |].
        split; [intros [] | reflexivity]. }
    assert (Hokay : forall (r : completion GeminiService.JsValue) res0,
              Normal res = Normal res0 -> ok res0 = false ->
              r = Throw (Rejected "Perplexity API error")).
    { intros r res0 Heq Hno. injection Heq as <-. congruence. }
    unfold Effect.bind, Effect.call, Effect.await, Effect.ret.
    destruct (json res) as [data | e].
    2:{ do 2 eexists. split; [reflexivity |].
        split; [intros u a q Hin; trace_cases Hin |].
        split; [intros l e0 Hin; trace_cases Hin |].
        split; [intros _; exists res; auto | apply Hokay]. }
    destruct (GeminiService.getProperty data "choices") as [choices | e];
      do 2 eexists; (split; [reflexivity |]);
      (split; [intros u a q Hin; trace_cases Hin |]);
      (split; [intros l e0 Hin; trace_cases Hin |]);
      (split; [intros _; exists res; auto | apply Hokay]). }
  assert (Hplain :
    exists r t,
      let payload :=
        {| model := "sonar-pro";
           messages :=
             [ {| role := role m; content := (content m ++ [])%list |} ];
           stream := false;
           tools := Some schema |} in
      Effect.bind
        (Effect.ret {| model := "sonar-pro"; messages := [m];
                       stream := false; tools := None |})
        (fun payload =>
           let payload := set_tools payload schema in
           Effect.bind
             (Effect.call
                (fetch PERPLEXITY_API_URL
                   ("Bearer " ++ PERPLEXITY_API_KEY svc)%string payload))
             (fun _ =>
                Effect.bind (Effect.await (fetch_result svc payload))
                  (fun res =>
                     if negb (ok res)
                     then Effect.throw (Rejected "Perplexity API error")
                     else
                       Effect.bind (Effect.call res_json) (fun _ =>
                       Effect.bind (Effect.await (json res)) (fun data =>
                       Effect.bind
                         (Effect.await
                            (GeminiService.getProperty data "choices"))
                         (fun choices =>
                            let answer :=
                              optional_property
                                (optional_property
                                   (optional_index0 choices) "message")
                                "content" in
                            Effect.ret
                              (if GeminiService.ToBoolean answer then answer
                               else GeminiService.JString "{}"))))))) tt
      = (r, tt,
         fetch PERPLEXITY_API_URL
           ("Bearer " ++ PERPLEXITY_API_KEY svc)%string payload :: t)
      /\ (forall u a q, ~ In (fetch u a q) t)
      /\ (forall l e, ~ In (console_error l e) t)
      /\ (In res_json t ->
          exists res, fetch_result svc payload = Normal res
                      /\ ok res = true)
      /\ (forall res, fetch_result svc payload = Normal res ->
          ok res = false ->
          r = Throw (Rejected "Perplexity API error"))).
  { rewrite app_nil_r. destruct m as [mrole mcontent]. cbn [role content].
    destruct (Hrest {| model := "sonar-pro";
                       messages :=
                         [ {| role := mrole; content := mcontent |} ];
                       stream := false; tools := Some schema |})
      as (r & t & Hrun & Hrest').
    exists r, t. cbv zeta. split; [| exact Hrest'].
    rewrite bind_ret_l. exact Hrun. }
  unfold callPerplexity. cbv zeta.
  destruct imageBase64 as [d |].
  - rewrite !truthy_Some.
    destruct (String.eqb_spec d "") as [Hd | Hd]; cbn [negb andb].
    + exists []. split.
      { intros d0 mt. split; [intros [] |].
        intros (Heq & Hne & _). injection Heq as <-. contradiction. }
      split; [intros p [] |]. exact Hplain.
    + destruct (String.eqb_spec mimeType "") as [Hm | Hm]; cbn [negb].
      * exists []. split.
        { intros d0 mt. split; [intros [] |].
          intros (_ & _ & _ & Hne). contradiction. }
        split; [intros p [] |]. exact Hplain.
      * exists [image_item d mimeType]. split.
        { intros d0 mt. split.
          - intros [Heq | []]. injection Heq as <- <-. auto.
          - intros (Heq & _ & -> & _). injection Heq as <-.
            left. reflexivity. }
        split; [intros p [Hf | []]; discriminate |].
        destruct (Hrest {| model := "sonar-pro";
                           messages :=
                             [ {| role := role m;
                                  content :=
                                    (content m
                                     ++ [image_item d mimeType])%list |} ];
                           stream := false; tools := Some schema |})
          as (r & t & Hrun & Hrest').
        exists r, t. cbv zeta. split; [| exact Hrest'].
        unfold push_content. cbn [model messages stream tools].
        rewrite bind_await_normal. exact Hrun.
  - exists []. split.
    { intros d0 mt. split; [intros [] |]. intros (Heq & _). discriminate. }
    split; [intros p [] |]. exact Hplain.
Qed.


End Perplexity.

(** X30.  [identifyDoll] over the Perplexity API always returns normally,
    with the fallback answer whenever a step failed.  It sends at most one
    request, to the API with the bearer key, the model [sonar-pro], no
    streaming and the schema of the three properties; the image is
    attached exactly when both the payload of the data URL and the MIME
    type of the file are non-empty, so a file of unknown type is analysed
    without its image.  When the response is not [ok], its body is never
    read and the fallback is returned. *)
Theorem perplexity_identify_outcomes (svc : PerplexityService.Service)
    (file : File.t) :
  exists v trace,
    PerplexityService.identifyDoll svc file tt = (Normal v, tt, trace)
    /\ (forall e t0,
          PerplexityService.identifyDoll_try svc file tt = (Throw e, tt, t0) ->
          v = GeminiService.identifyDoll_fallback)
    /\ (List.length (filter PerplexityService.isFetch trace) <= 1)%nat
    /\ (forall url auth payload,
          In (PerplexityService.fetch url auth payload) trace ->
          url = PerplexityService.PERPLEXITY_API_URL
          /\ auth = ("Bearer " ++ PerplexityService.PERPLEXITY_API_KEY svc)%string
          /\ PerplexityService.model payload = "sonar-pro"
          /\ PerplexityService.stream payload = false
          /\ PerplexityService.tools payload
             = Some ["name"; "description"; "size"]
          /\ (exists items,
                PerplexityService.messages payload
                = [ {| PerplexityService.role := "user";
                       PerplexityService.content :=
                         PerplexityService.text_item
                           PerplexityService.AnalyzeDoll :: items |} ]
                /\ (forall p, ~ In (PerplexityService.text_item p) items)
                /\ (forall d mt,
                      In (PerplexityService.image_item d mt) items <->
                      (exists s,
                         PerplexityService.readAsDataURL_result svc file
                         = Normal s
                         /\ GeminiService.split_comma_1 s = Some d)
                      /\ d <> "" /\ mt = File.type file
                      /\ File.type file <> ""))
          /\ (forall res,
                PerplexityService.fetch_result svc payload = Normal res ->
                PerplexityService.ok res = false ->
                v = GeminiService.identifyDoll_fallback
                /\ ~ In PerplexityService.res_json trace)).
Proof.
  destruct (PerplexityService.readAsDataURL_result svc file)
    as [s | e] eqn:Hread.
  2:{ assert (Htry : PerplexityService.identifyDoll_try svc file tt
                     = (Throw e, tt, [PerplexityService.readAsDataURL file])).
      { unfold PerplexityService.identifyDoll_try,
          PerplexityService.fileToBase64, Effect.bind, Effect.call,
          Effect.await.
        rewrite Hread. reflexivity. }
      unfold PerplexityService.identifyDoll, Effect.try_catch.
      rewrite Htry. cbn.
      do 2 eexists. split; [reflexivity |]. split; [reflexivity |].
      split; [apply Nat.le_0_l |].
      intros u a p Hin. trace_cases Hin. }
  assert (Hfile :
    PerplexityService.fileToBase64 svc file tt
    = (Normal (GeminiService.split_comma_1 s), tt,
       [PerplexityService.readAsDataURL file])).
  { unfold PerplexityService.fileToBase64, Effect.bind,
      Effect.call, Effect.await, Effect.ret.
    rewrite Hread. reflexivity. }
  destruct (callPerplexity_run svc
              {| PerplexityService.role := "user";
                 PerplexityService.content :=
                   [PerplexityService.text_item
                      PerplexityService.AnalyzeDoll] |}
              (GeminiService.split_comma_1 s) (File.type file)
              ["name"; "description"; "size"])
    as (items & Hitems & Hnotext & r & t & Hrun & Hnofetch & Hnolog
        & Hjson & Hnotok).
  cbv zeta in Hrun, Hjson, Hnotok.
  cbn [PerplexityService.role PerplexityService.content app]
    in Hrun, Hjson, Hnotok.
  set (payload :=
         {| PerplexityService.model := "sonar-pro";
            PerplexityService.messages :=
              [ {| PerplexityService.role := "user";
                   PerplexityService.content :=
                     PerplexityService.text_item
                       PerplexityService.AnalyzeDoll :: items |} ];
            PerplexityService.stream := false;
            PerplexityService.tools :=
              Some ["name"; "description"; "size"] |})
    in Hrun, Hjson, Hnotok.
  set (request :=
         PerplexityService.fetch PerplexityService.PERPLEXITY_API_URL
           ("Bearer " ++ PerplexityService.PERPLEXITY_API_KEY svc)%string
           payload) in Hrun.
  assert (Htry : exists r',
    PerplexityService.identifyDoll_try svc file tt
    = (r', tt, PerplexityService.readAsDataURL file :: request :: t)
    /\ (forall e, r = Throw e -> r' = Throw e)).
  { unfold PerplexityService.identifyDoll_try.
    rewrite (bind_normal _ _ _ _ _ _ Hfile). cbv zeta.
    destruct r as [text | e].
    - rewrite (bind_normal _ _ _ _ _ _ Hrun).
      destruct (PerplexityService.call_cleanJsonText text)
        as [cleaned | e].
      + rewrite bind_await_normal. unfold Effect.await.
        eexists. split; [| discriminate].
        cbn [app]. rewrite app_nil_r. reflexivity.
      + rewrite bind_await_throw.
        eexists. split; [| discriminate].
        cbn [app]. rewrite app_nil_r. reflexivity.
    - rewrite (bind_throw _ _ _ _ _ _ Hrun).
      eexists. split; [reflexivity |]. intros e0 He. exact He. }
  destruct Htry as (r' & Htry & Hthrown).
  assert (Hone : forall tail,
            (forall u a q, ~ In (PerplexityService.fetch u a q) tail) ->
            filter PerplexityService.isFetch tail = []).
  { intros tail Hno. apply filter_none. intros c Hc.
    destruct c; try reflexivity. exfalso. exact (Hno _ _ _ Hc). }
  assert (Hfetches : forall u a q v tail,
    (forall c, In c tail ->
               exists l e, c = PerplexityService.console_error l e) ->
    (r' = Normal v \/ v = GeminiService.identifyDoll_fallback) ->
    In (PerplexityService.fetch u a q)
       (PerplexityService.readAsDataURL file :: request :: t ++ tail)%list ->
    u = PerplexityService.PERPLEXITY_API_URL
    /\ a = ("Bearer " ++ PerplexityService.PERPLEXITY_API_KEY svc)%string
    /\ PerplexityService.model q = "sonar-pro"
    /\ PerplexityService.stream q = false
    /\ PerplexityService.tools q = Some ["name"; "description"; "size"]
    /\ (exists items,
          PerplexityService.messages q
          = [ {| PerplexityService.role := "user";
                 PerplexityService.content :=
                   PerplexityService.text_item
                     PerplexityService.AnalyzeDoll :: items |} ]
          /\ (forall p, ~ In (PerplexityService.text_item p) items)
          /\ (forall d mt,
                In (PerplexityService.image_item d mt) items <->
                (exists s0,
                   Normal s = Normal s0
                   /\ GeminiService.split_comma_1 s0 = Some d)
                /\ d <> "" /\ mt = File.type file
                /\ File.type file <> ""))
    /\ (forall res,
          PerplexityService.fetch_result svc q = Normal res ->
          PerplexityService.ok res = false ->
          v = GeminiService.identifyDoll_fallback
          /\ ~ In PerplexityService.res_json
                (PerplexityService.readAsDataURL file :: request
                 :: t ++ tail)%list)).
  { intros u a q v tail Htail Hv Hin.
    cbn [In] in Hin. rewrite in_app_iff in Hin.
    destruct Hin as [Hin | [Hin | [Hin | Hin]]].
    - discriminate.
    - unfold request in Hin. injection Hin as <- <- <-.
      split; [reflexivity |]. split; [reflexivity |].
      split; [reflexivity |]. split; [reflexivity |].
      split; [reflexivity |]. split.
      + exists items. split; [reflexivity |]. split; [exact Hnotext |].
        intros d mt. rewrite Hitems. split.
        * intros (Hd & Hrest). split; [exists s; auto | exact Hrest].
        * intros ((s0 & Hs0 & Hd) & Hrest). injection Hs0 as <-. auto.
      + intros res Hres Hno. split.
        * destruct Hv as [Hv | Hv]; [| exact Hv].
          specialize (Hthrown _ (Hnotok res Hres Hno)). congruence.
        * intro Hjs. cbn [In] in Hjs. rewrite in_app_iff in Hjs.
          destruct Hjs as [Hjs | [Hjs | [Hjs | Hjs]]].
          -- discriminate.
          -- unfold request in Hjs. discriminate.
          -- destruct (Hjson Hjs) as (res' & Hres' & Hok).
             rewrite Hres in Hres'. injection Hres' as <-. congruence.
          -- destruct (Htail _ Hjs) as (l & e0 & Hjs'). discriminate.
    - exfalso. exact (Hnofetch _ _ _ Hin).
    - destruct (Htail _ Hin) as (l & e0 & Hin'). discriminate. }
  unfold PerplexityService.identifyDoll, Effect.try_catch.
  rewrite Htry.
  destruct r' as [v | e].
  - exists v, (PerplexityService.readAsDataURL file :: request
               :: t ++ [])%list.
    split; [rewrite app_nil_r; reflexivity |].
    split; [discriminate |].
    split.
    { unfold request at 1. cbn [filter PerplexityService.isFetch].
      rewrite filter_app, (Hone t Hnofetch). cbn. apply Nat.le_refl. }
    intros u a q. apply Hfetches; [intros c [] | left; reflexivity].
  - exists GeminiService.identifyDoll_fallback,
      (PerplexityService.readAsDataURL file :: request
       :: t ++ [PerplexityService.console_error "Perplexity Error:" e])%list.
    split; [reflexivity |].
    split; [reflexivity |].
    split.
    { unfold request at 1. cbn [filter PerplexityService.isFetch].
      rewrite filter_app, (Hone t Hnofetch). cbn. apply Nat.le_refl. }
    intros u a q. apply Hfetches; [| right; reflexivity].
    intros c [Hc | []]. eauto.
Qed.
